(** * GeoViz: the geophysical data-reduction core of [script.js]

    A shallow embedding of the parsing, geometric-factor, Karous-Hjelt and
    series-grouping code of [script.js], and the properties of that code.

    JavaScript numbers are IEEE 754 binary64 values: they are modelled by
    Rocq's primitive [float], whose operations are the same binary64
    operations (round to nearest, ties to even).  JavaScript strings are
    sequences of UTF-16 code units: they are modelled by lists of code units. *)

From Stdlib Require Import ZArith NArith Bool List Lia String Ascii DecimalString.
From Stdlib Require Import Permutation Sorted.
From Stdlib Require Import Floats.
From Stdlib Require HexadecimalString.
Import ListNotations.

Set Implicit Arguments.
Set Warnings "-inexact-float".

(** ** JavaScript values used by the script *)

Module JS.

(** A string is its sequence of code units. *)
Definition jsstring := list N.

(** The string whose code units are the characters of an ASCII literal. *)
Definition lit (s : string) : jsstring :=
  List.map N_of_ascii (list_ascii_of_string s).

Fixpoint str_eqb (a b : jsstring) : bool :=
  match a, b with
  | [], [] => true
  | x :: a', y :: b' => N.eqb x y && str_eqb a' b'
  | _, _ => false
  end.

(** Abrupt completion of a function body: the only exception the modelled
    code can raise is the [TypeError] of a property read on [undefined]. *)
Inductive completion (A : Type) : Type :=
| Normal (a : A)
| ThrowTypeError.
Arguments Normal {A} a.
Arguments ThrowTypeError {A}.

Definition bind {A B} (c : completion A) (k : A -> completion B) : completion B :=
  match c with
  | Normal a => k a
  | ThrowTypeError => ThrowTypeError
  end.

(** [Math.PI], the binary64 value nearest to pi. *)
Definition Math_PI : float := 0x1.921fb54442d18p+1%float.

(** [Math.abs]. *)
Definition Math_abs (x : float) : float := PrimFloat.abs x.

(** [Number.isFinite] on a number. *)
Definition Number_isFinite (x : float) : bool := PrimFloat.is_finite x.

(** The global [isNaN] on a number. *)
Definition isNaN (x : float) : bool := PrimFloat.is_nan x.

(** [!x] for a number [x]: true for [+0], [-0] and [NaN]. *)
Definition not_number (x : float) : bool := (x =? 0)%float || PrimFloat.is_nan x.

(** [x > y], [x <= y], [x === y] and [x !== y] on numbers. *)
Definition gt (x y : float) : bool := (y <? x)%float.
Definition le (x y : float) : bool := (x <=? y)%float.
Definition strict_eq (x y : float) : bool := (x =? y)%float.
Definition strict_ne (x y : float) : bool := negb (x =? y)%float.

(** *** Strings *)

(** The code units [String.prototype.trim] and [parseFloat] strip: the
    WhiteSpace and LineTerminator code points. *)
Definition isWhiteSpace (c : N) : bool :=
  existsb (N.eqb c)
    [9; 10; 11; 12; 13; 32; 160; 5760; 8232; 8233; 8239; 8287; 12288; 65279]%N
  || (N.leb 8192 c && N.leb c 8202).

Fixpoint trimStart (s : jsstring) : jsstring :=
  match s with
  | c :: s' => if isWhiteSpace c then trimStart s' else s
  | [] => []
  end.

Definition trimEnd (s : jsstring) : jsstring := rev (trimStart (rev s)).

(** [s.trim()]. *)
Definition trim (s : jsstring) : jsstring := trimEnd (trimStart s).

(** [Boolean(s)] for a string: the empty string is the only falsy one. *)
Definition Boolean_str (s : jsstring) : bool :=
  match s with [] => false | _ => true end.

(** Puts a code unit in front of the first piece of a split. *)
Definition cons_first (c : N) (pieces : list jsstring) : list jsstring :=
  match pieces with
  | p :: ps => (c :: p) :: ps
  | [] => [[c]]
  end.

Definition LF : N := 10.
Definition CR : N := 13.

(** [s.split(/\r?\n/)]: a line feed ends a piece, and so does a carriage
    return that a line feed follows; any other code unit belongs to the
    piece. *)
Fixpoint split_newline (s : jsstring) : list jsstring :=
  match s with
  | [] => [[]]
  | c :: s' =>
    if N.eqb c LF then [] :: split_newline s'
    else if N.eqb c CR && match s' with d :: _ => N.eqb d LF | [] => false end
    then split_newline s'
    else cons_first c (split_newline s')
  end.

(** The class [[\t, ]]. *)
Definition isDelimiter (c : N) : bool :=
  N.eqb c 9 || N.eqb c 44 || N.eqb c 32.

(** [s.split(/[\t, ]+/)]: a maximal run of delimiters ends a piece;
    [in_run] tells that the previous code unit was a delimiter. *)
Fixpoint split_run (in_run : bool) (s : jsstring) : list jsstring :=
  match s with
  | [] => [[]]
  | c :: s' =>
    if isDelimiter c
    then if in_run then split_run true s' else [] :: split_run true s'
    else cons_first c (split_run false s')
  end.

Definition split_delimiters (s : jsstring) : list jsstring := split_run false s.

(** Case folding of the [i] flag, for a pattern of ASCII letters: a code
    unit matches a pattern letter when it is that letter in either case. *)
Definition fold_case (c : N) : N :=
  if N.leb 65 c && N.leb c 90 then (c + 32)%N else c.

Fixpoint matches_at (pattern s : jsstring) : bool :=
  match pattern, s with
  | [], _ => true
  | p :: pattern', c :: s' => N.eqb (fold_case p) (fold_case c) && matches_at pattern' s'
  | _ :: _, [] => false
  end.

(** [/w1|w2|.../i.test(s)] for literal words: some word occurs somewhere in
    [s], whatever the case. *)
Fixpoint regex_test (words : list jsstring) (s : jsstring) : bool :=
  existsb (fun w => matches_at w s) words
  || match s with
     | [] => false
     | _ :: s' => regex_test words s'
     end.

(** *** Decimal literals *)

(** [word] is a prefix of [s]. *)
Fixpoint matches_exactly (word s : jsstring) : bool :=
  match word, s with
  | [], _ => true
  | p :: word', c :: s' => N.eqb p c && matches_exactly word' s'
  | _ :: _, [] => false
  end.

Definition isDigit (c : N) : bool := N.leb 48 c && N.leb c 57.

Definition digit_value (c : N) : Z := Z.of_N c - 48.

(** The longest prefix of decimal digits, and what follows it. *)
Fixpoint span_digits (s : jsstring) : jsstring * jsstring :=
  match s with
  | c :: s' =>
    if isDigit c then let '(ds, rest) := span_digits s' in (c :: ds, rest)
    else ([], s)
  | [] => ([], [])
  end.

Definition digits_value (ds : jsstring) : Z :=
  fold_left (fun acc c => acc * 10 + digit_value c)%Z ds 0%Z.

(** Division of [a] by [b > 0] rounded to the nearest integer, ties to the
    even one. *)
Definition div_half_even (a b : Z) : Z :=
  let q := (a / b)%Z in
  match (2 * (a mod b) ?= b)%Z with
  | Lt => q
  | Gt => (q + 1)%Z
  | Eq => if Z.even q then q else (q + 1)%Z
  end.

(** The binary64 value nearest to [(-1)^neg * a / b], ties to even, for
    [a, b > 0].  A binary64 number is a multiple of [2^-1074] of at most 53
    significant bits: [shift] is the number of bits of the quotient, taken
    in units of [2^-1074], beyond the 53 leading ones; the quotient is
    rounded to a multiple [k] of [2^(shift - 1074)], and a mantissa that
    reaches [2^53] moves to the next binade. *)
Definition round_rational (neg : bool) (a b : Z) : spec_float :=
  let shift := Z.max (Z.log2 (a * 2 ^ 1074 / b) + 1 - 53) 0 in
  let k := div_half_even (a * 2 ^ Z.max (1074 - shift) 0)
                         (b * 2 ^ Z.max (shift - 1074) 0) in
  let '(k', shift') := if (k =? 2 ^ 53)%Z then (2 ^ 52, shift + 1)%Z else (k, shift) in
  match k' with
  | Zpos p =>
    if (shift' <=? 2045)%Z then S754_finite neg p (shift' - 1074) else S754_infinity neg
  | _ => S754_zero neg
  end.

(** The Number value of [(-1)^neg * m * 10^e10]. *)
Definition number_of_decimal (neg : bool) (m : Z) (e10 : Z) : float :=
  match m with
  | Zpos _ => SF2Prim (round_rational neg (m * 10 ^ Z.max e10 0) (10 ^ Z.max (- e10) 0))
  | _ => if neg then neg_zero else zero
  end.

(** The exponent part of a literal at the head of [s], when there is one:
    its value and what follows it. *)
Definition exponent_part (s : jsstring) : option (Z * jsstring) :=
  match s with
  | c :: s' =>
    if N.eqb c 101 || N.eqb c 69 then
      let '(eneg, s'') :=
        match s' with
        | d :: t => if N.eqb d 45 then (true, t) else if N.eqb d 43 then (false, t) else (false, s')
        | [] => (false, s')
        end in
      match span_digits s'' with
      | ([], _) => None
      | (ds, rest) => Some (if eneg then (- digits_value ds)%Z else digits_value ds, rest)
      end
    else None
  | [] => None
  end.

(** [parseFloat(s)]: the value of the longest prefix of the trimmed string
    that is a [StrDecimalLiteral], [NaN] when there is none. *)
Definition parseFloat (s : jsstring) : float :=
  let s0 := trimStart s in
  let '(neg, s1) :=
    match s0 with
    | c :: t => if N.eqb c 45 then (true, t) else if N.eqb c 43 then (false, t) else (false, s0)
    | [] => (false, s0)
    end in
  if matches_exactly (lit "Infinity") s1 then (if neg then neg_infinity else infinity)
  else
    let '(int_ds, s2) := span_digits s1 in
    let '(frac_ds, s3) :=
      match s2 with
      | c :: t => if N.eqb c 46 then span_digits t else ([], s2)
      | [] => ([], s2)
      end in
    match int_ds, frac_ds with
    | [], [] => nan
    | _, _ =>
      let e := match exponent_part s3 with Some (e, _) => e | None => 0%Z end in
      number_of_decimal neg (digits_value (int_ds ++ frac_ds))
                        (e - Z.of_nat (List.length frac_ds))
    end.

(** [parseFloat(parts[i])]; a missing element is [undefined], which parses
    to [NaN]. *)
Definition parseFloat_at (parts : list jsstring) (i : nat) : float :=
  match nth_error parts i with
  | Some s => parseFloat s
  | None => nan
  end.

End JS.
Import JS.

Open Scope float_scope.

(** ** Geophysics: calculation utilities *)

(** [calculateGeometricFactor(arrayType, positions)].  The result [None] is
    JavaScript's [null].  A destructured position that the array does not
    have is [undefined], which the presence check rejects like [0]. *)
Definition calculateGeometricFactor (arrayType : jsstring) (positions : list float)
  : option float :=
  match positions with
  | p1 :: p2 :: p3 :: p4 :: _ =>
    if not_number p1 || not_number p2 || not_number p3 || not_number p4 then None
    else if str_eqb arrayType (lit "wenner") then
      let a_wenner := Math_abs (p2 - p1) in
      if gt a_wenner 0 then Some (2 * Math_PI * a_wenner) else None
    else if str_eqb arrayType (lit "schlumberger") then
      let L_schl := Math_abs (p4 - p1) / 2 in
      let a_schl := Math_abs (p3 - p2) / 2 in
      if gt a_schl 0 && gt L_schl a_schl
      then Some (Math_PI * (L_schl * L_schl - a_schl * a_schl) / a_schl)
      else None
    else if str_eqb arrayType (lit "dipole") then
      let a_dipole := Math_abs (p2 - p1) in
      let R_separation := Math_abs (p3 - p2) in
      (* [n_factor] is [null] when [a_dipole > 0] fails; [null > 0] is false *)
      let n_factor := if gt a_dipole 0 then Some (R_separation / a_dipole) else None in
      match n_factor with
      | Some n =>
        if gt n 0 && gt a_dipole 0
        then Some (Math_PI * n * (n + 1) * (n + 2) * a_dipole)
        else if gt a_dipole 0 then Some (2 * Math_PI * a_dipole) else None
      | None =>
        if gt a_dipole 0 then Some (2 * Math_PI * a_dipole) else None
      end
    else None
  | _ => None
  end.

(** A VLF reading and a point of the filtered profile. *)
Record VLFRecord := mkVLF { station : float; inPhase : float; quadrature : float }.
Record KHPoint := mkKH { kh_x : float; kh_y : float }.

(** One iteration of the loop of [calculateKarousHjelt], at index [i], on the
    accumulated [khData]. *)
Definition kh_body (vlfData : list VLFRecord) (khData : list KHPoint) (i : nat)
  : completion (list KHPoint) :=
  match nth_error vlfData i, nth_error vlfData (i + 1) with
  | Some p1, Some p2 =>
    let d_inPhase := inPhase p2 - inPhase p1 in
    let d_station := station p2 - station p1 in
    if strict_ne d_station 0 then
      let kh_value := d_inPhase / d_station in
      let midpoint := (station p1 + station p2) / 2 in
      Normal (khData ++ [mkKH midpoint kh_value])
    else Normal khData
  | _, _ => ThrowTypeError
  end.

(** [for (let i = start; i < start + n; i++) body]. *)
Fixpoint kh_loop (vlfData : list VLFRecord) (n : nat) (i : nat) (khData : list KHPoint)
  : completion (list KHPoint) :=
  match n with
  | O => Normal khData
  | S n' => bind (kh_body vlfData khData i) (kh_loop vlfData n' (S i))
  end.

(** [calculateKarousHjelt(vlfData)]. *)
Definition calculateKarousHjelt (vlfData : list VLFRecord) : completion (list KHPoint) :=
  if Nat.ltb (List.length vlfData) 2 then Normal []
  else kh_loop vlfData (List.length vlfData - 1) 0 [].

(** The filter as the specification words it: one optional point per
    adjacent pair, in input order. *)
Definition kh_point (a b : VLFRecord) : KHPoint :=
  mkKH ((station a + station b) / 2) ((inPhase b - inPhase a) / (station b - station a)).

Definition coincident (a b : VLFRecord) : bool := (station b - station a =? 0).

Fixpoint kh_pairs (l : list VLFRecord) : list KHPoint :=
  match l with
  | a :: (b :: _) as tl =>
    (if coincident a b then [] else [kh_point a b]) ++ kh_pairs tl
  | _ => []
  end.

Fixpoint coincident_pairs (l : list VLFRecord) : nat :=
  match l with
  | a :: (b :: _) as tl => (if coincident a b then 1 else 0) + coincident_pairs tl
  | _ => 0
  end.

(** Two readings that agree on station and in-phase value. *)
Definition same_station_inPhase (a b : VLFRecord) : Prop :=
  station a = station b /\ inPhase a = inPhase b.

(** ** Parser functions *)

(** [text.split(/\r?\n/).map(l => l.trim()).filter(Boolean)]. *)
Definition nonblank_lines (text : jsstring) : list jsstring :=
  filter Boolean_str (map trim (split_newline text)).

(** The header pattern [/station|inphase/i]. *)
Definition vlf_header : list jsstring := [lit "station"; lit "inphase"].

(** The body of the loop of [parseVLFData] on one line: the records it
    pushes. *)
Definition vlf_line (line : jsstring) : list VLFRecord :=
  if regex_test vlf_header line then []
  else
    let parts := filter Boolean_str (map trim (split_delimiters line)) in
    if Nat.ltb (List.length parts) 3 then []
    else
      let station := parseFloat_at parts 0 in
      let inPhase := parseFloat_at parts 1 in
      let quadrature := parseFloat_at parts 2 in
      if Number_isFinite station && Number_isFinite inPhase && Number_isFinite quadrature
      then [mkVLF station inPhase quadrature]
      else [].

(** [parseVLFData(text)]. *)
Definition parseVLFData (text : jsstring) : list VLFRecord :=
  flat_map vlf_line (nonblank_lines text).

(** The state of the page and of the script's globals that the functions
    of the script read. *)
Record Page := mkPage {
  arrayType_value : jsstring;            (* the select element [arrayType] *)
  dataInput_value : jsstring;            (* the text area [dataInput] *)
  karousHjeltToggle_checked : bool;      (* the check box [karousHjeltToggle] *)
  vlfColorTheme_value : jsstring;
  resistivityColorTheme_value : jsstring;
  dark_mode : bool;
  currentDataType : jsstring;
  chartAnnotationPluginLoaded : bool
}.

Record ResistivityRecord := mkRes {
  arrayType : jsstring;
  positions : list float;
  spacing : float;
  midpoint : float;
  depth : float;
  kFactor : float;
  resistance : float;
  apparentResistivity : float;
  isCalculated : bool
}.

(** The header pattern [/electrode|pos|station/i]. *)
Definition resistivity_header : list jsstring :=
  [lit "electrode"; lit "pos"; lit "station"].

(** [positions[i]] in arithmetic: a missing element is [undefined], [NaN]
    as a number. *)
Definition position_at (positions : list float) (i : nat) : float :=
  nth i positions nan.

(** Step 1 of the loop body: the supplied K factor, or the computed one when
    the supplied one is missing or invalid; [None] when the row is skipped.
    [Number.isFinite(null)] is false. *)
Definition resolve_kFactor (arrayType : jsstring) (positions : list float) (kFactor : float)
  : option float :=
  if negb (Number_isFinite kFactor) || strict_eq kFactor 0 then
    match calculateGeometricFactor arrayType positions with
    | Some k => if negb (Number_isFinite k) || strict_eq k 0 then None else Some k
    | None => None
    end
  else Some kFactor.

(** Step 2 of the loop body: the apparent resistivity and [isCalculated];
    [None] when the row is skipped. *)
Definition resolve_apparentResistivity (kFactor resistance apparentResistivity : float)
  : option (float * bool) :=
  if negb (Number_isFinite apparentResistivity) then
    if Number_isFinite kFactor && Number_isFinite resistance
    then Some (kFactor * resistance, true)
    else None
  else Some (apparentResistivity, false).

(** The empirical pseudo-depth constant [0.519]. *)
Definition depth_factor : float := 0x1.09ba5e353f7cfp-1.

(** The body of the loop of [parseResistivityData] on one line: the records
    it pushes. *)
Definition resistivity_line (arrayType : jsstring) (line : jsstring)
  : list ResistivityRecord :=
  if regex_test resistivity_header line then []
  else
    let parts := filter Boolean_str (split_delimiters line) in
    if Nat.ltb (List.length parts) 6 then []
    else
      let positions := map parseFloat (firstn 4 parts) in
      let kFactor := parseFloat_at parts 4 in
      let resistance := parseFloat_at parts 5 in
      let apparentResistivity := parseFloat_at parts 6 in
      if existsb isNaN positions then []
      else
        let spacingA := Math_abs (position_at positions 1 - position_at positions 0) in
        if le spacingA 0 then []
        else
          match resolve_kFactor arrayType positions kFactor with
          | None => []
          | Some kFactor =>
            match resolve_apparentResistivity kFactor resistance apparentResistivity with
            | None => []
            | Some (apparentResistivity, isCalculated) =>
              let midpoint := (position_at positions 0 + position_at positions 3) / 2 in
              let depth := spacingA * depth_factor in
              if Number_isFinite midpoint && Number_isFinite apparentResistivity
              then [mkRes arrayType positions spacingA midpoint depth kFactor resistance
                          apparentResistivity isCalculated]
              else []
            end
          end.

(** [parseResistivityData(text)]: the array type is read from the page. *)
Definition parseResistivityData (page : Page) (text : jsstring) : list ResistivityRecord :=
  let lines := nonblank_lines (trim text) in
  let arrayType := arrayType_value page in
  flat_map (resistivity_line arrayType) lines.

(** *** The fields of a resistivity row

    The values the loop body of [parseResistivityData] computes from a line
    before it resolves the apparent resistivity. *)

Definition row_parts (line : jsstring) : list jsstring :=
  filter Boolean_str (split_delimiters line).

Definition row_positions (line : jsstring) : list float :=
  map parseFloat (firstn 4 (row_parts line)).

Definition row_spacing (line : jsstring) : float :=
  Math_abs (position_at (row_positions line) 1 - position_at (row_positions line) 0).

Definition row_midpoint (line : jsstring) : float :=
  (position_at (row_positions line) 0 + position_at (row_positions line) 3) / 2.

Definition row_resistance (line : jsstring) : float := parseFloat_at (row_parts line) 5.

(** Field 6, [NaN] when the row has no such field. *)
Definition row_supplied_resistivity (line : jsstring) : float :=
  parseFloat_at (row_parts line) 6.

(** The geometric factor with which a row reaches step 2; [None] when the
    row is skipped before. *)
Definition row_resolved_kFactor (arrayType : jsstring) (line : jsstring) : option float :=
  if regex_test resistivity_header line then None
  else if Nat.ltb (List.length (row_parts line)) 6 then None
  else if existsb isNaN (row_positions line) then None
  else if le (row_spacing line) 0 then None
  else resolve_kFactor arrayType (row_positions line) (parseFloat_at (row_parts line) 4).

(** The record a row pushes, given the resolved values. *)
Definition row_record (arrayType : jsstring) (line : jsstring) (K rho : float) (calc : bool)
  : ResistivityRecord :=
  mkRes arrayType (row_positions line) (row_spacing line) (row_midpoint line)
        (row_spacing line * depth_factor) K (row_resistance line) rho calc.

(** *** The lines of a VLF text, as the specification words them *)

(** [lines.join("\n")]. *)
Fixpoint join_lines (lines : list jsstring) : jsstring :=
  match lines with
  | [] => []
  | [l] => l
  | l :: rest => l ++ LF :: join_lines rest
  end.

(** The lines of a text: the pieces between its line feeds. *)
Fixpoint lines_of (text : jsstring) : list jsstring :=
  match text with
  | [] => [[]]
  | c :: s => if N.eqb c LF then [] :: lines_of s else cons_first c (lines_of s)
  end.

(** The characters of a decimal literal. *)
Definition numeric_char (c : N) : bool :=
  isDigit c || N.eqb c 43 || N.eqb c 45 || N.eqb c 46 || N.eqb c 101 || N.eqb c 69.

(** A column: a nonempty run without delimiter or white space. *)
Definition is_field (t : jsstring) : bool :=
  Boolean_str t && forallb (fun c => negb (isDelimiter c) && negb (isWhiteSpace c)) t.

(** A numeric column: a column of literal characters that parses to a finite
    number. *)
Definition is_numeric_field (t : jsstring) : bool :=
  Boolean_str t && forallb numeric_char t && Number_isFinite (parseFloat t).

(** What separates two columns: a nonempty run of tabs, commas or spaces. *)
Definition is_delimiter_run (d : jsstring) : bool :=
  Boolean_str d && forallb isDelimiter d.

(** White space around a line, such as the carriage return of a CRLF file. *)
Definition is_padding (p : jsstring) : bool := forallb isWhiteSpace p.

(** What the loop of [parseVLFData] pushes for a line of the text: nothing
    for a blank line, the records of the trimmed line otherwise. *)
Definition vlf_row (l : jsstring) : list VLFRecord :=
  if Boolean_str (trim l) then vlf_line (trim l) else [].

(** A header line, in the words of the specification, without the pattern
    test of the code: [c] is the small letter [p] or its capital, [w] spells
    [word] with every letter in either case, and a header line contains
    [station] or [inphase] so spelled, anywhere. *)
Definition either_case (p c : N) : bool := N.eqb c p || N.eqb c (p - 32)%N.

Fixpoint spells (word w : jsstring) : bool :=
  match word, w with
  | [], [] => true
  | p :: word', c :: w' => either_case p c && spells word' w'
  | _, _ => false
  end.

Definition contains_word (word l : jsstring) : Prop :=
  exists pre w post, l = pre ++ w ++ post /\ spells word w = true.

Definition header_line (l : jsstring) : Prop :=
  contains_word (lit "station") l \/ contains_word (lit "inphase") l.

(** The records the specification gives to a line of the text. *)
Inductive vlf_line_spec : jsstring -> list VLFRecord -> Prop :=
| line_numeric (pad1 t0 d1 t1 d2 t2 pad2 : jsstring) :
    is_padding pad1 = true -> is_padding pad2 = true ->
    is_numeric_field t0 = true -> is_delimiter_run d1 = true ->
    is_numeric_field t1 = true -> is_delimiter_run d2 = true ->
    is_numeric_field t2 = true ->
    vlf_line_spec (pad1 ++ t0 ++ d1 ++ t1 ++ d2 ++ t2 ++ pad2)
                  [mkVLF (parseFloat t0) (parseFloat t1) (parseFloat t2)]
| line_header (l : jsstring) :
    header_line l ->
    vlf_line_spec l []
| line_third_not_finite (pad1 t0 d1 t1 d2 t2 pad2 : jsstring) :
    is_padding pad1 = true -> is_padding pad2 = true ->
    is_numeric_field t0 = true -> is_delimiter_run d1 = true ->
    is_numeric_field t1 = true -> is_delimiter_run d2 = true ->
    is_field t2 = true -> Number_isFinite (parseFloat t2) = false ->
    vlf_line_spec (pad1 ++ t0 ++ d1 ++ t1 ++ d2 ++ t2 ++ pad2) []
| line_other (l : jsstring) :
    vlf_line_spec l (vlf_row l).

(** ** Grouping by spacing *)

(** *** [toFixed(2)] and the keys of [groupedData]

    A string that [x.toFixed(2)] returns is represented by what it prints:
    [FixedDigits neg n] is the sign [-] when [neg], the decimal digits of
    [n / 100], a point and the two digits of [n mod 100]; [NumberString x] is
    the string [Number.prototype.toString] gives [x], which [toFixed] returns
    for a number that is not finite or is at least [10^21] in magnitude.
    Different values of this type are different strings, no such string is an
    array index, and [Number] reads a string of the second kind back to the
    number it prints. *)
Inductive fixed_string : Type :=
| FixedDigits (negative : bool) (hundredths : Z)
| NumberString (x : float).

(** The value [m * 2^e] of a finite number, in units of [2^-1074]. *)
Definition units (m : positive) (e : Z) : Z := (Zpos m * 2 ^ (e + 1074))%Z.

(** [100 * x] rounded to the nearest integer, the larger one on a tie, for
    [x] of [v] units: the integer [n] for which [n / 100 - x] is closest to
    zero. *)
Definition hundredths (v : Z) : Z := Z.shiftr (200 * v + 2 ^ 1074) 1075.

(** [10^21 <= x], for [x] of [v] units. *)
Definition at_least_1e21 (v : Z) : bool := (10 ^ 21 * 2 ^ 1074 <=? v)%Z.

(** [x.toFixed(2)]. *)
Definition toFixed2 (x : float) : fixed_string :=
  match Prim2SF x with
  | S754_zero _ => FixedDigits false 0
  | S754_finite s m e =>
    if at_least_1e21 (units m e) then NumberString x
    else FixedDigits s (hundredths (units m e))
  | _ => NumberString x
  end.

(** [Number(key)]. *)
Definition Number_of (key : fixed_string) : float :=
  match key with
  | FixedDigits neg n => number_of_decimal neg n (-2)
  | NumberString x => x
  end.

(** Equality of two such strings. *)
Definition key_eqb (a b : fixed_string) : bool :=
  match a, b with
  | FixedDigits s n, FixedDigits s' n' => Bool.eqb s s' && (n =? n')%Z
  | NumberString x, NumberString y => PrimFloat.Leibniz.eqb x y
  | _, _ => false
  end.

(** The text of a string of the first kind. *)
Definition fixed_text (neg : bool) (n : Z) : jsstring :=
  let two := NilZero.string_of_uint (N.to_uint (Z.to_N (n mod 100))) in
  (if neg then lit "-" else [])
    ++ lit (NilZero.string_of_uint (N.to_uint (Z.to_N (n / 100))))
    ++ lit "."
    ++ (if (n mod 100 <? 10)%Z then lit "0" else []) ++ lit two.

(** *** [Array.prototype.sort] with a numeric comparator

    A stable insertion sort: an element goes in front of the first element
    that the comparator puts after it.  On a comparator that is a consistent
    ordering of the elements this is the sorted array that the language
    requires of every implementation. *)
Fixpoint insert_by (A : Type) (comparefn : A -> A -> float) (x : A) (l : list A) : list A :=
  match l with
  | [] => [x]
  | y :: l' => if gt (comparefn y x) 0 then x :: l else y :: insert_by comparefn x l'
  end.

Definition sort_by (A : Type) (comparefn : A -> A -> float) (l : list A) : list A :=
  fold_left (fun sorted x => insert_by comparefn x sorted) l [].

(** *** The groups of [plotResistivityData] *)

(** The object [groupedData]: its keys in insertion order, each with its
    array of records. *)
Definition groupedData := list (fixed_string * list ResistivityRecord).

(** [groupedData[key]], [None] for [undefined]. *)
Fixpoint lookup (key : fixed_string) (g : groupedData) : option (list ResistivityRecord) :=
  match g with
  | [] => None
  | (k, ds) :: g' => if key_eqb k key then Some ds else lookup key g'
  end.

(** [if (!groupedData[key]) groupedData[key] = []; groupedData[key].push(d)]. *)
Fixpoint push_record (key : fixed_string) (d : ResistivityRecord) (g : groupedData)
  : groupedData :=
  match g with
  | [] => [(key, [d])]
  | (k, ds) :: g' =>
    if key_eqb k key then (k, ds ++ [d]) :: g' else (k, ds) :: push_record key d g'
  end.

(** The [forEach] that fills [groupedData]. *)
Definition group_records (data : list ResistivityRecord) : groupedData :=
  fold_left (fun g d => push_record (toFixed2 (spacing d)) d g) data [].

Record Point := mkPoint { point_x : float; point_y : float }.

(** What one iteration of the second [forEach] gives the chart: the spacing
    of the label, the measured points and the calculated points. *)
Record SeriesGroup := mkGroup {
  group_spacing : float;
  measuredPoints : list Point;
  calculatedPoints : list Point
}.

Definition point_of (p : ResistivityRecord) : Point :=
  mkPoint (midpoint p) (apparentResistivity p).

Definition series_of (spacing : float) (points : list ResistivityRecord) : SeriesGroup :=
  mkGroup spacing
          (map point_of (filter (fun p => negb (isCalculated p)) points))
          (map point_of (filter isCalculated points)).

(** The body of the second [forEach]; [points.sort] on [undefined] throws. *)
Definition plot_group (g : groupedData) (spacing : float) : completion SeriesGroup :=
  match lookup (toFixed2 spacing) g with
  | None => ThrowTypeError
  | Some points =>
    Normal (series_of spacing (sort_by (fun a b => midpoint a - midpoint b) points))
  end.

Fixpoint for_each (A B : Type) (f : A -> completion B) (l : list A) : completion (list B) :=
  match l with
  | [] => Normal []
  | x :: l' => bind (f x) (fun y => bind (for_each f l') (fun ys => Normal (y :: ys)))
  end.

(** The grouping of [plotResistivityData]: the records are bucketed by
    [spacing.toFixed(2)], the keys are read back as numbers and sorted, and
    every sorted spacing gets the points of its bucket, sorted by midpoint. *)
Definition groupBySpacing (data : list ResistivityRecord) : completion (list SeriesGroup) :=
  let grouped := group_records data in
  let spacings := sort_by (fun a b => a - b) (map Number_of (map fst grouped)) in
  for_each (plot_group grouped) spacings.

(** *** Vocabulary of the string lemmas *)

(** A string that neither starts nor ends with white space is its own trim. *)
Definition tight (s : jsstring) : Prop :=
  trimStart s = s /\ trimEnd s = s.

(** A line without its final carriage return. *)
Fixpoint strip_cr (l : jsstring) : jsstring :=
  match l with
  | [] => []
  | c :: l' =>
    if N.eqb c CR && match l' with [] => true | _ => false end then []
    else c :: strip_cr l'
  end.

(** A code unit that starts neither [station] nor [inphase], in any case. *)
Definition no_initial (c : N) : bool :=
  negb (N.eqb 115 (fold_case c)) && negb (N.eqb 105 (fold_case c)).

(** A lower-case letter of a pattern matches no white space. *)
Definition lower_case (p : N) : bool := N.leb 97 p && N.leb p 122.

(** A word of lower-case letters, at least one. *)
Definition is_word (w : jsstring) : bool := Boolean_str w && forallb lower_case w.

(** A line of the text holds no line feed. *)
Definition single_line (l : jsstring) : bool := negb (existsb (N.eqb LF) l).

(** *** Values of binary64 numbers *)

(** The value of a finite number, in units of [2^-1074]. *)
Definition scaled (s : bool) (m : positive) (e : Z) : Z :=
  cond_Zopp s (Zpos m * 2 ^ (e + 1074)).

(** A number of sign [s] that is not zero. *)
Definition nonzero_of_sign (s : bool) (x : spec_float) : Prop :=
  match x with
  | S754_finite s' _ _ | S754_infinity s' => s' = s
  | _ => False
  end.

Definition SFzero : spec_float := S754_zero false.

(** A bound beyond the value of every finite number. *)
Definition beyond : Z := 2 ^ 2200.

Definition SFrank (x : spec_float) : Z :=
  match x with
  | S754_finite s m e => scaled s m e
  | S754_infinity s => cond_Zopp s beyond
  | _ => 0
  end.

Definition rank (x : float) : Z := SFrank (Prim2SF x).

(** *** Rounding on the grid of a binade *)

Definition U : Z := 2 ^ 1074.

(** The number of bits that the rounding of [a / b] drops, and the mantissa
    it keeps. *)
Definition dropped_bits (a b : Z) : Z := Z.max (Z.log2 (a * U / b) + 1 - 53) 0.

Definition kept_mantissa (a b : Z) : Z :=
  div_half_even (a * U) (b * 2 ^ dropped_bits a b).

(** *** Vocabulary of the grouping *)

(** The key of a record. *)
Definition key_of (d : ResistivityRecord) : fixed_string := toFixed2 (spacing d).

(** The records of [data] with a given key, in the order of [data]. *)
Definition bucket (key : fixed_string) (data : list ResistivityRecord)
  : list ResistivityRecord :=
  filter (fun d => key_eqb (key_of d) key) data.

(** A record as the parser builds it: a spacing [> 0] and a finite
    midpoint. *)
Definition valid_record (d : ResistivityRecord) : bool :=
  gt (spacing d) 0 && Number_isFinite (midpoint d).

(** The group of a spacing read back from a key. *)
Definition group_of (data : list ResistivityRecord) (spacing : float) : SeriesGroup :=
  series_of spacing
            (sort_by (fun a b => midpoint a - midpoint b) (bucket (toFixed2 spacing) data)).

(** The spacings of the second [forEach]: the keys, read back and sorted. *)
Definition sorted_spacings (data : list ResistivityRecord) : list float :=
  sort_by (fun a b => a - b) (map Number_of (map fst (group_records data))).

(** *** Uploaded files *)

(** [parts.join(sep)] on an array of strings. *)
Fixpoint join (sep : jsstring) (parts : list jsstring) : jsstring :=
  match parts with
  | [] => []
  | [p] => p
  | p :: rest => p ++ sep ++ join sep rest
  end.

(** The text that [handleFileUpload] puts in the text area for the rows
    [results.data] of the uploaded file:
    [results.data.map((row) => row.join('\t')).join('\n')]. *)
Definition csvText (data : list (list jsstring)) : jsstring :=
  join [LF] (map (join [9%N]) data).

(** The records that the rows of an uploaded VLF file stand for: a row of
    at least three columns is the reading of its first three. *)
Definition row_reading (row : list jsstring) : list VLFRecord :=
  match row with
  | t0 :: t1 :: t2 :: _ => [mkVLF (parseFloat t0) (parseFloat t1) (parseFloat t2)]
  | _ => []
  end.

(** *** Vocabulary of the resistivity records *)

(** A record with another array type. *)
Definition with_arrayType (t : jsstring) (r : ResistivityRecord) : ResistivityRecord :=
  mkRes t (positions r) (spacing r) (midpoint r) (depth r) (kFactor r) (resistance r)
        (apparentResistivity r) (isCalculated r).

(** A line on which the parser does not compute the geometric factor: a
    line it skips before that step (a header, fewer than six columns, a
    position that is [NaN], a spacing that is not [> 0]), or a line whose
    column 5 is a finite number other than zero. *)
Definition supplies_kFactor (line : jsstring) : bool :=
  regex_test resistivity_header line
  || Nat.ltb (List.length (row_parts line)) 6
  || existsb isNaN (row_positions line)
  || le (row_spacing line) 0
  || (Number_isFinite (parseFloat_at (row_parts line) 4)
      && strict_ne (parseFloat_at (row_parts line) 4) 0).

(** *** Statistics and the VLF series *)

(** [new Set(keys)]: the distinct keys, in insertion order. *)
Definition Set_of (keys : list fixed_string) : list fixed_string :=
  fold_left (fun s k => if existsb (key_eqb k) s then s else s ++ [k]) keys [].

(** The counts of [displayResistivityStats]:
    [data.filter(d => d.isCalculated).length], [data.length] and
    [new Set(data.map(d => d.spacing.toFixed(2))).size]. *)
Definition stats_calculatedPoints (data : list ResistivityRecord) : nat :=
  List.length (filter isCalculated data).

Definition stats_points (data : list ResistivityRecord) : nat := List.length data.

Definition stats_spacingCount (data : list ResistivityRecord) : nat :=
  List.length (Set_of (map (fun d => toFixed2 (spacing d)) data)).

(** The readings as [plotVLFData] plots them: the parsed text, after
    [data.sort((a, b) => a.station - b.station)]. *)
Definition sorted_readings (input : jsstring) : list VLFRecord :=
  sort_by (fun a b => station a - station b) (parseVLFData input).

(** The points of the two datasets:
    [data.map(d => ({ x: d.station, y: d.inPhase }))] and
    [data.map(d => ({ x: d.station, y: d.quadrature }))]. *)
Definition inPhase_series (input : jsstring) : list Point :=
  map (fun d => mkPoint (station d) (inPhase d)) (sorted_readings input).

Definition quadrature_series (input : jsstring) : list Point :=
  map (fun d => mkPoint (station d) (quadrature d)) (sorted_readings input).

(** *** Colours *)

(** [s.slice(a, b)] for indices [0 <= a <= b]: the code units from index
    [a] up to, not including, index [b], as far as the string has them. *)
Definition slice (s : jsstring) (a b : nat) : jsstring := firstn (b - a) (skipn a s).

(** The value of a hexadecimal digit, in either case. *)
Definition hex_value (c : N) : option Z :=
  if isDigit c then Some (Z.of_N c - 48)%Z
  else if N.leb 97 c && N.leb c 102 then Some (Z.of_N c - 87)%Z
  else if N.leb 65 c && N.leb c 70 then Some (Z.of_N c - 55)%Z
  else None.

(** The value of the longest prefix of hexadecimal digits of [s], after the
    digits of value [acc]; [None] when there is no digit at all. *)
Fixpoint hex_prefix (s : jsstring) (acc : option Z) : option Z :=
  match s with
  | c :: s' =>
    match hex_value c with
    | Some d => hex_prefix s' (Some (16 * match acc with Some a => a | None => 0 end + d)%Z)
    | None => acc
    end
  | [] => acc
  end.

(** The Number value of [(-1)^neg * n] for a whole number [n >= 0]: [n]
    itself below [2^53 = 9007199254740992], where every whole number is a
    binary64 number, and the nearest binary64 number from there on. *)
Definition Number_of_integer (neg : bool) (n : Z) : float :=
  if (n <? 9007199254740992)%Z
  then (if neg then - of_uint63 (Uint63.of_Z n) else of_uint63 (Uint63.of_Z n))
  else number_of_decimal neg n 0.

(** [parseInt(s, 16)]: white space, a sign and a prefix [0x] or [0X] are
    skipped; the value is that of the longest run of hexadecimal digits then,
    [NaN] when there is none. *)
Definition parseInt16 (s : jsstring) : float :=
  let s0 := trimStart s in
  let '(neg, s1) :=
    match s0 with
    | c :: t => if N.eqb c 45 then (true, t) else if N.eqb c 43 then (false, t) else (false, s0)
    | [] => (false, s0)
    end in
  let s2 :=
    match s1 with
    | c :: d :: t => if N.eqb c 48 && (N.eqb d 120 || N.eqb d 88) then t else s1
    | _ => s1
    end in
  match hex_prefix s2 None with
  | Some n => Number_of_integer neg n
  | None => nan
  end.

(** [Math.floor]. *)
Definition Math_floor (x : float) : float :=
  match Prim2SF x with
  | S754_finite s m e =>
    if (0 <=? e)%Z then x
    else
      let q := Z.shiftr (cond_Zopp s (Zpos m)) (- e) in
      Number_of_integer (q <? 0)%Z (Z.abs q)
  | _ => x
  end.

Definition is_negative_zero (x : float) : bool :=
  match Prim2SF x with S754_zero true => true | _ => false end.

(** [Math.max(a, b)] and [Math.min(a, b)]: [NaN] when an argument is
    [NaN]; [+0] counts as larger than [-0]. *)
Definition Math_max (a b : float) : float :=
  if is_nan a || is_nan b then nan
  else if a <? b then b
  else if b <? a then a
  else if is_negative_zero a then b else a.

Definition Math_min (a b : float) : float :=
  if is_nan a || is_nan b then nan
  else if a <? b then a
  else if b <? a then b
  else if is_negative_zero a then a else b.

(** The hexadecimal digits of a whole number, in lower case. *)
Definition hex_digits (n : Z) : jsstring :=
  lit (HexadecimalString.NilZero.string_of_uint (N.to_hex_uint (Z.to_N n))).

(** The hexadecimal digits of the fraction [f / d], [0 <= f < d], for [d] a
    power of two. *)
Fixpoint hex_fraction (fuel : nat) (f d : Z) : jsstring :=
  match fuel with
  | O => []
  | S fuel' =>
    if (f =? 0)%Z then []
    else hex_digits (16 * f / d) ++ hex_fraction fuel' (16 * f mod d) d
  end.

(** [x.toString(16)].  The language fixes the digits of a whole number; for
    a number with a fractional part, where it leaves the number of digits to
    the implementation, this is the exact expansion.  [darkenColor] applies
    it to whole numbers and to [NaN]. *)
Definition Number_toString16 (x : float) : jsstring :=
  match Prim2SF x with
  | S754_nan => lit "NaN"
  | S754_zero _ => lit "0"
  | S754_infinity s => (if s then lit "-" else []) ++ lit "Infinity"
  | S754_finite s m e =>
    (if s then lit "-" else [])
      ++ (if (0 <=? e)%Z then hex_digits (Zpos m * 2 ^ e)
          else hex_digits (Z.shiftr (Zpos m) (- e))
               ++ (if (Zpos m mod 2 ^ (- e) =? 0)%Z then []
                   else lit "." ++ hex_fraction (Z.to_nat (- e)) (Zpos m mod 2 ^ (- e))
                                                (2 ^ (- e))))
  end.

(** [s.padStart(2, '0')]. *)
Definition padStart2 (s : jsstring) : jsstring :=
  List.repeat 48%N (2 - List.length s) ++ s.

(** [darkenColor(hex, percent)]. *)
Definition darkenColor (hex : jsstring) (percent : float) : jsstring :=
  let r := parseInt16 (slice hex 1 3) in
  let g := parseInt16 (slice hex 3 5) in
  let b := parseInt16 (slice hex 5 7) in
  let r := Math_floor (r * (100 - percent) / 100) in
  let g := Math_floor (g * (100 - percent) / 100) in
  let b := Math_floor (b * (100 - percent) / 100) in
  let r := padStart2 (Number_toString16 (Math_min 255 (Math_max 0 r))) in
  let g := padStart2 (Number_toString16 (Math_min 255 (Math_max 0 g))) in
  let b := padStart2 (Number_toString16 (Math_min 255 (Math_max 0 b))) in
  lit "#" ++ r ++ g ++ b.

(** One channel of [darkenColor]: the two digits for the channel value
    [c]. *)
Definition darken_channel (c percent : float) : jsstring :=
  padStart2 (Number_toString16
               (Math_min 255 (Math_max 0 (Math_floor (c * (100 - percent) / 100))))).

(** The channel value [c] darkened by [p] percent, in whole numbers. *)
Definition darker (c p : Z) : Z := (c * (100 - p) / 100)%Z.

(** Two hexadecimal digits, in lower case, for [0 <= n < 256]. *)
Definition hex_pair (n : Z) : jsstring :=
  (if (n <? 16)%Z then lit "0" else []) ++ hex_digits n.

(** The whole numbers from [0] to [n - 1]. *)
Definition below (n : nat) : list Z := map Z.of_nat (seq 0 n).

(** The code units of the hexadecimal digits. *)
Definition hex_code_units : list N :=
  [48; 49; 50; 51; 52; 53; 54; 55; 56; 57; 97; 98; 99; 100; 101; 102;
   65; 66; 67; 68; 69; 70]%N.

(** The value of a channel written with two hexadecimal digits. *)
Definition channel_value (a b : N) : option Z :=
  match hex_value a, hex_value b with
  | Some x, Some y => Some (16 * x + y)%Z
  | _, _ => None
  end.

(** *** The page controller *)

(** The colour themes [VLF_THEMES], by key.  [None] stands for a key that
    the object does not own: reading [theme.p1] raises a [TypeError] then, or
    [darkenColor] does on the [undefined] it is given when the key is
    inherited from [Object.prototype]. *)
Record Theme := mkTheme { theme_p1 : jsstring; theme_p2 : jsstring }.

Definition VLF_THEMES (key : jsstring) : option Theme :=
  if str_eqb key (lit "ocean") then Some (mkTheme (lit "#00b4d8") (lit "#fca311"))
  else if str_eqb key (lit "earth") then Some (mkTheme (lit "#90be6d") (lit "#f9c74f"))
  else if str_eqb key (lit "classic") then Some (mkTheme (lit "#1e90ff") (lit "#dc143c"))
  else None.

(** The colours of [RESISTIVITY_PALETTES], by key; [None] as for the
    themes. *)
Definition RESISTIVITY_PALETTES (key : jsstring) : option (list jsstring) :=
  if str_eqb key (lit "primary")
  then Some [lit "#00b67a"; lit "#0ea5e9"; lit "#f97316"; lit "#8b5cf6"; lit "#ec4899";
             lit "#ef4444"]
  else if str_eqb key (lit "cool")
  then Some [lit "#0077b6"; lit "#48cae4"; lit "#90e0ef"; lit "#00b4d8"; lit "#34a0a4";
             lit "#1f7a8c"]
  else if str_eqb key (lit "warm")
  then Some [lit "#e76f51"; lit "#f4a261"; lit "#e9c46a"; lit "#a71d31"; lit "#d83155";
             lit "#ffb703"]
  else None.

(** The messages of [displayError]. *)
Inductive Message : Type :=
| PasteFirst            (* Please paste or upload your data first! *)
| NoValidVLF            (* No valid VLF data found. ... *)
| NoValidResistivity    (* No valid Resistivity data found. ... *)
| PlottingFailed.       (* An error occurred while plotting: ... *)

(** What the element [chartArea] holds.  The script writes it in two ways:
    [displayError] puts the message there, in a [div] of class
    [error-message]; [clearAll] puts the placeholder [chartPlaceholder] and
    the canvas [resistivityChart] there, whose [style.display] the plotting
    functions set. *)
Inductive ChartArea : Type :=
| ErrorMessage (message : Message)
| PlaceholderAndCanvas (chartPlaceholder_display resistivityChart_display : jsstring).

(** A dataset of the resistivity chart: the measured points of a spacing,
    drawn as a line in a gradient from the base colour, or its calculated
    points, drawn as hollow squares in the base colour. *)
Record ResistivityDataset := mkDataset {
  dataset_calculated : bool;
  dataset_spacing : float;
  dataset_data : list Point;
  dataset_baseColor : jsstring;
  dataset_gradientEnd : option jsstring
}.

(** The chart that [new Chart] is given: its datasets, with their data and
    colours.  The options of the chart are not modelled. *)
Inductive Chart : Type :=
| LineChart (inPhase quadrature : list Point) (karousHjelt : option (list KHPoint))
            (inPhase_gradient quadrature_gradient : jsstring * jsstring)
| ScatterChart (datasets : list ResistivityDataset).

(** The state that the controller reads and writes: the controls of the
    page and the globals of the script ([ui_page]), the file input, the
    global [chart], the content of [chartArea], the [style.display] of
    [statsSection] and the [disabled] flag of [downloadBtn].  The text of the
    statistics cards is not modelled. *)
Record UI := mkUI {
  ui_page : Page;
  fileInput_value : jsstring;
  chart : option Chart;
  chartArea : ChartArea;
  statsSection_display : jsstring;
  downloadBtn_disabled : bool
}.

Definition set_dataInput (value : jsstring) (p : Page) : Page :=
  mkPage (arrayType_value p) value (karousHjeltToggle_checked p) (vlfColorTheme_value p)
         (resistivityColorTheme_value p) (dark_mode p) (currentDataType p)
         (chartAnnotationPluginLoaded p).

(** The outcome of a plotting function: it returns, or it raises a
    [TypeError]; either way with the state it has reached. *)
Inductive outcome : Type :=
| Returned (ui : UI)
| Raised (ui : UI).

(** [displayError(message)]. *)
Definition displayError (message : Message) (ui : UI) : UI :=
  mkUI (ui_page ui) (fileInput_value ui) (chart ui) (ErrorMessage message)
       (lit "none") true.

(** [clearAll(preserveInput)]. *)
Definition clearAll (preserveInput : bool) (ui : UI) : UI :=
  mkUI (if preserveInput then ui_page ui else set_dataInput [] (ui_page ui))
       [] None (PlaceholderAndCanvas (lit "flex") (lit "none")) (lit "none") true.

(** The start of both plotting functions, once there is data: the old
    chart is destroyed, the placeholder is hidden and the canvas is shown.
    [document.getElementById] gives [null] for the placeholder when
    [chartArea] holds a message, and setting its [style] raises a
    [TypeError]. *)
Definition show_canvas (ui : UI) : outcome :=
  let ui := mkUI (ui_page ui) (fileInput_value ui) None (chartArea ui)
                 (statsSection_display ui) (downloadBtn_disabled ui) in
  match chartArea ui with
  | ErrorMessage _ => Raised ui
  | PlaceholderAndCanvas _ _ =>
    Returned (mkUI (ui_page ui) (fileInput_value ui) None
                   (PlaceholderAndCanvas (lit "none") (lit "block"))
                   (statsSection_display ui) (downloadBtn_disabled ui))
  end.

(** The end of both plotting functions: the statistics are shown
    ([displayVLFStats], [displayResistivityStats]) and the chart is made. *)
Definition show_chart (c : Chart) (ui : UI) : UI :=
  mkUI (ui_page ui) (fileInput_value ui) (Some c) (chartArea ui) (lit "grid")
       (downloadBtn_disabled ui).

(** The Karous-Hjelt dataset of [plotVLFData]: there is one when the toggle
    is checked, the annotation plugin is loaded and some value of the filter
    is finite. *)
Definition karousHjelt_dataset (p : Page) (data : list VLFRecord)
  : completion (option (list KHPoint)) :=
  if karousHjeltToggle_checked p && chartAnnotationPluginLoaded p then
    bind (calculateKarousHjelt data) (fun khData =>
      let khPoints := filter Number_isFinite (map kh_y khData) in
      Normal (if Nat.ltb 0 (List.length khPoints) then Some khData else None))
  else Normal None.

(** [plotVLFData(input)]. *)
Definition plotVLFData (ui : UI) (input : jsstring) : outcome :=
  let data := parseVLFData input in
  if Nat.eqb (List.length data) 0 then Returned (displayError NoValidVLF ui)
  else
    let data := sort_by (fun a b => station a - station b) data in
    match show_canvas ui with
    | Raised ui => Raised ui
    | Returned ui =>
      match VLF_THEMES (vlfColorTheme_value (ui_page ui)) with
      | None => Raised ui
      | Some theme =>
        let p1EndColor := darkenColor (theme_p1 theme) 15 in
        let p2EndColor := darkenColor (theme_p2 theme) 15 in
        match karousHjelt_dataset (ui_page ui) data with
        | ThrowTypeError => Raised ui
        | Normal khData =>
          Returned
            (show_chart
               (LineChart (map (fun d => mkPoint (station d) (inPhase d)) data)
                          (map (fun d => mkPoint (station d) (quadrature d)) data)
                          khData
                          (theme_p1 theme, p1EndColor) (theme_p2 theme, p2EndColor))
               ui)
        end
      end
    end.

(** The datasets of the groups of the resistivity chart, from the group of
    index [colorIndex] on: every group has a dataset of measured points, and
    one of calculated points when it has some; the base colour of a group is
    [colorPalette[colorIndex % colorPalette.length]]. *)
Fixpoint resistivity_datasets (colorPalette : list jsstring) (colorIndex : nat)
         (groups : list SeriesGroup) : completion (list ResistivityDataset) :=
  match groups with
  | [] => Normal []
  | g :: groups' =>
    match nth_error colorPalette (colorIndex mod List.length colorPalette) with
    | None => ThrowTypeError
    | Some baseColor =>
      let gradientEndColor := darkenColor baseColor 10 in
      let measured :=
        mkDataset false (group_spacing g) (measuredPoints g) baseColor
                  (Some gradientEndColor) in
      let calculated :=
        if Nat.ltb 0 (List.length (calculatedPoints g))
        then [mkDataset true (group_spacing g) (calculatedPoints g) baseColor None]
        else [] in
      bind (resistivity_datasets colorPalette (S colorIndex) groups')
           (fun rest => Normal (measured :: calculated ++ rest))
    end
  end.

(** [plotResistivityData(input)]. *)
Definition plotResistivityData (ui : UI) (input : jsstring) : outcome :=
  let data := parseResistivityData (ui_page ui) input in
  if Nat.eqb (List.length data) 0 then Returned (displayError NoValidResistivity ui)
  else
    match show_canvas ui with
    | Raised ui => Raised ui
    | Returned ui =>
      match RESISTIVITY_PALETTES (resistivityColorTheme_value (ui_page ui)) with
      | None => Raised ui
      | Some colorPalette =>
        match bind (groupBySpacing data) (resistivity_datasets colorPalette 0) with
        | ThrowTypeError => Raised ui
        | Normal datasets => Returned (show_chart (ScatterChart datasets) ui)
        end
      end
    end.

Definition has_error_message (area : ChartArea) : bool :=
  match area with ErrorMessage _ => true | _ => false end.

(** [plotData()]. *)
Definition plotData (ui : UI) : UI :=
  let input := dataInput_value (ui_page ui) in
  let ui :=
    if has_error_message (chartArea ui)
    then let ui := clearAll true ui in
         mkUI (set_dataInput input (ui_page ui)) (fileInput_value ui) (chart ui)
              (chartArea ui) (statsSection_display ui) (downloadBtn_disabled ui)
    else ui in
  if negb (Boolean_str (trim input)) then displayError PasteFirst ui
  else
    match (if str_eqb (currentDataType (ui_page ui)) (lit "vlf")
           then plotVLFData ui input else plotResistivityData ui input) with
    | Returned ui =>
      mkUI (ui_page ui) (fileInput_value ui) (chart ui) (chartArea ui)
           (statsSection_display ui) false
    | Raised ui => displayError PlottingFailed ui
    end.

(** [downloadChart()], as far as the script decides it: nothing happens
    without a chart; with one, the size of the canvas [resistivityChart] is
    read, which raises a [TypeError] when [chartArea] holds a message instead
    of the canvas; [Normal true] stands for the download that is started
    otherwise. *)
Definition downloadChart (ui : UI) : completion bool :=
  match chart ui with
  | None => Normal false
  | Some _ =>
    match chartArea ui with
    | ErrorMessage _ => ThrowTypeError
    | PlaceholderAndCanvas _ _ => Normal true
    end
  end.

(** The complete callback of [handleFileUpload]: the rows are written to the
    text area and plotted. *)
Definition file_parsed (data : list (list jsstring)) (ui : UI) : UI :=
  plotData (mkUI (set_dataInput (csvText data) (ui_page ui)) (fileInput_value ui) (chart ui)
                 (chartArea ui) (statsSection_display ui) (downloadBtn_disabled ui)).

(** What [plotData] starts from: the state as it is, or cleared when it
    shows a message. *)
Definition plot_start (ui : UI) : UI :=
  if has_error_message (chartArea ui) then clearAll true ui else ui.

(** *** The axes of the VLF chart *)

(** [Math.min(...l)] and [Math.max(...l)]: the arguments are taken from the
    left, from [+Infinity] and from [-Infinity]. *)
Definition Math_min_list (l : list float) : float := fold_left Math_min l infinity.

Definition Math_max_list (l : list float) : float := fold_left Math_max l neg_infinity.

(** The limits [yMin] and [yMax] of the axis [y1] in [plotVLFData]: the least
    and the greatest of the in-phase and quadrature values, [-1] and [1]
    when one of them is not finite, each moved outwards by [0.12] times
    their distance; a distance of [0] is replaced by [Math.abs(yMax) || 1]. *)
Definition y1_limits (data : list VLFRecord) : float * float :=
  let allY := flat_map (fun d => [inPhase d; quadrature d]) data in
  let yMin := Math_min_list allY in
  let yMax := Math_max_list allY in
  let '(yMin, yMax) :=
    if negb (Number_isFinite yMin) || negb (Number_isFinite yMax)
    then (-1, 1) else (yMin, yMax) in
  let range := yMax - yMin in
  let range :=
    if strict_eq range 0
    then (if not_number (Math_abs yMax) then 1 else Math_abs yMax)
    else range in
  let pad := range * 0.12 in
  (yMin - pad, yMax + pad).

(** The limits [khYMin] and [khYMax] of the axis [y2] in [plotVLFData],
    when the Karous-Hjelt dataset is plotted: the least and the greatest of
    the finite values of the filter, each moved outwards by [0.2] times
    their distance. *)
Definition y2_limits (khData : list KHPoint) : option (float * float) :=
  let khPoints := filter Number_isFinite (map kh_y khData) in
  if Nat.ltb 0 (List.length khPoints) then
    let khRange := Math_max_list khPoints - Math_min_list khPoints in
    let khYMin := Math_min_list khPoints - khRange * 0.2 in
    let khYMax := Math_max_list khPoints + khRange * 0.2 in
    Some (khYMin, khYMax)
  else None.

(** *** The statistics of the VLF chart *)

(** The two numbers of the card [Profile Range] in [displayVLFStats]:
    [Math.min(...data.map(d => d.station))] and
    [Math.max(...data.map(d => d.station))]. *)
Definition vlf_profile_range (data : list VLFRecord) : float * float :=
  (Math_min_list (map station data), Math_max_list (map station data)).

(** * Properties *)

(** ** The geometric-factor calculator *)

(** With four positions that pass the presence check, a wenner array gets
    [2 * Math.PI * |p2 - p1|] exactly when [|p2 - p1| > 0]. *)
Lemma wenner_present_positions (p1 p2 p3 p4 : float) :
  not_number p1 || not_number p2 || not_number p3 || not_number p4 = false ->
  calculateGeometricFactor (lit "wenner") [p1; p2; p3; p4] =
  if gt (Math_abs (p2 - p1)) 0 then Some (2 * Math_PI * Math_abs (p2 - p1)) else None.
Proof.
  intros Hpresent. unfold calculateGeometricFactor. rewrite Hpresent. reflexivity.
Qed.

(** C1: on the wenner quadruple [0, 10, 20, 30] the calculator returns
    [null], although [|p2 - p1| = 10 > 0] and the documented value is
    [2 * Math.PI * 10]. *)
Theorem wenner_origin_quadruple_is_null :
  calculateGeometricFactor (lit "wenner") [0; 10; 20; 30] = None
  /\ gt (Math_abs (10 - 0)) 0 = true
  /\ 2 * Math_PI * Math_abs (10 - 0) = 0x1.f6a7a2955385ep+5.
Proof. repeat split; vm_compute; reflexivity. Qed.

(** C9: whatever the array type, the calculator returns [null] as soon as
    one of the four positions is [0]. *)
Theorem zero_position_is_null (arrayType : jsstring) (p1 p2 p3 p4 : float) :
  strict_eq p1 0 || strict_eq p2 0 || strict_eq p3 0 || strict_eq p4 0 = true ->
  calculateGeometricFactor arrayType [p1; p2; p3; p4] = None.
Proof.
  intros Hzero. unfold calculateGeometricFactor, not_number.
  unfold strict_eq in Hzero.
  repeat (apply orb_true_iff in Hzero; destruct Hzero as [Hzero | Hzero]);
    rewrite Hzero; simpl; rewrite ?orb_true_r; reflexivity.
Qed.

Lemma zero_position_is_null_witness :
  calculateGeometricFactor (lit "wenner") [0; 10; 20; 30] = None.
Proof. apply (zero_position_is_null (lit "wenner") 0 10 20 30). reflexivity. Defined.

(** ** The Karous-Hjelt filter *)

Section KarousHjelt.

Local Open Scope nat_scope.

Lemma kh_body_at (pre : list VLFRecord) (a b : VLFRecord) (l : list VLFRecord)
      (khData : list KHPoint) :
  kh_body (pre ++ a :: b :: l) khData (List.length pre) =
  Normal (khData ++ if coincident a b then [] else [kh_point a b]).
Proof.
  unfold kh_body.
  rewrite nth_error_app2, Nat.sub_diag by lia. simpl.
  replace (List.length pre + 1) with (List.length (pre ++ [a])) by (rewrite length_app; simpl; lia).
  replace (pre ++ a :: b :: l) with ((pre ++ [a]) ++ b :: l) by (rewrite <- app_assoc; reflexivity).
  rewrite nth_error_app2, Nat.sub_diag by lia. simpl.
  unfold strict_ne, coincident, kh_point.
  destruct (station b - station a =? 0)%float; simpl.
  - rewrite app_nil_r. reflexivity.
  - reflexivity.
Qed.

Lemma kh_pairs_cons (a b : VLFRecord) (l : list VLFRecord) :
  kh_pairs (a :: b :: l) =
  (if coincident a b then [] else [kh_point a b]) ++ kh_pairs (b :: l).
Proof. reflexivity. Qed.

Lemma coincident_pairs_cons (a b : VLFRecord) (l : list VLFRecord) :
  coincident_pairs (a :: b :: l) =
  (if coincident a b then 1 else 0) + coincident_pairs (b :: l).
Proof. reflexivity. Qed.

(** The loop over the indices is the traversal of the adjacent pairs. *)
Lemma kh_loop_pairs (l pre : list VLFRecord) (a : VLFRecord) (khData : list KHPoint) :
  kh_loop (pre ++ a :: l) (List.length l) (List.length pre) khData =
  Normal (khData ++ kh_pairs (a :: l)).
Proof.
  revert pre a khData. induction l as [| b l IH]; intros pre a khData.
  - simpl. rewrite app_nil_r. reflexivity.
  - cbn [List.length kh_loop]. rewrite kh_body_at. cbn [bind].
    replace (pre ++ a :: b :: l) with ((pre ++ [a]) ++ b :: l)
      by (rewrite <- app_assoc; reflexivity).
    replace (S (List.length pre)) with (List.length (pre ++ [a]))
      by (rewrite length_app; simpl; lia).
    rewrite IH, kh_pairs_cons, <- app_assoc. reflexivity.
Qed.

Lemma calculateKarousHjelt_pairs (vlfData : list VLFRecord) :
  calculateKarousHjelt vlfData = Normal (kh_pairs vlfData).
Proof.
  unfold calculateKarousHjelt.
  destruct vlfData as [| a [| b l]]; try reflexivity.
  replace (Nat.ltb (List.length (a :: b :: l)) 2) with false by reflexivity.
  replace (List.length (a :: b :: l) - 1) with (List.length (b :: l)) by (simpl; lia).
  apply (kh_loop_pairs (b :: l) [] a []).
Qed.

Lemma kh_pairs_length (l : list VLFRecord) :
  List.length (kh_pairs l) + coincident_pairs l = List.length l - 1.
Proof.
  induction l as [| a [| b l] IH]; try reflexivity.
  rewrite kh_pairs_cons, coincident_pairs_cons, length_app.
  cbn [List.length] in *.
  destruct (coincident a b); cbn [List.length]; lia.
Qed.

(** C5: on at least two records the filter returns, in input order, the
    point of every adjacent pair whose stations differ, and the output has
    [N - 1] points less the pairs with coincident stations. *)
Theorem karous_hjelt_adjacent_pairs (vlfData : list VLFRecord) :
  2 <= List.length vlfData ->
  calculateKarousHjelt vlfData = Normal (kh_pairs vlfData)
  /\ List.length (kh_pairs vlfData) = List.length vlfData - 1 - coincident_pairs vlfData.
Proof.
  intros _. split.
  - apply calculateKarousHjelt_pairs.
  - pose proof (kh_pairs_length vlfData). lia.
Qed.

Lemma karous_hjelt_adjacent_pairs_witness :
  calculateKarousHjelt [mkVLF 0 45.2 (-12.5); mkVLF 10 52.3 (-15.8); mkVLF 10 48.7 (-18.2)]
  = Normal [mkKH 5 0x1.6b851eb851eb3p-1].
Proof.
  destruct (karous_hjelt_adjacent_pairs
              [mkVLF 0 45.2 (-12.5); mkVLF 10 52.3 (-15.8); mkVLF 10 48.7 (-18.2)])
    as [Hout _].
  - simpl. lia.
  - rewrite Hout. vm_compute. reflexivity.
Defined.

(** C8: on fewer than two records the filter returns the empty sequence
    and raises nothing. *)
Theorem karous_hjelt_short_input (vlfData : list VLFRecord) :
  List.length vlfData < 2 ->
  calculateKarousHjelt vlfData = Normal [].
Proof.
  intros Hshort. unfold calculateKarousHjelt.
  apply Nat.ltb_lt in Hshort. rewrite Hshort. reflexivity.
Qed.

Lemma karous_hjelt_short_input_witness :
  calculateKarousHjelt [] = Normal []
  /\ calculateKarousHjelt [mkVLF 0 45.2 (-12.5)] = Normal [].
Proof.
  split; apply karous_hjelt_short_input; simpl; lia.
Defined.

Lemma kh_pairs_quadrature (l1 l2 : list VLFRecord) :
  Forall2 same_station_inPhase l1 l2 -> kh_pairs l1 = kh_pairs l2.
Proof.
  intros Hagree. induction Hagree as [| a a' l l' [Hs Hi] Hrest IH]; [reflexivity |].
  destruct Hrest as [| b b' m m' [Hs' Hi'] Hrest]; [reflexivity |].
  rewrite !kh_pairs_cons, IH.
  unfold coincident, kh_point. rewrite Hs, Hi, Hs', Hi'. reflexivity.
Qed.

(** C10: two inputs of the same length that agree, position by position,
    on station and in-phase value give the same filter output, whatever
    their quadrature values. *)
Theorem karous_hjelt_ignores_quadrature (l1 l2 : list VLFRecord) :
  Forall2 same_station_inPhase l1 l2 ->
  calculateKarousHjelt l1 = calculateKarousHjelt l2.
Proof.
  intros Hagree. rewrite !calculateKarousHjelt_pairs.
  f_equal. apply kh_pairs_quadrature, Hagree.
Qed.

Lemma karous_hjelt_ignores_quadrature_witness :
  calculateKarousHjelt [mkVLF 0 45.2 (-12.5); mkVLF 10 52.3 (-15.8)]
  = calculateKarousHjelt [mkVLF 0 45.2 7; mkVLF 10 52.3 nan].
Proof.
  apply karous_hjelt_ignores_quadrature.
  repeat constructor.
Defined.

End KarousHjelt.

(** ** Facts on binary64 arithmetic *)

Module FloatFacts.

Lemma SFeqb_refl_not_nan (x : spec_float) :
  SFeqb x x = match x with S754_nan => false | _ => true end.
Proof.
  unfold SFeqb, SFcompare.
  destruct x as [[|]|[|]| |[|] m e]; try reflexivity;
    rewrite Z.compare_refl, Pos.compare_cont_refl; reflexivity.
Qed.

Lemma is_nan_Prim2SF (x : float) :
  is_nan x = match Prim2SF x with S754_nan => true | _ => false end.
Proof.
  unfold is_nan. rewrite eqb_spec, SFeqb_refl_not_nan.
  destruct (Prim2SF x); reflexivity.
Qed.

Lemma Prim2SF_infinity : Prim2SF infinity = S754_infinity false.
Proof. reflexivity. Qed.

Lemma Prim2SF_zero : Prim2SF 0 = S754_zero false.
Proof. reflexivity. Qed.

Lemma Prim2SF_two : Prim2SF 2 = S754_finite false 4503599627370496 (-51).
Proof. reflexivity. Qed.

Lemma is_infinity_Prim2SF (x : float) :
  is_infinity x = match Prim2SF x with S754_infinity _ => true | _ => false end.
Proof.
  unfold is_infinity. rewrite eqb_spec, abs_spec, Prim2SF_infinity.
  destruct (Prim2SF x) as [[|]|[|]| |[|] m e]; reflexivity.
Qed.

Lemma is_finite_Prim2SF (x : float) :
  is_finite x =
  match Prim2SF x with S754_zero _ | S754_finite _ _ _ => true | _ => false end.
Proof.
  unfold is_finite. rewrite is_nan_Prim2SF, is_infinity_Prim2SF.
  destruct (Prim2SF x); reflexivity.
Qed.

(** Shifting a nonnegative mantissa to the right leaves it nonnegative. *)
Lemma shr_1_nonneg (mrs : shr_record) : (0 <= shr_m mrs)%Z -> (0 <= shr_m (shr_1 mrs))%Z.
Proof.
  destruct mrs as [m r s]. simpl.
  destruct m as [| [p | p |] | p]; simpl; lia.
Qed.

Lemma iter_shr_1_nonneg (p : positive) (mrs : shr_record) :
  (0 <= shr_m mrs)%Z -> (0 <= shr_m (iter_pos shr_1 p mrs))%Z.
Proof.
  revert mrs. induction p as [p IH | p IH |]; intros mrs Hm; simpl.
  - apply IH, IH, shr_1_nonneg, Hm.
  - apply IH, IH, Hm.
  - apply shr_1_nonneg, Hm.
Qed.

Lemma shr_fexp_nonneg (m e : Z) (l : location) :
  (0 <= m)%Z -> (0 <= shr_m (fst (shr_fexp prec emax m e l)))%Z.
Proof.
  intros Hm. unfold shr_fexp, shr.
  assert (Hrec : (0 <= shr_m (shr_record_of_loc m l))%Z)
    by (destruct l as [| []]; exact Hm).
  destruct (fexp prec emax (Zdigits2 m + e) - e)%Z; simpl; try exact Hrec.
  apply iter_shr_1_nonneg, Hrec.
Qed.

Lemma round_nearest_even_nonneg (m : Z) (l : location) :
  (0 <= m)%Z -> (0 <= round_nearest_even m l)%Z.
Proof.
  intros Hm. destruct l as [| []]; simpl; try lia.
  destruct (Z.even m); lia.
Qed.

(** Rounding a nonnegative mantissa never gives [NaN]. *)
Lemma binary_round_aux_not_nan (s : bool) (m e : Z) (l : location) :
  (0 <= m)%Z -> binary_round_aux prec emax s m e l <> S754_nan.
Proof.
  intros Hm. unfold binary_round_aux.
  pose proof (shr_fexp_nonneg e l Hm) as H1.
  destruct (shr_fexp prec emax m e l) as [mrs' e'] eqn:E1. simpl in H1.
  pose proof (shr_fexp_nonneg e' loc_Exact
                (round_nearest_even_nonneg (loc_of_shr_record mrs') H1)) as H2.
  destruct (shr_fexp prec emax (round_nearest_even (shr_m mrs') (loc_of_shr_record mrs'))
                     e' loc_Exact) as [mrs'' e''] eqn:E2.
  simpl in H2.
  destruct (shr_m mrs'') as [| p | p]; try discriminate; try lia.
  destruct (Z.leb e'' (emax - prec)); discriminate.
Qed.

Lemma binary_normalize_not_nan (m e : Z) (szero : bool) :
  binary_normalize prec emax m e szero <> S754_nan.
Proof.
  unfold binary_normalize, binary_round.
  destruct m as [| p | p]; try discriminate.
  - destruct (shl_align p e _) as [mz ez]. apply binary_round_aux_not_nan. lia.
  - destruct (shl_align p e _) as [mz ez]. apply binary_round_aux_not_nan. lia.
Qed.

(** The difference of a number that is not [NaN] and a finite number is not
    [NaN]. *)
Lemma sub_finite_not_nan (x y : float) :
  is_nan x = false -> is_finite y = true -> is_nan (x - y) = false.
Proof.
  rewrite !is_nan_Prim2SF, is_finite_Prim2SF, sub_spec. unfold SF64sub.
  destruct (Prim2SF x) as [sx|sx| |sx mx ex], (Prim2SF y) as [sy|sy| |sy my ey];
    try discriminate; intros _ _; simpl; try reflexivity.
  - destruct sx, sy; reflexivity.
  - match goal with |- match ?b with _ => _ end = _ =>
      pose proof (binary_normalize_not_nan
        (cond_Zopp sx (Zpos (fst (shl_align mx ex (Z.min ex ey))))
         - cond_Zopp sy (Zpos (fst (shl_align my ey (Z.min ex ey)))))%Z
        (Z.min ex ey) false) as Hn
    end.
    unfold SFsub. 
    destruct (binary_normalize _ _ _ _ _); try reflexivity. contradiction.
Qed.

(** A finite sum has finite terms. *)
Lemma add_finite_l (x y : float) : is_finite (x + y) = true -> is_finite x = true.
Proof.
  rewrite !is_finite_Prim2SF, add_spec. unfold SF64add, SFadd.
  destruct (Prim2SF x) as [sx|sx| |sx mx ex], (Prim2SF y) as [sy|sy| |sy my ey];
    try reflexivity; try discriminate.
  destruct sx, sy; discriminate.
Qed.

(** A finite half comes from a finite number. *)
Lemma half_finite (x : float) : is_finite (x / 2) = true -> is_finite x = true.
Proof.
  rewrite !is_finite_Prim2SF, div_spec, Prim2SF_two. unfold SF64div, SFdiv.
  destruct (Prim2SF x) as [sx|sx| |sx mx ex]; try reflexivity; try discriminate.
Qed.

(** A number that is neither [NaN] nor [<= 0] has an absolute value [> 0]. *)
Lemma abs_positive (x : float) :
  is_nan x = false -> (abs x <=? 0) = false -> (0 <? abs x) = true.
Proof.
  rewrite is_nan_Prim2SF, leb_spec, ltb_spec, abs_spec, Prim2SF_zero.
  destruct (Prim2SF x) as [sx|sx| |sx mx ex]; simpl; try discriminate; reflexivity.
Qed.

End FloatFacts.

(** ** The order of binary64 numbers *)

Module FloatOrder.

Import FloatFacts.
Local Open Scope Z_scope.

Lemma fexp_eq (e : Z) : fexp prec emax e = Z.max (e - 53) (-1074).
Proof. reflexivity. Qed.

Lemma digits2_pos_bounds (p : positive) :
  2 ^ (Zpos (digits2_pos p) - 1) <= Zpos p < 2 ^ Zpos (digits2_pos p).
Proof.
  induction p as [p IH | p IH |]; cbn [digits2_pos].
  - rewrite Pos2Z.inj_succ.
    replace (Z.succ (Zpos (digits2_pos p)) - 1) with (Z.succ (Zpos (digits2_pos p) - 1)) by lia.
    rewrite !Z.pow_succ_r by lia. lia.
  - rewrite Pos2Z.inj_succ.
    replace (Z.succ (Zpos (digits2_pos p)) - 1) with (Z.succ (Zpos (digits2_pos p) - 1)) by lia.
    rewrite !Z.pow_succ_r by lia. lia.
  - simpl. lia.
Qed.

(** What validity says of a mantissa and its exponent. *)
Lemma valid_finite (s : bool) (m : positive) (e : Z) :
  valid_binary (S754_finite s m e) = true ->
  -1074 <= e <= 971 /\ Zpos m < 2 ^ 53 /\ (-1074 < e -> 2 ^ 52 <= Zpos m).
Proof.
  unfold SpecFloat.valid_binary, bounded, canonical_mantissa. rewrite fexp_eq.
  intros H. apply andb_true_iff in H. destruct H as [Hc Hb].
  apply Z.eqb_eq in Hc. apply Z.leb_le in Hb.
  change (emax - prec) with 971 in Hb.
  pose proof (digits2_pos_bounds m) as [Hlo Hhi].
  assert (Hd : Zpos (digits2_pos m) <= 53) by lia.
  split; [clear Hlo Hhi; lia |]. split.
  - apply Z.lt_le_trans with (1 := Hhi). apply Z.pow_le_mono_r; lia.
  - intros He. assert (Hd53 : Zpos (digits2_pos m) = 53) by (clear Hlo Hhi; lia).
    rewrite Hd53 in Hlo. exact Hlo.
Qed.

Lemma scaled_sign (s : bool) (m : positive) (e : Z) :
  -1074 <= e -> if s then scaled s m e < 0 else 0 < scaled s m e.
Proof.
  intros He. unfold scaled.
  assert (0 < 2 ^ (e + 1074)) by (apply Z.pow_pos_nonneg; lia).
  set (A := 2 ^ (e + 1074)) in *. destruct s; cbn [cond_Zopp]; nia.
Qed.

Lemma scaled_lt_exponent (m1 m2 : positive) (e1 e2 : Z) :
  valid_binary (S754_finite false m1 e1) = true ->
  valid_binary (S754_finite false m2 e2) = true ->
  e1 < e2 ->
  Zpos m1 * 2 ^ (e1 + 1074) < Zpos m2 * 2 ^ (e2 + 1074).
Proof.
  intros H1 H2 Hlt.
  apply valid_finite in H1, H2.
  destruct H1 as [He1 [Hm1 _]], H2 as [He2 [_ Hm2]].
  specialize (Hm2 ltac:(lia)).
  replace (e2 + 1074) with ((e2 - e1) + (e1 + 1074)) by lia.
  rewrite (Z.pow_add_r 2 (e2 - e1) (e1 + 1074)) by lia.
  assert (HA : 0 < 2 ^ (e1 + 1074)) by (apply Z.pow_pos_nonneg; lia).
  assert (HB : 2 ^ 1 <= 2 ^ (e2 - e1)) by (apply Z.pow_le_mono_r; lia).
  change (2 ^ 1) with 2 in HB. change (2 ^ 53) with (2 * 2 ^ 52) in Hm1.
  generalize dependent (2 ^ (e1 + 1074)). generalize dependent (2 ^ (e2 - e1)).
  generalize dependent (2 ^ 52). clear. intros P Hm1 Hm2 B HB A HA.
  assert (H1 : Zpos m1 * A < (2 * P) * A) by (apply Z.mul_lt_mono_pos_r; lia).
  assert (H2 : 2 * P <= Zpos m2 * B).
  { transitivity (B * P); [apply Z.mul_le_mono_nonneg_r; lia |].
    rewrite (Z.mul_comm B P). apply Z.mul_le_mono_nonneg; lia. }
  assert (H3 : (2 * P) * A <= (Zpos m2 * B) * A) by (apply Z.mul_le_mono_nonneg_r; lia).
  rewrite Z.mul_assoc. lia.
Qed.

(** The comparison of two valid finite numbers is the comparison of their
    values. *)
Lemma SFcompare_finite (s1 s2 : bool) (m1 m2 : positive) (e1 e2 : Z) :
  valid_binary (S754_finite s1 m1 e1) = true ->
  valid_binary (S754_finite s2 m2 e2) = true ->
  SFcompare (S754_finite s1 m1 e1) (S754_finite s2 m2 e2)
  = Some (scaled s1 m1 e1 ?= scaled s2 m2 e2).
Proof.
  intros H1 H2.
  assert (He1 : -1074 <= e1) by (apply valid_finite in H1; lia).
  assert (He2 : -1074 <= e2) by (apply valid_finite in H2; lia).
  pose proof (scaled_sign s1 m1 He1) as S1.
  pose proof (scaled_sign s2 m2 He2) as S2.
  cbn [SFcompare]. f_equal.
  destruct s1, s2.
  - (* both negative *)
    unfold scaled in *. cbn [cond_Zopp] in *.
    destruct (e1 ?= e2) eqn:He.
    + apply Z.compare_eq in He. subst e2.
      rewrite Pos.compare_cont_spec. cbn [Pos.switch_Eq].
      assert (0 < 2 ^ (e1 + 1074)) by (apply Z.pow_pos_nonneg; lia).
      change (Pos.compare m1 m2) with (Zpos m1 ?= Zpos m2).
      destruct (Zpos m1 ?= Zpos m2) eqn:Hm; cbn [CompOpp]; symmetry.
      * apply Z.compare_eq in Hm. rewrite Hm. apply Z.compare_refl.
      * apply Z.compare_gt_iff. rewrite Z.compare_lt_iff in Hm. nia.
      * apply Z.compare_lt_iff. rewrite Z.compare_gt_iff in Hm. nia.
    + rewrite Z.compare_lt_iff in He. symmetry. apply Z.compare_gt_iff.
      pose proof (@scaled_lt_exponent m1 m2 e1 e2 H1 H2 He). lia.
    + rewrite Z.compare_gt_iff in He. symmetry. apply Z.compare_lt_iff.
      pose proof (@scaled_lt_exponent m2 m1 e2 e1 H2 H1 He). lia.
  - symmetry. apply Z.compare_lt_iff. lia.
  - symmetry. apply Z.compare_gt_iff. lia.
  - unfold scaled in *. cbn [cond_Zopp] in *.
    destruct (e1 ?= e2) eqn:He.
    + apply Z.compare_eq in He. subst e2.
      rewrite Pos.compare_cont_spec. cbn [Pos.switch_Eq].
      assert (0 < 2 ^ (e1 + 1074)) by (apply Z.pow_pos_nonneg; lia).
      change (Pos.compare m1 m2) with (Zpos m1 ?= Zpos m2).
      destruct (Zpos m1 ?= Zpos m2) eqn:Hm; symmetry.
      * apply Z.compare_eq in Hm. rewrite Hm. apply Z.compare_refl.
      * apply Z.compare_lt_iff. rewrite Z.compare_lt_iff in Hm. nia.
      * apply Z.compare_gt_iff. rewrite Z.compare_gt_iff in Hm. nia.
    + rewrite Z.compare_lt_iff in He. symmetry. apply Z.compare_lt_iff.
      exact (@scaled_lt_exponent m1 m2 e1 e2 H1 H2 He).
    + rewrite Z.compare_gt_iff in He. symmetry. apply Z.compare_gt_iff.
      exact (@scaled_lt_exponent m2 m1 e2 e1 H2 H1 He).
Qed.

(** *** Rounding a positive mantissa *)

Lemma shr_1_m (mrs : shr_record) :
  0 <= shr_m mrs -> shr_m (shr_1 mrs) = shr_m mrs / 2.
Proof.
  destruct mrs as [m r s]. cbn [shr_m]. intros Hm.
  rewrite <- Z.div2_div.
  destruct m as [| [p | p |] | p]; try reflexivity. lia.
Qed.

Lemma iter_shr_1_m (p : positive) (mrs : shr_record) :
  0 <= shr_m mrs -> shr_m (iter_pos shr_1 p mrs) = shr_m mrs / 2 ^ Zpos p.
Proof.
  revert mrs. induction p as [p IH | p IH |]; intros mrs Hm; cbn [iter_pos].
  - assert (H1 : 0 <= shr_m (shr_1 mrs)) by (apply shr_1_nonneg, Hm).
    assert (H2 : 0 <= shr_m (iter_pos shr_1 p (shr_1 mrs)))
      by (apply iter_shr_1_nonneg, H1).
    rewrite (IH _ H2), (IH _ H1), (shr_1_m _ Hm).
    assert (Hp : 0 < 2 ^ Zpos p) by (apply Z.pow_pos_nonneg; lia).
    rewrite !Z.div_div by lia. f_equal.
    rewrite (Pos2Z.inj_xI p).
    replace (2 * Zpos p + 1) with (1 + Zpos p + Zpos p) by lia.
    rewrite !Z.pow_add_r by lia. change (2 ^ 1) with 2. ring.
  - assert (H2 : 0 <= shr_m (iter_pos shr_1 p mrs)) by (apply iter_shr_1_nonneg, Hm).
    rewrite (IH _ H2), (IH _ Hm).
    assert (Hp : 0 < 2 ^ Zpos p) by (apply Z.pow_pos_nonneg; lia).
    rewrite Z.div_div by lia. f_equal.
    rewrite (Pos2Z.inj_xO p).
    replace (2 * Zpos p) with (Zpos p + Zpos p) by lia.
    rewrite Z.pow_add_r by lia. reflexivity.
  - apply shr_1_m, Hm.
Qed.

Lemma shr_record_of_loc_m (m : Z) (l : location) : shr_m (shr_record_of_loc m l) = m.
Proof. destruct l as [| []]; reflexivity. Qed.

(** The first shift of a rounding keeps a positive mantissa positive. *)
Lemma shr_fexp_pos (m e : Z) (l : location) :
  0 < m -> -1074 <= e ->
  0 < shr_m (fst (shr_fexp prec emax m e l)) /\ -1074 <= snd (shr_fexp prec emax m e l).
Proof.
  intros Hm He. unfold shr_fexp, shr. rewrite fexp_eq.
  destruct m as [| q | q]; try lia. cbn [Zdigits2].
  pose proof (digits2_pos_bounds q) as [Hlo _].
  destruct (Z.max (Zpos (digits2_pos q) + e - 53) (-1074) - e) as [| p | p] eqn:Hn;
    cbn [fst snd]; rewrite ?shr_record_of_loc_m; try lia.
  split; [| lia].
  rewrite iter_shr_1_m by (rewrite shr_record_of_loc_m; lia).
  rewrite shr_record_of_loc_m.
  apply Z.div_str_pos. split; [apply Z.pow_pos_nonneg; lia |].
  apply Z.le_trans with (2 := Hlo). apply Z.pow_le_mono_r; lia.
Qed.

Lemma binary_round_aux_nonzero (s : bool) (m e : Z) (l : location) :
  0 < m -> -1074 <= e -> nonzero_of_sign s (binary_round_aux prec emax s m e l).
Proof.
  intros Hm He. unfold binary_round_aux.
  pose proof (@shr_fexp_pos m e l Hm He) as [H1 He1].
  destruct (shr_fexp prec emax m e l) as [mrs' e']. cbn [fst snd] in H1, He1.
  assert (Hr : 0 < round_nearest_even (shr_m mrs') (loc_of_shr_record mrs')).
  { destruct (loc_of_shr_record mrs') as [| []]; cbn [round_nearest_even]; try lia.
    destruct (Z.even (shr_m mrs')); lia. }
  pose proof (@shr_fexp_pos _ e' loc_Exact Hr He1) as [H2 _].
  destruct (shr_fexp prec emax _ e' loc_Exact) as [mrs'' e'']. cbn [fst] in H2.
  destruct (shr_m mrs'') as [| p | p]; try lia.
  destruct (e'' <=? emax - prec); reflexivity.
Qed.

Lemma binary_round_nonzero (s : bool) (p : positive) (e : Z) :
  -1074 <= e -> nonzero_of_sign s (binary_round prec emax s p e).
Proof.
  intros He. unfold binary_round, shl_align. rewrite fexp_eq.
  destruct (Z.max (Zpos (digits2_pos p) + e - 53) (-1074) - e) eqn:Hn;
    apply binary_round_aux_nonzero; lia.
Qed.

Lemma shl_align_fst (m : positive) (e e' : Z) :
  e' <= e -> Zpos (fst (shl_align m e e')) = Zpos m * 2 ^ (e - e').
Proof.
  intros Hle. unfold shl_align.
  destruct (e' - e) as [| d | d] eqn:Hd; cbn [fst]; try lia.
  - replace (e - e') with 0 by lia. lia.
  - replace (e - e') with (Zpos d) by lia.
    clear. induction d as [| d IH] using Pos.peano_ind.
    + change (Zpos m~0 = Zpos m * 2). lia.
    + rewrite Pos.iter_succ, Pos2Z.inj_xO, IH, Pos2Z.inj_succ, Z.pow_succ_r by lia. lia.
Qed.

(** *** The sign of a difference *)

Lemma SFsub_sign_finite (sx sy : bool) (mx my : positive) (ex ey : Z) :
  valid_binary (S754_finite sx mx ex) = true ->
  valid_binary (S754_finite sy my ey) = true ->
  SFltb SFzero (SF64sub (S754_finite sx mx ex) (S754_finite sy my ey))
  = SFltb (S754_finite sy my ey) (S754_finite sx mx ex).
Proof.
  intros Hx Hy. unfold SFltb at 2. rewrite (@SFcompare_finite sy sx my mx ey ex Hy Hx).
  assert (Hex : -1074 <= ex) by (apply valid_finite in Hx; lia).
  assert (Hey : -1074 <= ey) by (apply valid_finite in Hy; lia).
  unfold SF64sub, SFsub.
  rewrite !shl_align_fst by lia.
  set (ez := Z.min ex ey).
  set (D := cond_Zopp sx (Zpos mx * 2 ^ (ex - ez)) - cond_Zopp sy (Zpos my * 2 ^ (ey - ez))).
  assert (HD : D * 2 ^ (ez + 1074) = scaled sx mx ex - scaled sy my ey).
  { unfold D, scaled.
    replace (ex + 1074) with ((ex - ez) + (ez + 1074)) by lia.
    replace (ey + 1074) with ((ey - ez) + (ez + 1074)) by lia.
    rewrite !(Z.pow_add_r 2 _ (ez + 1074)) by lia.
    destruct sx, sy; cbn [cond_Zopp]; ring. }
  assert (Hpow : 0 < 2 ^ (ez + 1074)) by (apply Z.pow_pos_nonneg; lia).
  unfold binary_normalize.
  destruct D as [| p | p].
  - assert (Heq : scaled sy my ey = scaled sx mx ex) by lia.
    rewrite Heq, Z.compare_refl. reflexivity.
  - assert (Hlt : scaled sy my ey < scaled sx mx ex) by nia.
    apply Z.compare_lt_iff in Hlt. rewrite Hlt.
    pose proof (@binary_round_nonzero false p ez ltac:(lia)) as Hnz.
    destruct (binary_round prec emax false p ez) as [| [|] | | [|] ? ?];
      cbn [nonzero_of_sign] in Hnz; try contradiction; try discriminate; reflexivity.
  - assert (Hgt : scaled sx mx ex < scaled sy my ey) by nia.
    apply Z.compare_gt_iff in Hgt. rewrite Hgt.
    pose proof (@binary_round_nonzero true p ez ltac:(lia)) as Hnz.
    destruct (binary_round prec emax true p ez) as [| [|] | | [|] ? ?];
      cbn [nonzero_of_sign] in Hnz; try contradiction; try discriminate; reflexivity.
Qed.

Lemma SFsub_sign (x y : spec_float) :
  valid_binary x = true -> valid_binary y = true ->
  x <> S754_nan -> y <> S754_nan ->
  SFltb SFzero (SF64sub x y) = SFltb y x.
Proof.
  intros Hx Hy Hnx Hny.
  destruct x as [sx | sx | | sx mx ex], y as [sy | sy | | sy my ey];
    try congruence;
    try (apply SFsub_sign_finite; assumption);
    try (destruct sx, sy; reflexivity);
    try (destruct sx; reflexivity);
    try (destruct sy; reflexivity).
Qed.

(** The comparator [a - b] says [> 0] exactly when [b < a]. *)
Lemma sub_gt_zero (x y : float) :
  is_nan x = false -> is_nan y = false -> gt (x - y) 0 = (y <? x)%float.
Proof.
  intros Hx Hy. unfold gt. rewrite !ltb_spec, sub_spec, Prim2SF_zero.
  rewrite is_nan_Prim2SF in Hx, Hy.
  apply SFsub_sign; try apply Prim2SF_valid.
  - destruct (Prim2SF x); congruence.
  - destruct (Prim2SF y); congruence.
Qed.

(** *** Numbers on the integer line

    A number that is not [NaN] has a rank: its value in units of [2^-1074],
    and a bound beyond every finite value for an infinity.  The comparisons
    of numbers are the comparisons of their ranks. *)

Lemma scaled_bound (s : bool) (m : positive) (e : Z) :
  valid_binary (S754_finite s m e) = true ->
  - beyond < scaled s m e < beyond.
Proof.
  intros Hv. apply valid_finite in Hv. destruct Hv as [He [Hm _]].
  assert (Hpow : 0 < 2 ^ (e + 1074) <= 2 ^ 2045).
  { split; [apply Z.pow_pos_nonneg; lia | apply Z.pow_le_mono_r; lia]. }
  assert (Hprod : Zpos m * 2 ^ (e + 1074) < 2 ^ 53 * 2 ^ 2045).
  { apply Z.le_lt_trans with (Zpos m * 2 ^ 2045).
    - apply Z.mul_le_mono_nonneg_l; lia.
    - apply Z.mul_lt_mono_pos_r; lia. }
  assert (Hbig : 2 ^ 53 * 2 ^ 2045 <= beyond).
  { unfold beyond. rewrite <- Z.pow_add_r by lia. apply Z.pow_le_mono_r; lia. }
  assert (Hpos : 0 < Zpos m * 2 ^ (e + 1074)) by (apply Z.mul_pos_pos; lia).
  unfold scaled.
  generalize dependent (Zpos m * 2 ^ (e + 1074)). generalize dependent (2 ^ 53 * 2 ^ 2045).
  clear. intros B V HV HB HV0. destruct s; cbn [cond_Zopp]; lia.
Qed.

Lemma SFcompare_rank (x y : spec_float) :
  valid_binary x = true -> valid_binary y = true ->
  x <> S754_nan -> y <> S754_nan ->
  SFcompare x y = Some (SFrank x ?= SFrank y).
Proof.
  intros Hx Hy Hnx Hny.
  assert (Hbig : 0 < beyond) by reflexivity.
  destruct x as [sx | sx | | sx mx ex], y as [sy | sy | | sy my ey];
    try congruence; cbn [SFrank SFcompare];
    try (apply SFcompare_finite; assumption);
    repeat match goal with
           | H : valid_binary (S754_finite ?s ?m ?e) = true |- _ =>
             pose proof (@scaled_bound _ _ _ H);
             let He := fresh "He" in
             assert (He : -1074 <= e) by (apply valid_finite in H; lia);
             pose proof (@scaled_sign s m e He);
             clear H
           end;
    f_equal; symmetry;
    repeat match goal with s : bool |- _ => destruct s end; cbn [cond_Zopp] in *;
    first [ apply Z.compare_refl
          | apply Z.compare_lt_iff; lia
          | apply Z.compare_gt_iff; lia ].
Qed.

Lemma not_nan_spec (x : float) : is_nan x = false -> Prim2SF x <> S754_nan.
Proof. rewrite is_nan_Prim2SF. destruct (Prim2SF x); congruence. Qed.

Lemma ltb_rank (x y : float) :
  is_nan x = false -> is_nan y = false -> (x <? y)%float = (rank x <? rank y).
Proof.
  intros Hx Hy. rewrite ltb_spec. unfold SFltb, rank.
  rewrite SFcompare_rank by (apply Prim2SF_valid || apply not_nan_spec; assumption).
  unfold Z.ltb. reflexivity.
Qed.

Lemma leb_rank (x y : float) :
  is_nan x = false -> is_nan y = false -> (x <=? y)%float = (rank x <=? rank y).
Proof.
  intros Hx Hy. rewrite leb_spec. unfold SFleb, rank.
  rewrite SFcompare_rank by (apply Prim2SF_valid || apply not_nan_spec; assumption).
  unfold Z.leb. destruct (SFrank (Prim2SF x) ?= SFrank (Prim2SF y)); reflexivity.
Qed.

(** Two numbers of the same rank are the same number, or the two zeros. *)
Lemma rank_eq (x y : float) :
  is_nan x = false -> is_nan y = false -> rank x = rank y ->
  x = y \/ (exists s s', Prim2SF x = S754_zero s /\ Prim2SF y = S754_zero s').
Proof.
  intros Hx Hy Hr.
  pose proof (@not_nan_spec _ Hx) as Hnx. pose proof (@not_nan_spec _ Hy) as Hny.
  pose proof (Prim2SF_valid x) as Hvx. pose proof (Prim2SF_valid y) as Hvy.
  pose proof (@SFcompare_rank _ _ Hvx Hvy Hnx Hny) as Hc.
  unfold rank in Hr. rewrite Hr, Z.compare_refl in Hc.
  destruct (Prim2SF x) as [sx | sx | | sx mx ex] eqn:Ex,
           (Prim2SF y) as [sy | sy | | sy my ey] eqn:Ey; try congruence;
    cbn [SFcompare] in Hc;
    try (right; eauto; fail);
    try (destruct sx; discriminate Hc);
    try (destruct sy; discriminate Hc);
    left; apply Prim2SF_inj; rewrite Ex, Ey.
  - destruct sx, sy; try discriminate Hc; reflexivity.
  - destruct sx, sy; try discriminate Hc;
      destruct (ex ?= ey) eqn:He; try discriminate Hc;
      apply Z.compare_eq in He; subst ey;
      injection Hc as Hc; rewrite Pos.compare_cont_spec in Hc; cbn [Pos.switch_Eq] in Hc;
      (destruct (Pos.compare mx my) eqn:Hm; try discriminate Hc);
      apply Pos.compare_eq in Hm; subst my; reflexivity.
Qed.

End FloatOrder.

(** ** Reading a [toFixed(2)] string back *)

Module FixedStrings.

Import FloatFacts FloatOrder.
Local Open Scope Z_scope.

(** *** Rounded division *)

Lemma div_half_even_spec (a b : Z) :
  0 < b ->
  2 * Z.abs (b * div_half_even a b - a) <= b
  /\ a / b <= div_half_even a b <= a / b + 1.
Proof.
  intros Hb. unfold div_half_even.
  pose proof (Z.div_mod a b ltac:(lia)) as Hdm.
  pose proof (Z.mod_pos_bound a b Hb) as Hr.
  set (q := a / b) in *. set (r := a mod b) in *.
  destruct (2 * r ?= b) eqn:Hc.
  - apply Z.compare_eq in Hc. destruct (Z.even q); split; lia.
  - rewrite Z.compare_lt_iff in Hc. split; lia.
  - rewrite Z.compare_gt_iff in Hc. split; lia.
Qed.

Lemma div_half_even_scale (a b c : Z) :
  0 < b -> 0 < c -> div_half_even (a * c) (b * c) = div_half_even a b.
Proof.
  intros Hb Hc. unfold div_half_even.
  rewrite Z.div_mul_cancel_r, Z.mul_mod_distr_r by lia.
  replace (2 * (a mod b * c)) with (2 * (a mod b) * c) by ring.
  rewrite <- (Zmult_compare_compat_r (2 * (a mod b)) b c) by lia.
  reflexivity.
Qed.

(** *** Hundredths *)

Lemma U_pos : 0 < U.
Proof. reflexivity. Qed.

Lemma hundredths_spec (v : Z) :
  (2 * hundredths v - 1) * U <= 200 * v < (2 * hundredths v + 1) * U.
Proof.
  unfold hundredths. rewrite Z.shiftr_div_pow2 by lia.
  change (2 ^ 1075) with (2 * U). change (2 ^ 1074) with U.
  pose proof U_pos as HU.
  pose proof (Z.div_mod (200 * v + U) (2 * U) ltac:(lia)) as Hdm.
  pose proof (Z.mod_pos_bound (200 * v + U) (2 * U) ltac:(lia)) as Hr.
  set (n := (200 * v + U) / (2 * U)) in *. lia.
Qed.

Lemma hundredths_unique (v n : Z) :
  (2 * n - 1) * U <= 200 * v < (2 * n + 1) * U -> hundredths v = n.
Proof.
  intros Hn. pose proof (hundredths_spec v) as Hh. pose proof U_pos as HU.
  set (h := hundredths v) in *.
  destruct (Z.lt_trichotomy h n) as [Hlt | [Heq | Hgt]]; [| exact Heq |].
  - assert ((2 * h + 1) * U <= (2 * n - 1) * U) by (apply Z.mul_le_mono_nonneg_r; lia). lia.
  - assert ((2 * n + 1) * U <= (2 * h - 1) * U) by (apply Z.mul_le_mono_nonneg_r; lia). lia.
Qed.

(** *** Mantissas of 53 bits *)

Lemma digits_at_most_53 (p : positive) : Zpos p < 2 ^ 53 -> Zpos (digits2_pos p) <= 53.
Proof.
  intros Hp. pose proof (digits2_pos_bounds p) as [Hlo _].
  assert (Hlt : 2 ^ (Zpos (digits2_pos p) - 1) < 2 ^ 53) by lia.
  apply Z.pow_lt_mono_r_iff in Hlt; lia.
Qed.

Lemma digits_at_least_53 (p : positive) : 2 ^ 52 <= Zpos p -> 53 <= Zpos (digits2_pos p).
Proof.
  intros Hp. pose proof (digits2_pos_bounds p) as [_ Hhi].
  assert (Hlt : 2 ^ 52 < 2 ^ Zpos (digits2_pos p)) by lia.
  apply Z.pow_lt_mono_r_iff in Hlt; lia.
Qed.

Lemma valid_of_bounds (s : bool) (p : positive) (sh : Z) :
  0 <= sh <= 2045 -> Zpos p < 2 ^ 53 -> (0 < sh -> 2 ^ 52 <= Zpos p) ->
  valid_binary (S754_finite s p (sh - 1074)) = true.
Proof.
  intros Hsh Hhi Hlo.
  unfold SpecFloat.valid_binary, bounded, canonical_mantissa. rewrite fexp_eq.
  change (emax - prec) with 971.
  pose proof (@digits_at_most_53 p Hhi) as Hd.
  apply andb_true_iff. split; [apply Z.eqb_eq | apply Z.leb_le; lia].
  destruct (Z.eq_dec sh 0) as [-> | Hne].
  - lia.
  - pose proof (@digits_at_least_53 p (Hlo ltac:(lia))). lia.
Qed.

(** *** The rounding of a quotient *)

Lemma dropped_bits_nonneg (a b : Z) : 0 <= dropped_bits a b.
Proof. unfold dropped_bits. lia. Qed.

(** The kept mantissa is a nearest multiple of the grid. *)
Lemma kept_mantissa_near (a b : Z) :
  0 < b ->
  2 * Z.abs (b * 2 ^ dropped_bits a b * kept_mantissa a b - a * U)
  <= b * 2 ^ dropped_bits a b.
Proof.
  intros Hb. unfold kept_mantissa.
  assert (HW : 0 < 2 ^ dropped_bits a b)
    by (apply Z.pow_pos_nonneg; [lia | apply dropped_bits_nonneg]).
  apply div_half_even_spec. apply Z.mul_pos_pos; assumption.
Qed.

(** Bounds on the quotient and on the kept mantissa. *)
Lemma kept_mantissa_bounds (a b : Z) :
  0 < b -> b <= a * U ->
  let W := 2 ^ dropped_bits a b in
  1 <= kept_mantissa a b <= 2 ^ 53
  /\ (0 < dropped_bits a b -> 2 ^ 52 <= kept_mantissa a b /\ b * (2 ^ 52 * W) <= a * U).
Proof.
  intros Hb Hab W.
  assert (HW : 0 < W) by (apply Z.pow_pos_nonneg; [lia | apply dropped_bits_nonneg]).
  assert (HbW : 0 < b * W) by (apply Z.mul_pos_pos; assumption).
  assert (Hk : a * U / (b * W) <= kept_mantissa a b <= a * U / (b * W) + 1)
    by exact (proj2 (@div_half_even_spec (a * U) (b * W) HbW)).
  set (k := kept_mantissa a b) in *.
  set (Q := a * U / b).
  assert (HQ1 : 1 <= Q) by (apply Z.div_le_lower_bound; lia).
  pose proof (Z.log2_spec Q ltac:(lia)) as [HQlo HQhi].
  pose proof (Z.log2_nonneg Q) as Hlog.
  assert (HbQ : b * Q <= a * U) by (apply Z.mul_div_le; exact Hb).
  assert (HbQ1 : a * U < b * (Q + 1)).
  { pose proof (Z.mul_succ_div_gt (a * U) b Hb). fold Q in H. lia. }
  destruct (Z.le_gt_cases (Z.log2 Q + 1 - 53) 0) as [Hsmall | Hbig].
  - (* no bit is dropped *)
    assert (Hs : dropped_bits a b = 0) by (unfold dropped_bits; fold Q; lia).
    assert (HW1 : W = 1) by (unfold W; rewrite Hs; reflexivity).
    replace (b * W) with b in Hk by (rewrite HW1; ring). fold Q in Hk.
    assert (HQ53 : Q < 2 ^ 53).
    { apply Z.lt_le_trans with (1 := HQhi). apply Z.pow_le_mono_r; lia. }
    split; [clear - Hk HQ1 HQ53; lia |]. rewrite Hs. lia.
  - assert (Hs : dropped_bits a b = Z.log2 Q + 1 - 53) by (unfold dropped_bits; fold Q; lia).
    assert (Hlo52 : 2 ^ 52 * W = 2 ^ Z.log2 Q).
    { unfold W. rewrite Hs, <- Z.pow_add_r by lia. f_equal. lia. }
    assert (Hhi53 : 2 ^ 53 * W = 2 ^ Z.succ (Z.log2 Q)).
    { unfold W. rewrite Hs, <- Z.pow_add_r by lia. f_equal. lia. }
    assert (Hlow : b * (2 ^ 52 * W) <= a * U).
    { apply Z.le_trans with (b * Q); [apply Z.mul_le_mono_nonneg_l; lia | exact HbQ]. }
    assert (Hupp : a * U < b * (2 ^ 53 * W)).
    { apply Z.lt_le_trans with (1 := HbQ1). apply Z.mul_le_mono_nonneg_l; lia. }
    assert (Hfl : 2 ^ 52 <= a * U / (b * W)).
    { apply Z.div_le_lower_bound; [exact HbW |]. lia. }
    assert (Hfu : a * U / (b * W) < 2 ^ 53).
    { apply Z.div_lt_upper_bound; [exact HbW |]. lia. }
    split; [clear - Hk Hfl Hfu; lia |]. intros _. split; [clear - Hk Hfl; lia | exact Hlow].
Qed.

(** The rounding of a quotient that is at least [2^-1074] and does not
    overflow: a valid finite number whose value is the kept mantissa on the
    grid. *)
Lemma round_rational_finite (neg : bool) (a b : Z) :
  0 < b -> b <= a * U -> dropped_bits a b < 2045 ->
  exists (p : positive) (sh : Z),
    round_rational neg a b = S754_finite neg p (sh - 1074)
    /\ valid_binary (S754_finite neg p (sh - 1074)) = true
    /\ Zpos p * 2 ^ sh = kept_mantissa a b * 2 ^ dropped_bits a b.
Proof.
  intros Hb Hab Hov.
  destruct (@kept_mantissa_bounds a b Hb Hab) as [Hk Hbig].
  pose proof (dropped_bits_nonneg a b) as Hs.
  unfold round_rational. change (2 ^ 1074) with U.
  fold (dropped_bits a b).
  replace (div_half_even (a * 2 ^ Z.max (1074 - dropped_bits a b) 0)
                         (b * 2 ^ Z.max (dropped_bits a b - 1074) 0))
    with (kept_mantissa a b).
  2: { unfold kept_mantissa. symmetry.
       rewrite <- (@div_half_even_scale (a * 2 ^ Z.max (1074 - dropped_bits a b) 0)
                                        (b * 2 ^ Z.max (dropped_bits a b - 1074) 0)
                                        (2 ^ Z.min (dropped_bits a b) 1074))
         by (try apply Z.mul_pos_pos; try apply Z.pow_pos_nonneg; lia).
       rewrite <- !Z.mul_assoc, <- !Z.pow_add_r by lia.
       unfold U. f_equal; f_equal; f_equal; lia. }
  set (k := kept_mantissa a b) in *. set (sh := dropped_bits a b) in *.
  destruct (k =? 2 ^ 53) eqn:Hcarry.
  - apply Z.eqb_eq in Hcarry.
    exists (Z.to_pos (2 ^ 52)), (sh + 1).
    change (2 ^ 52) with (Zpos (Z.to_pos (2 ^ 52))) at 1.
    replace (sh + 1 <=? 2045) with true by (symmetry; apply Z.leb_le; lia).
    split; [reflexivity |]. split.
    + apply valid_of_bounds; [lia | reflexivity | intros _; vm_compute; discriminate].
    + rewrite Hcarry, Z.pow_add_r by lia.
      change (Zpos (Z.to_pos (2 ^ 52))) with (2 ^ 52). change (2 ^ 53) with (2 ^ 52 * 2).
      change (2 ^ 1) with 2. ring.
  - apply Z.eqb_neq in Hcarry.
    destruct k as [| p | p] eqn:Ek; try lia.
    exists p, sh.
    replace (sh <=? 2045) with true by (symmetry; apply Z.leb_le; lia).
    split; [reflexivity |]. split; [| reflexivity].
    apply valid_of_bounds; [lia | lia |]. intros Hpos. apply Hbig, Hpos.
Qed.

(** *** The nearest point of a grid *)

Lemma U_not_hundredfold (W : Z) : 100 * W <> U.
Proof.
  intros H. assert (Hmod : U mod 100 = 0) by (rewrite <- H, Z.mul_comm; apply Z.mod_mul; lia).
  vm_compute in Hmod. discriminate Hmod.
Qed.

(** If some point [j * A] of a grid of step [A = 100 * W] is within half a
    unit of [c], in the half-open sense of [toFixed], then so is every
    nearest point [k * A] of the grid. *)
Lemma nearest_on_grid (W c k j : Z) :
  0 < W ->
  2 * Z.abs (100 * W * k - c) <= 100 * W ->
  - U <= 2 * (100 * W * j - c) < U ->
  - U <= 2 * (100 * W * k - c) < U.
Proof.
  intros HW Hk Hj.
  pose proof (@U_not_hundredfold W) as HU.
  remember (100 * W) as A eqn:EA.
  assert (HA : 0 < A) by lia.
  assert (Hd : A * k - c = (A * j - c) + A * (k - j)) by ring.
  destruct (Z.lt_trichotomy k j) as [Hlt | [Heq | Hgt]].
  - assert (A * (k - j) <= - A) by nia. lia.
  - subst k. lia.
  - assert (A <= A * (k - j)) by nia. lia.
Qed.

(** *** The round trip *)

Lemma units_pos (m : positive) (e : Z) : -1074 <= e -> 0 < units m e.
Proof.
  intros He. unfold units. apply Z.mul_pos_pos; [lia | apply Z.pow_pos_nonneg; lia].
Qed.

(** The hundredths of a positive number below [10^21]. *)
Lemma hundredths_range (m : positive) (e : Z) :
  valid_binary (S754_finite false m e) = true ->
  at_least_1e21 (units m e) = false ->
  0 <= hundredths (units m e) < 10 ^ 23.
Proof.
  intros Hv Hsmall. pose proof (@valid_finite _ _ _ Hv) as [He [Hm _]].
  pose proof (@units_pos m e (proj1 He)) as HV.
  unfold at_least_1e21 in Hsmall. apply Z.leb_gt in Hsmall. change (2 ^ 1074) with U in Hsmall.
  pose proof (hundredths_spec (units m e)) as [Hlo Hhi].
  pose proof U_pos as HU.
  set (n := hundredths (units m e)) in *. set (V := units m e) in *.
  split.
  - destruct (Z.le_gt_cases 0 n) as [H | H]; [exact H |].
    assert ((2 * n + 1) * U <= 0) by (apply Z.mul_nonpos_nonneg; lia). lia.
  - destruct (Z.lt_ge_cases n (10 ^ 23)) as [H | H]; [exact H |].
    assert (Hge : (2 * 10 ^ 23 - 1) * U <= (2 * n - 1) * U)
      by (apply Z.mul_le_mono_nonneg_r; lia).
    assert (Hlt : 200 * V < 200 * (10 ^ 21 * U)) by lia.
    (* the value is [100 V / U] exactly when [e >= 0], far below otherwise *)
    destruct (Z.le_gt_cases 0 e) as [He0 | He0].
    + assert (HVU : V = Zpos m * 2 ^ e * U).
      { unfold V, units, U. rewrite Z.pow_add_r by lia. ring. }
      assert (Hme : Zpos m * 2 ^ e < 10 ^ 21).
      { apply Z.mul_lt_mono_pos_r with U; [exact HU |]. lia. }
      assert (Hn : n = 100 * (Zpos m * 2 ^ e)).
      { apply hundredths_unique. rewrite HVU.
        set (X := Zpos m * 2 ^ e) in *.
        replace ((2 * (100 * X) - 1) * U) with (200 * (X * U) - U) by ring.
        replace ((2 * (100 * X) + 1) * U) with (200 * (X * U) + U) by ring. lia. }
      lia.
    + assert (HV53 : V < 2 ^ 53 * U).
      { unfold V, units. apply Z.lt_le_trans with (2 ^ 53 * 2 ^ (e + 1074)).
        - apply Z.mul_lt_mono_pos_r; [apply Z.pow_pos_nonneg; lia | exact Hm].
        - apply Z.mul_le_mono_nonneg_l; [lia |]. apply Z.pow_le_mono_r; lia. }
      assert (Hbig : 200 * (2 ^ 53 * U) <= (2 * 10 ^ 23 - 1) * U).
      { replace (200 * (2 ^ 53 * U)) with ((200 * 2 ^ 53) * U) by ring.
        apply Z.mul_le_mono_nonneg_r; [lia | vm_compute; discriminate]. }
      lia.
Qed.

Lemma units_of_shift (p : positive) (sh : Z) : units p (sh - 1074) = Zpos p * 2 ^ sh.
Proof. unfold units. f_equal. f_equal. lia. Qed.

(** The string of the hundredths of a positive number below [10^21] reads
    back to a number with the same string. *)
Lemma fixed_digits_read_back (m : positive) (e : Z) :
  valid_binary (S754_finite false m e) = true ->
  at_least_1e21 (units m e) = false ->
  let n := hundredths (units m e) in
  toFixed2 (Number_of (FixedDigits false n)) = FixedDigits false n
  /\ is_nan (Number_of (FixedDigits false n)) = false.
Proof.
  intros Hv Hsmall n.
  pose proof (@hundredths_range m e Hv Hsmall) as Hn. fold n in Hn.
  pose proof (@valid_finite _ _ _ Hv) as [He [Hm _]].
  pose proof (hundredths_spec (units m e)) as HX. fold n in HX.
  pose proof U_pos as HU.
  destruct n as [| q | q] eqn:En; [split; reflexivity | | lia].
  rewrite <- En in *. assert (Hn1 : 1 <= n) by lia.
  assert (Hnum : number_of_decimal false n (-2) = SF2Prim (round_rational false n 100)).
  { unfold number_of_decimal. rewrite En at 1.
    change (10 ^ Z.max (-2) 0) with 1. change (10 ^ Z.max (- -2) 0) with 100.
    rewrite Z.mul_1_r. reflexivity. }
  cbn [Number_of]. rewrite Hnum. clear Hnum.
  (* the rounding of [n / 100] *)
  assert (Hb : 0 < 100) by lia.
  assert (H100 : 100 <= U) by (vm_compute; discriminate).
  assert (Hab : 100 <= n * U).
  { apply Z.le_trans with (1 * U); [lia | apply Z.mul_le_mono_nonneg_r; lia]. }
  assert (Hov : dropped_bits n 100 < 2045).
  { unfold dropped_bits.
    assert (HQ : 0 < n * U / 100) by (apply Z.div_str_pos; lia).
    assert (HQlt : n * U / 100 < 2 ^ 1151).
    { apply Z.le_lt_trans with (n * U); [apply Z.div_le_upper_bound; lia |].
      apply Z.lt_le_trans with (10 ^ 23 * U); [apply Z.mul_lt_mono_pos_r; lia |].
      vm_compute. discriminate. }
    apply Z.log2_lt_pow2 in HQlt; [lia | exact HQ]. }
  destruct (@round_rational_finite false n 100 Hb Hab Hov) as [p [sh [Hrr [Hvalid Hval]]]].
  pose proof (@kept_mantissa_near n 100 Hb) as Hnear.
  pose proof (@kept_mantissa_bounds n 100 Hb Hab) as [_ Hbinade].
  pose proof (dropped_bits_nonneg n 100) as Hs.
  set (k := kept_mantissa n 100) in *. set (s := dropped_bits n 100) in *.
  assert (HW : 0 < 2 ^ s) by (apply Z.pow_pos_nonneg; lia).
  set (W := 2 ^ s) in *.
  (* a point of the grid within half a unit of [n] *)
  assert (Hgrid : exists j, - U <= 2 * (100 * W * j - n * U) < U).
  { destruct (Z.le_gt_cases s (e + 1074)) as [Hfine | Hcoarse].
    - exists (Zpos m * 2 ^ (e + 1074 - s)).
      assert (HVX : W * (Zpos m * 2 ^ (e + 1074 - s)) = units m e).
      { unfold units, W. replace (e + 1074) with (s + (e + 1074 - s)) at 2 by lia.
        rewrite Z.pow_add_r by lia. ring. }
      replace (100 * W * (Zpos m * 2 ^ (e + 1074 - s)))
        with (100 * (W * (Zpos m * 2 ^ (e + 1074 - s)))) by ring.
      rewrite HVX. lia.
    - exists (2 ^ 52).
      destruct (Hbinade ltac:(lia)) as [_ Hlow].
      assert (HVX : units m e < 2 ^ 52 * W).
      { unfold units. apply Z.lt_le_trans with (2 ^ 53 * 2 ^ (e + 1074)).
        - apply Z.mul_lt_mono_pos_r; [apply Z.pow_pos_nonneg; lia | exact Hm].
        - assert (Hsplit : W = 2 * 2 ^ (e + 1074) * 2 ^ (s - 1 - (e + 1074))).
          { unfold W. replace s with (1 + (e + 1074) + (s - 1 - (e + 1074))) at 1 by lia.
            rewrite (Z.pow_add_r 2 (1 + (e + 1074))), (Z.pow_add_r 2 1 (e + 1074)) by lia.
            reflexivity. }
          assert (H1 : 0 < 2 ^ (s - 1 - (e + 1074))) by (apply Z.pow_pos_nonneg; lia).
          assert (H2 : 0 < 2 ^ (e + 1074)) by (apply Z.pow_pos_nonneg; lia).
          rewrite Hsplit. change (2 ^ 53) with (2 ^ 52 * 2).
          generalize dependent (2 ^ (s - 1 - (e + 1074))).
          generalize dependent (2 ^ (e + 1074)). intros A HA B _ HB.
          assert (A <= A * B) by nia. nia. }
      lia. }
  destruct Hgrid as [j Hj].
  pose proof (@nearest_on_grid W (n * U) k j HW Hnear Hj) as Hk.
  rewrite Hrr. unfold toFixed2.
  rewrite Prim2SF_SF2Prim by exact Hvalid.
  rewrite units_of_shift, Hval. fold W.
  assert (Hsame : hundredths (k * W) = n) by (apply hundredths_unique; lia).
  assert (Hbelow : at_least_1e21 (k * W) = false).
  { unfold at_least_1e21. apply Z.leb_gt. change (2 ^ 1074) with U.
    assert ((2 * n + 1) * U <= (2 * 10 ^ 23 - 1) * U)
      by (apply Z.mul_le_mono_nonneg_r; lia).
    lia. }
  rewrite Hbelow, Hsame. split; [reflexivity |].
  rewrite is_nan_Prim2SF, Prim2SF_SF2Prim by exact Hvalid. reflexivity.
Qed.

Local Open Scope float_scope.

(** The round trip of the grouping: the key of a positive spacing, read back
    as a number, has the same key again, and that number is not [NaN]. *)
Lemma toFixed2_read_back (x : float) :
  gt x 0 = true ->
  toFixed2 (Number_of (toFixed2 x)) = toFixed2 x
  /\ is_nan (Number_of (toFixed2 x)) = false.
Proof.
  unfold gt. rewrite ltb_spec, Prim2SF_zero. intros Hpos.
  pose proof (Prim2SF_valid x) as Hv.
  remember (toFixed2 x) as key eqn:Ekey. unfold toFixed2 in Ekey.
  destruct (Prim2SF x) as [s | s | | s m e] eqn:Ex; try discriminate Hpos.
  - destruct s; try discriminate Hpos. subst key. cbn [Number_of]. split.
    + unfold toFixed2. rewrite Ex. reflexivity.
    + rewrite is_nan_Prim2SF, Ex. reflexivity.
  - destruct s; try discriminate Hpos.
    destruct (at_least_1e21 (units m e)) eqn:Hbig; subst key.
    + cbn [Number_of]. split.
      * unfold toFixed2. rewrite Ex, Hbig. reflexivity.
      * rewrite is_nan_Prim2SF, Ex. reflexivity.
    + apply fixed_digits_read_back; assumption.
Qed.

End FixedStrings.

(** ** The VLF parser *)

Section Strings.

Local Open Scope nat_scope.

(** *** Trimming *)

Lemma trimStart_app (a b : jsstring) :
  trimStart (a ++ b) = if forallb isWhiteSpace a then trimStart b else trimStart a ++ b.
Proof.
  induction a as [| c a IH]; [reflexivity |]. simpl.
  destruct (isWhiteSpace c); simpl; [exact IH | reflexivity].
Qed.

Lemma trimStart_padding (p : jsstring) : forallb isWhiteSpace p = true -> trimStart p = [].
Proof.
  induction p as [| c p IH]; [reflexivity |]. simpl.
  destruct (isWhiteSpace c); simpl; [exact IH | discriminate].
Qed.

Lemma forallb_rev (A : Type) (f : A -> bool) (l : list A) :
  forallb f (rev l) = forallb f l.
Proof.
  induction l as [| x l IH]; [reflexivity |]. simpl.
  rewrite forallb_app, IH. simpl. rewrite andb_true_r. apply andb_comm.
Qed.

Lemma trimEnd_app (a b : jsstring) :
  trimEnd (a ++ b) = if forallb isWhiteSpace b then trimEnd a else a ++ trimEnd b.
Proof.
  unfold trimEnd. rewrite rev_app_distr, trimStart_app, forallb_rev.
  destruct (forallb isWhiteSpace b); [reflexivity |].
  rewrite rev_app_distr, rev_involutive. reflexivity.
Qed.

Lemma trim_tight (s : jsstring) : tight s -> trim s = s.
Proof. intros [Hs He]. unfold trim. rewrite Hs. exact He. Qed.

Lemma trimStart_no_space (s : jsstring) :
  forallb (fun c => negb (isWhiteSpace c)) s = true -> trimStart s = s.
Proof.
  destruct s as [| c s]; [reflexivity |]. simpl.
  destruct (isWhiteSpace c); [discriminate | reflexivity].
Qed.

Lemma no_space_tight (s : jsstring) :
  forallb (fun c => negb (isWhiteSpace c)) s = true -> tight s.
Proof.
  intros Hs. split; [apply trimStart_no_space, Hs |].
  unfold trimEnd. rewrite trimStart_no_space, rev_involutive; [reflexivity |].
  rewrite forallb_rev. exact Hs.
Qed.

Lemma tight_app (a b : jsstring) :
  a <> [] -> b <> [] -> tight a -> tight b -> tight (a ++ b).
Proof.
  intros Ha Hb [Has _] [_ Hbe]. split.
  - rewrite trimStart_app.
    destruct (forallb isWhiteSpace a) eqn:Hall.
    + rewrite trimStart_padding in Has by exact Hall. congruence.
    + rewrite Has. reflexivity.
  - rewrite trimEnd_app.
    destruct (forallb isWhiteSpace b) eqn:Hall.
    + unfold trimEnd in Hbe. rewrite trimStart_padding in Hbe
        by (rewrite forallb_rev; exact Hall).
      simpl in Hbe. congruence.
    + rewrite Hbe. reflexivity.
Qed.

(** Anything between two tight nonempty strings keeps the whole tight. *)
Lemma tight_around (a m b : jsstring) :
  a <> [] -> b <> [] -> tight a -> tight b -> tight (a ++ m ++ b).
Proof.
  intros Ha Hb [Has _] [_ Hbe]. split.
  - rewrite trimStart_app.
    destruct (forallb isWhiteSpace a) eqn:Hall.
    + rewrite trimStart_padding in Has by exact Hall. congruence.
    + rewrite Has. reflexivity.
  - rewrite app_assoc, trimEnd_app.
    destruct (forallb isWhiteSpace b) eqn:Hall.
    + unfold trimEnd in Hbe. rewrite trimStart_padding in Hbe
        by (rewrite forallb_rev; exact Hall).
      simpl in Hbe. congruence.
    + rewrite Hbe. reflexivity.
Qed.

Lemma trim_padded (pad1 core pad2 : jsstring) :
  is_padding pad1 = true -> is_padding pad2 = true -> tight core ->
  trim (pad1 ++ core ++ pad2) = core.
Proof.
  unfold is_padding. intros H1 H2 [Hs He]. unfold trim.
  rewrite trimStart_app, H1, trimStart_app.
  destruct (forallb isWhiteSpace core) eqn:Hall.
  - rewrite trimStart_padding in Hs by exact Hall. subst core.
    rewrite trimStart_padding by exact H2. reflexivity.
  - rewrite Hs, trimEnd_app, H2. exact He.
Qed.

(** Trailing white space does not change the trim. *)
Lemma trim_app_padding (s pad : jsstring) :
  is_padding pad = true -> trim (s ++ pad) = trim s.
Proof.
  unfold is_padding, trim. intros Hp. rewrite trimStart_app.
  destruct (forallb isWhiteSpace s) eqn:Hall.
  - rewrite !trimStart_padding by assumption. reflexivity.
  - rewrite trimEnd_app, Hp. reflexivity.
Qed.

(** *** Splitting into lines *)

Lemma strip_cr_padding (l : jsstring) :
  exists pad, is_padding pad = true /\ l = strip_cr l ++ pad.
Proof.
  induction l as [| c l [pad [Hpad IH]]].
  - exists []. split; reflexivity.
  - simpl. destruct (N.eqb c CR && match l with [] => true | _ => false end) eqn:Hc.
    + apply andb_true_iff in Hc. destruct Hc as [Hc Hl].
      apply N.eqb_eq in Hc. subst c. destruct l; [| discriminate].
      exists [CR]. split; reflexivity.
    + exists pad. split; [exact Hpad |]. simpl. f_equal. exact IH.
Qed.

Lemma trim_strip_cr (l : jsstring) : trim (strip_cr l) = trim l.
Proof.
  destruct (strip_cr_padding l) as [pad [Hpad Hl]].
  rewrite Hl at 2. symmetry. apply trim_app_padding, Hpad.
Qed.

Lemma split_newline_line (l rest : jsstring) :
  ~ In LF l ->
  split_newline (l ++ LF :: rest) = strip_cr l :: split_newline rest.
Proof.
  induction l as [| c l IH]; intros Hno.
  - reflexivity.
  - assert (Hc : N.eqb c LF = false)
      by (apply N.eqb_neq; intros ->; apply Hno; left; reflexivity).
    assert (Hl : ~ In LF l) by (intros Hin; apply Hno; right; exact Hin).
    cbn [app split_newline strip_cr]. rewrite Hc.
    destruct l as [| d l'].
    + cbn [app]. rewrite N.eqb_refl.
      destruct (N.eqb c CR); reflexivity.
    + assert (Hd : N.eqb d LF = false)
        by (apply N.eqb_neq; intros ->; apply Hno; right; left; reflexivity).
      cbn [app]. rewrite Hd, !andb_false_r.
      change (d :: l' ++ LF :: rest) with ((d :: l') ++ LF :: rest).
      rewrite (IH Hl). reflexivity.
Qed.

Lemma split_newline_last (l : jsstring) :
  ~ In LF l -> split_newline l = [l].
Proof.
  induction l as [| c l IH]; intros Hno; [reflexivity |].
  assert (Hc : N.eqb c LF = false)
    by (apply N.eqb_neq; intros ->; apply Hno; left; reflexivity).
  assert (Hl : ~ In LF l) by (intros Hin; apply Hno; right; exact Hin).
  cbn [split_newline]. rewrite Hc, (IH Hl).
  destruct l as [| d l'].
  - rewrite andb_false_r. reflexivity.
  - assert (Hd : N.eqb d LF = false)
      by (apply N.eqb_neq; intros ->; apply Hno; right; left; reflexivity).
    rewrite Hd, andb_false_r. reflexivity.
Qed.

(** The trimmed pieces of a text are the trimmed lines it was joined from. *)
Lemma trimmed_lines_join (lines : list jsstring) :
  lines <> [] ->
  Forall (fun l => ~ In LF l) lines ->
  map trim (split_newline (join_lines lines)) = map trim lines.
Proof.
  induction lines as [| l lines IH]; intros Hne Hno; [congruence |].
  inversion Hno as [| ? ? Hl Hrest]; subst.
  destruct lines as [| l2 lines].
  - simpl. rewrite split_newline_last by exact Hl. reflexivity.
  - change (join_lines (l :: l2 :: lines)) with (l ++ LF :: join_lines (l2 :: lines)).
    rewrite split_newline_line by exact Hl.
    cbn [map]. rewrite trim_strip_cr. f_equal.
    apply IH; [discriminate | exact Hrest].
Qed.

Lemma nonblank_lines_join (lines : list jsstring) :
  Forall (fun l => ~ In LF l) lines ->
  nonblank_lines (join_lines lines) = filter Boolean_str (map trim lines).
Proof.
  intros Hno. unfold nonblank_lines.
  destruct lines as [| l lines]; [reflexivity |].
  rewrite trimmed_lines_join; [reflexivity | discriminate | exact Hno].
Qed.

(** The parser runs the loop body on every line, in order. *)
Lemma parseVLFData_rows (lines : list jsstring) :
  Forall (fun l => ~ In LF l) lines ->
  parseVLFData (join_lines lines) = flat_map vlf_row lines.
Proof.
  intros Hno. unfold parseVLFData. rewrite nonblank_lines_join by exact Hno.
  clear Hno. induction lines as [| l lines IH]; [reflexivity |].
  cbn [map filter flat_map]. unfold vlf_row at 1.
  destruct (Boolean_str (trim l)); cbn [flat_map app]; rewrite IH; reflexivity.
Qed.

(** *** Splitting into columns *)

Lemma split_run_field (t : jsstring) (b : bool) :
  forallb (fun c => negb (isDelimiter c)) t = true ->
  split_run b t = [t].
Proof.
  revert b. induction t as [| c t IH]; intros b Ht; [reflexivity |].
  simpl in Ht. apply andb_true_iff in Ht. destruct Ht as [Hc Ht].
  apply negb_true_iff in Hc. cbn [split_run]. rewrite Hc, (IH false Ht). reflexivity.
Qed.

Lemma split_run_delimiters (d rest : jsstring) :
  forallb isDelimiter d = true ->
  split_run true (d ++ rest) = split_run true rest.
Proof.
  induction d as [| c d IH]; intros Hd; [reflexivity |].
  simpl in Hd. apply andb_true_iff in Hd. destruct Hd as [Hc Hd].
  cbn [app split_run]. rewrite Hc. apply IH, Hd.
Qed.

(** A column and the delimiters that follow it. *)
Lemma split_run_field_delimiters (t d rest : jsstring) (b : bool) :
  forallb (fun c => negb (isDelimiter c)) t = true ->
  is_delimiter_run d = true ->
  t <> [] \/ b = false ->
  split_run b (t ++ d ++ rest) = t :: split_run true rest.
Proof.
  intros Ht Hd. unfold is_delimiter_run in Hd.
  apply andb_true_iff in Hd. destruct Hd as [Hne Hd].
  destruct d as [| c d]; [discriminate |]. clear Hne.
  simpl in Hd. apply andb_true_iff in Hd. destruct Hd as [Hc Hd].
  cbn [app]. revert b. induction t as [| x t IH]; intros b Hb.
  - destruct Hb as [Hb | ->]; [congruence |].
    cbn [app split_run]. rewrite Hc. f_equal. apply split_run_delimiters, Hd.
  - simpl in Ht. apply andb_true_iff in Ht. destruct Ht as [Hx Ht].
    apply negb_true_iff in Hx.
    cbn [app split_run]. rewrite Hx. rewrite (IH Ht false) by (right; reflexivity).
    reflexivity.
Qed.

Lemma numeric_char_cases (c : N) :
  numeric_char c = true ->
  In c [48; 49; 50; 51; 52; 53; 54; 55; 56; 57; 43; 45; 46; 101; 69]%N.
Proof.
  unfold numeric_char, isDigit. intros H.
  repeat (apply orb_true_iff in H; destruct H as [H | H]);
    try (apply N.eqb_eq in H; subst c; simpl; tauto).
  apply andb_true_iff in H. destruct H as [Hlo Hhi].
  apply N.leb_le in Hlo, Hhi.
  assert (Hc : (c = 48 \/ c = 49 \/ c = 50 \/ c = 51 \/ c = 52 \/ c = 53 \/ c = 54
                \/ c = 55 \/ c = 56 \/ c = 57)%N) by lia.
  repeat (destruct Hc as [Hc | Hc]; [subst c; simpl; tauto |]).
  subst c; simpl; tauto.
Qed.

(** A property of code units that holds of every literal character. *)
Lemma numeric_char_all (P : N -> bool) (c : N) :
  forallb P [48; 49; 50; 51; 52; 53; 54; 55; 56; 57; 43; 45; 46; 101; 69]%N = true ->
  numeric_char c = true -> P c = true.
Proof.
  intros HP Hc. apply numeric_char_cases in Hc.
  rewrite forallb_forall in HP. apply HP, Hc.
Qed.

Lemma forallb_impl (A : Type) (P Q : A -> bool) (l : list A) :
  (forall x, P x = true -> Q x = true) -> forallb P l = true -> forallb Q l = true.
Proof.
  intros HPQ. rewrite !forallb_forall. intros HP x Hx. apply HPQ, HP, Hx.
Qed.

Lemma numeric_field_is_field (t : jsstring) :
  is_numeric_field t = true -> is_field t = true.
Proof.
  unfold is_numeric_field, is_field. intros H.
  apply andb_true_iff in H. destruct H as [H _].
  apply andb_true_iff in H. destruct H as [Hne Hchars].
  rewrite Hne. simpl.
  revert Hchars. apply forallb_impl. intros c.
  apply (numeric_char_all (fun c => negb (isDelimiter c) && negb (isWhiteSpace c))).
  reflexivity.
Qed.

Lemma field_facts (t : jsstring) :
  is_field t = true ->
  t <> [] /\ forallb (fun c => negb (isDelimiter c)) t = true /\ tight t.
Proof.
  unfold is_field. intros H. apply andb_true_iff in H. destruct H as [Hne Hchars].
  split; [destruct t; [discriminate | congruence] |].
  split.
  - revert Hchars. apply forallb_impl. intros c Hc.
    apply andb_true_iff in Hc. tauto.
  - apply no_space_tight. revert Hchars. apply forallb_impl. intros c Hc.
    apply andb_true_iff in Hc. tauto.
Qed.

(** The columns of a line of three columns. *)
Lemma three_columns (t0 d1 t1 d2 t2 : jsstring) :
  is_field t0 = true -> is_delimiter_run d1 = true ->
  is_field t1 = true -> is_delimiter_run d2 = true ->
  is_field t2 = true ->
  filter Boolean_str (map trim (split_delimiters (t0 ++ d1 ++ t1 ++ d2 ++ t2)))
  = [t0; t1; t2].
Proof.
  intros H0 Hd1 H1 Hd2 H2.
  apply field_facts in H0, H1, H2.
  destruct H0 as [N0 [F0 T0]], H1 as [N1 [F1 T1]], H2 as [N2 [F2 T2]].
  unfold split_delimiters.
  rewrite (@split_run_field_delimiters t0 d1 _ false F0 Hd1) by (left; exact N0).
  rewrite (@split_run_field_delimiters t1 d2 _ true F1 Hd2) by (left; exact N1).
  rewrite (@split_run_field t2 true F2).
  cbn [map]. rewrite !trim_tight by assumption.
  destruct t0, t1, t2; try congruence. reflexivity.
Qed.

Lemma three_columns_tight (t0 d1 t1 d2 t2 : jsstring) :
  is_field t0 = true -> is_field t2 = true ->
  tight (t0 ++ d1 ++ t1 ++ d2 ++ t2) /\ t0 ++ d1 ++ t1 ++ d2 ++ t2 <> [].
Proof.
  intros H0 H2. apply field_facts in H0, H2.
  destruct H0 as [N0 [_ T0]], H2 as [N2 [_ T2]].
  split.
  - replace (t0 ++ d1 ++ t1 ++ d2 ++ t2) with (t0 ++ (d1 ++ t1 ++ d2) ++ t2)
      by (rewrite <- !app_assoc; reflexivity).
    apply tight_around; assumption.
  - destruct t0; [congruence | discriminate].
Qed.

(** *** The header pattern *)

Lemma no_header_without_initial (s : jsstring) :
  forallb no_initial s = true -> regex_test vlf_header s = false.
Proof.
  induction s as [| c s IH]; intros Hs; [reflexivity |].
  simpl in Hs. apply andb_true_iff in Hs. destruct Hs as [Hc Hs].
  unfold no_initial in Hc. apply andb_true_iff in Hc. destruct Hc as [Hs1 Hi1].
  apply negb_true_iff in Hs1, Hi1.
  cbn [regex_test]. rewrite (IH Hs).
  unfold vlf_header. cbn [existsb lit list_ascii_of_string map matches_at].
  change (fold_case (N_of_ascii "s")) with 115%N.
  change (fold_case (N_of_ascii "i")) with 105%N.
  rewrite Hs1, Hi1. reflexivity.
Qed.

Lemma delimiter_no_initial (c : N) : isDelimiter c = true -> no_initial c = true.
Proof.
  unfold isDelimiter. intros H.
  repeat (apply orb_true_iff in H; destruct H as [H | H]);
    apply N.eqb_eq in H; subst c; reflexivity.
Qed.

Lemma numeric_line_no_header (t0 d1 t1 d2 t2 : jsstring) :
  is_numeric_field t0 = true -> is_delimiter_run d1 = true ->
  is_numeric_field t1 = true -> is_delimiter_run d2 = true ->
  is_numeric_field t2 = true ->
  regex_test vlf_header (t0 ++ d1 ++ t1 ++ d2 ++ t2) = false.
Proof.
  unfold is_numeric_field, is_delimiter_run. intros H0 Hd1 H1 Hd2 H2.
  repeat match goal with
         | H : _ && _ = true |- _ => apply andb_true_iff in H; destruct H
         end.
  apply no_header_without_initial. rewrite !forallb_app.
  repeat (apply andb_true_iff; split);
    match goal with
    | H : forallb numeric_char ?t = true |- forallb no_initial ?t = true =>
      revert H; apply forallb_impl; intros c;
      apply (numeric_char_all no_initial); reflexivity
    | H : forallb isDelimiter ?t = true |- forallb no_initial ?t = true =>
      revert H; apply forallb_impl; exact delimiter_no_initial
    end.
Qed.

(** *** The header test and white space *)

Lemma trimStart_decompose (l : jsstring) :
  exists pad, is_padding pad = true /\ l = pad ++ trimStart l.
Proof.
  induction l as [| c l [pad [Hpad IH]]].
  - exists []. split; reflexivity.
  - simpl. destruct (isWhiteSpace c) eqn:Hc.
    + exists (c :: pad). split.
      * unfold is_padding in *. simpl. rewrite Hc, Hpad. reflexivity.
      * simpl. f_equal. exact IH.
    + exists []. split; reflexivity.
Qed.

Lemma trim_decompose (l : jsstring) :
  exists pad1 pad2,
    is_padding pad1 = true /\ is_padding pad2 = true /\ l = pad1 ++ trim l ++ pad2.
Proof.
  destruct (trimStart_decompose l) as [pad1 [H1 Hl]].
  destruct (trimStart_decompose (rev (trimStart l))) as [pad2 [H2 Hr]].
  exists pad1, (rev pad2). split; [exact H1 |]. split.
  - unfold is_padding in *. rewrite forallb_rev. exact H2.
  - unfold trim, trimEnd. rewrite <- rev_app_distr, <- Hr, rev_involutive. exact Hl.
Qed.

Lemma isWhiteSpace_cases (c : N) :
  isWhiteSpace c = true ->
  (c < 65 \/ 90 < c)%N /\ (c < 97 \/ 122 < c)%N.
Proof.
  unfold isWhiteSpace. intros H.
  apply orb_true_iff in H. destruct H as [H | H].
  - apply existsb_exists in H. destruct H as [x [Hx Hc]].
    apply N.eqb_eq in Hc. subst x.
    simpl in Hx. repeat (destruct Hx as [<- | Hx]; [lia |]). contradiction.
  - apply andb_true_iff in H. destruct H as [Hlo Hhi]. apply N.leb_le in Hlo. lia.
Qed.

Lemma letter_not_space (p c : N) :
  lower_case p = true -> isWhiteSpace c = true ->
  N.eqb (fold_case p) (fold_case c) = false.
Proof.
  unfold lower_case. intros Hp Hc.
  apply andb_true_iff in Hp. destruct Hp as [Hlo Hhi]. apply N.leb_le in Hlo, Hhi.
  apply isWhiteSpace_cases in Hc. destruct Hc as [Hupper Hlower].
  unfold fold_case.
  replace (N.leb 65 p && N.leb p 90) with false
    by (symmetry; apply andb_false_iff; right; apply N.leb_gt; lia).
  replace (N.leb 65 c && N.leb c 90) with false
    by (symmetry; apply andb_false_iff;
        destruct Hupper; [left | right]; apply N.leb_gt; lia).
  apply N.eqb_neq. lia.
Qed.

Lemma matches_at_padding (w s pad : jsstring) :
  forallb lower_case w = true -> is_padding pad = true ->
  matches_at w (s ++ pad) = matches_at w s.
Proof.
  intros Hw Hpad. revert s. induction w as [| p w IH]; intros s.
  - destruct (s ++ pad), s; reflexivity.
  - simpl in Hw. apply andb_true_iff in Hw. destruct Hw as [Hp Hw].
    destruct s as [| c s].
    + destruct pad as [| c pad]; [reflexivity |].
      unfold is_padding in Hpad. simpl in Hpad.
      apply andb_true_iff in Hpad. destruct Hpad as [Hc _].
      cbn [app matches_at]. rewrite (@letter_not_space _ _ Hp Hc). reflexivity.
    + cbn [app matches_at]. rewrite (IH Hw). reflexivity.
Qed.

Lemma no_word_at_end (words : list jsstring) :
  forallb is_word words = true ->
  existsb (fun w => matches_at w []) words = false.
Proof.
  induction words as [| w words IH]; intros Hwords; [reflexivity |].
  simpl in Hwords. apply andb_true_iff in Hwords. destruct Hwords as [Hw Hwords].
  cbn [existsb]. rewrite (IH Hwords).
  destruct w; [discriminate | reflexivity].
Qed.

Lemma no_word_at_space (words : list jsstring) (c : N) (s : jsstring) :
  forallb is_word words = true -> isWhiteSpace c = true ->
  existsb (fun w => matches_at w (c :: s)) words = false.
Proof.
  intros Hwords Hc. induction words as [| w words IH]; [reflexivity |].
  simpl in Hwords. apply andb_true_iff in Hwords. destruct Hwords as [Hw Hwords].
  cbn [existsb]. rewrite (IH Hwords).
  unfold is_word in Hw. apply andb_true_iff in Hw. destruct Hw as [Hne Hw].
  destruct w as [| p w]; [discriminate |].
  simpl in Hw. apply andb_true_iff in Hw. destruct Hw as [Hp _].
  cbn [matches_at]. rewrite (@letter_not_space _ _ Hp Hc). reflexivity.
Qed.

Lemma regex_test_padding_app (words : list jsstring) (pad s : jsstring) :
  forallb is_word words = true -> is_padding pad = true ->
  regex_test words (pad ++ s) = regex_test words s.
Proof.
  intros Hwords. induction pad as [| c pad IH]; intros Hpad; [reflexivity |].
  unfold is_padding in Hpad. simpl in Hpad.
  apply andb_true_iff in Hpad. destruct Hpad as [Hc Hpad].
  cbn [app regex_test]. rewrite (@no_word_at_space _ _ _ Hwords Hc). apply IH, Hpad.
Qed.

Lemma regex_test_app_padding (words : list jsstring) (s pad : jsstring) :
  forallb is_word words = true -> is_padding pad = true ->
  regex_test words (s ++ pad) = regex_test words s.
Proof.
  intros Hwords Hpad. induction s as [| c s IH].
  - cbn [app]. rewrite <- (app_nil_r pad) at 1.
    apply regex_test_padding_app; assumption.
  - cbn [app regex_test]. rewrite IH. f_equal.
    clear IH. induction words as [| w words IHw]; [reflexivity |].
    simpl in Hwords. apply andb_true_iff in Hwords. destruct Hwords as [Hw Hwords].
    unfold is_word in Hw. apply andb_true_iff in Hw. destruct Hw as [_ Hw].
    cbn [existsb]. rewrite (IHw Hwords).
    change (c :: s ++ pad) with ((c :: s) ++ pad).
    rewrite (@matches_at_padding _ (c :: s) _ Hw Hpad). reflexivity.
Qed.

(** Trimming a line does not change the header test. *)
Lemma regex_test_trim (words : list jsstring) (l : jsstring) :
  forallb is_word words = true ->
  regex_test words (trim l) = regex_test words l.
Proof.
  intros Hwords.
  destruct (trim_decompose l) as [pad1 [pad2 [H1 [H2 Hl]]]].
  rewrite Hl at 2.
  rewrite regex_test_padding_app, regex_test_app_padding by assumption.
  reflexivity.
Qed.

(** *** The loop body on the lines of the specification *)

Lemma vlf_row_padded (pad1 core pad2 : jsstring) :
  is_padding pad1 = true -> is_padding pad2 = true -> tight core -> core <> [] ->
  vlf_row (pad1 ++ core ++ pad2) = vlf_line core.
Proof.
  intros H1 H2 Htight Hne. unfold vlf_row.
  rewrite trim_padded by assumption.
  destruct core; [congruence | reflexivity].
Qed.

Lemma vlf_row_three_columns (pad1 t0 d1 t1 d2 t2 pad2 : jsstring) :
  is_padding pad1 = true -> is_padding pad2 = true ->
  is_field t0 = true -> is_delimiter_run d1 = true ->
  is_field t1 = true -> is_delimiter_run d2 = true ->
  is_field t2 = true ->
  vlf_row (pad1 ++ t0 ++ d1 ++ t1 ++ d2 ++ t2 ++ pad2) =
  if regex_test vlf_header (t0 ++ d1 ++ t1 ++ d2 ++ t2) then []
  else if Number_isFinite (parseFloat t0) && Number_isFinite (parseFloat t1)
          && Number_isFinite (parseFloat t2)
       then [mkVLF (parseFloat t0) (parseFloat t1) (parseFloat t2)]
       else [].
Proof.
  intros Hp1 Hp2 H0 Hd1 H1 Hd2 H2.
  destruct (@three_columns_tight t0 d1 t1 d2 t2 H0 H2) as [Htight Hne].
  replace (pad1 ++ t0 ++ d1 ++ t1 ++ d2 ++ t2 ++ pad2)
    with (pad1 ++ (t0 ++ d1 ++ t1 ++ d2 ++ t2) ++ pad2)
    by (rewrite <- !app_assoc; reflexivity).
  rewrite vlf_row_padded by assumption.
  unfold vlf_line. rewrite three_columns by assumption. reflexivity.
Qed.

Lemma numeric_field_finite (t : jsstring) :
  is_numeric_field t = true -> Number_isFinite (parseFloat t) = true.
Proof.
  unfold is_numeric_field. intros H. apply andb_true_iff in H. tauto.
Qed.

Lemma vlf_header_words : forallb is_word vlf_header = true.
Proof. reflexivity. Qed.

(** *** The header lines of the specification *)

(** A code unit matches a small letter of the pattern exactly when it is
    that letter or its capital. *)
Lemma either_case_fold (p c : N) :
  lower_case p = true ->
  N.eqb (fold_case p) (fold_case c) = either_case p c.
Proof.
  unfold lower_case, either_case, fold_case. intros Hp.
  apply andb_true_iff in Hp. destruct Hp as [Hlo Hhi]. apply N.leb_le in Hlo, Hhi.
  replace (N.leb 65 p && N.leb p 90) with false
    by (symmetry; apply andb_false_iff; right; apply N.leb_gt; lia).
  destruct (N.leb 65 c) eqn:H1; destruct (N.leb c 90) eqn:H2; cbn [andb];
    try apply N.leb_le in H1; try apply N.leb_le in H2;
    try apply N.leb_gt in H1; try apply N.leb_gt in H2;
    destruct (N.eqb_spec c p); destruct (N.eqb_spec c (p - 32)%N); cbn [orb];
    try (apply N.eqb_eq; lia); apply N.eqb_neq; lia.
Qed.

Lemma spells_matches (word w post : jsstring) :
  forallb lower_case word = true -> spells word w = true ->
  matches_at word (w ++ post) = true.
Proof.
  revert w. induction word as [| p word IH]; intros w Hword Hw.
  - destruct w; [| discriminate]. destruct post; reflexivity.
  - destruct w as [| c w]; [discriminate |].
    cbn [forallb] in Hword. apply andb_true_iff in Hword. destruct Hword as [Hp Hword].
    cbn [spells] in Hw. apply andb_true_iff in Hw. destruct Hw as [Hc Hw].
    cbn [app matches_at]. rewrite (@either_case_fold p c Hp), Hc. apply (IH w Hword Hw).
Qed.

Lemma matches_spells (word s : jsstring) :
  forallb lower_case word = true -> matches_at word s = true ->
  exists w post, s = w ++ post /\ spells word w = true.
Proof.
  revert s. induction word as [| p word IH]; intros s Hword Hs.
  - exists [], s. split; reflexivity.
  - destruct s as [| c s]; [discriminate |].
    cbn [forallb] in Hword. apply andb_true_iff in Hword. destruct Hword as [Hp Hword].
    cbn [matches_at] in Hs. apply andb_true_iff in Hs. destruct Hs as [Hc Hs].
    rewrite (@either_case_fold p c Hp) in Hc.
    destruct (IH s Hword Hs) as [w [post [-> Hw]]].
    exists (c :: w), post. split; [reflexivity |].
    cbn [spells]. rewrite Hc, Hw. reflexivity.
Qed.

Lemma regex_test_found (words : list jsstring) (word pre s : jsstring) :
  In word words -> matches_at word s = true -> regex_test words (pre ++ s) = true.
Proof.
  intros Hin Hs.
  assert (Hex : existsb (fun w => matches_at w s) words = true)
    by (apply existsb_exists; exists word; split; assumption).
  induction pre as [| c pre IH].
  - cbn [app]. destruct s; cbn [regex_test]; rewrite Hex; reflexivity.
  - cbn [app regex_test]. rewrite IH. apply orb_true_r.
Qed.

Lemma regex_test_inv (words : list jsstring) (s : jsstring) :
  regex_test words s = true ->
  exists word pre post, In word words /\ s = pre ++ post /\ matches_at word post = true.
Proof.
  induction s as [| c s IH]; cbn [regex_test]; intros H;
    apply orb_true_iff in H; destruct H as [H | H]; try discriminate.
  - apply existsb_exists in H. destruct H as [word [Hin Hm]].
    exists word, [], []. auto.
  - apply existsb_exists in H. destruct H as [word [Hin Hm]].
    exists word, [], (c :: s). auto.
  - destruct (IH H) as [word [pre [post [Hin [-> Hm]]]]].
    exists word, (c :: pre), post. auto.
Qed.

(** The pattern test of the code finds exactly the header lines of the
    specification. *)
Lemma header_line_test (l : jsstring) :
  regex_test vlf_header l = true <-> header_line l.
Proof.
  split.
  - intros H. destruct (regex_test_inv _ _ H) as [word [pre [post [Hin [-> Hm]]]]].
    destruct Hin as [<- | [<- | []]].
    + destruct (@matches_spells (lit "station") post eq_refl Hm) as [w [post' [-> Hw]]].
      left. exists pre, w, post'. split; [reflexivity | exact Hw].
    + destruct (@matches_spells (lit "inphase") post eq_refl Hm) as [w [post' [-> Hw]]].
      right. exists pre, w, post'. split; [reflexivity | exact Hw].
  - intros [[pre [w [post [-> Hw]]]] | [pre [w [post [-> Hw]]]]].
    + apply regex_test_found with (word := lit "station"); [left; reflexivity |].
      apply spells_matches; [reflexivity | exact Hw].
    + apply regex_test_found with (word := lit "inphase"); [right; left; reflexivity |].
      apply spells_matches; [reflexivity | exact Hw].
Qed.

(** The loop body gives every line the records of the specification. *)
Lemma vlf_row_spec (l : jsstring) (out : list VLFRecord) :
  vlf_line_spec l out -> vlf_row l = out.
Proof.
  intros Hspec. destruct Hspec as
      [pad1 t0 d1 t1 d2 t2 pad2 Hp1 Hp2 H0 Hd1 H1 Hd2 H2
      | l Hheader
      | pad1 t0 d1 t1 d2 t2 pad2 Hp1 Hp2 H0 Hd1 H1 Hd2 H2 Hinf
      | l].
  - rewrite vlf_row_three_columns by (assumption || apply numeric_field_is_field; assumption).
    rewrite numeric_line_no_header by assumption.
    rewrite !numeric_field_finite by assumption. reflexivity.
  - unfold vlf_row. destruct (Boolean_str (trim l)); [| reflexivity].
    apply header_line_test in Hheader.
    unfold vlf_line. rewrite regex_test_trim, Hheader by apply vlf_header_words.
    reflexivity.
  - rewrite vlf_row_three_columns by (assumption || apply numeric_field_is_field; assumption).
    rewrite Hinf, andb_false_r.
    destruct (regex_test vlf_header _); reflexivity.
  - reflexivity.
Qed.

Lemma single_lines_no_LF (lines : list jsstring) :
  forallb single_line lines = true -> Forall (fun l => ~ In LF l) lines.
Proof.
  rewrite forallb_forall, Forall_forall. intros Hall l Hl Hin.
  specialize (Hall l Hl). unfold single_line in Hall.
  apply negb_true_iff in Hall.
  assert (Hex : existsb (N.eqb LF) l = true)
    by (apply existsb_exists; exists LF; split; [exact Hin | apply N.eqb_refl]).
  congruence.
Qed.

Lemma parseVLF_joined_lines (lines : list jsstring) (outs : list (list VLFRecord)) :
  forallb single_line lines = true ->
  Forall2 vlf_line_spec lines outs ->
  parseVLFData (join_lines lines) = List.concat outs.
Proof.
  intros Hno Hspec. apply single_lines_no_LF in Hno.
  rewrite parseVLFData_rows by exact Hno. clear Hno.
  induction Hspec as [| l out lines outs Hl _ IH]; [reflexivity |].
  cbn [flat_map List.concat]. rewrite (@vlf_row_spec _ _ Hl), IH. reflexivity.
Qed.

Lemma lines_of_cons (text : jsstring) : exists l ls, lines_of text = l :: ls.
Proof.
  induction text as [| c s [l [ls IH]]]; cbn [lines_of]; [eauto |].
  destruct (N.eqb c LF); [eauto |]. rewrite IH. cbn [cons_first]. eauto.
Qed.

Lemma join_lines_cons (l l2 : jsstring) (ls : list jsstring) :
  join_lines (l :: l2 :: ls) = l ++ LF :: join_lines (l2 :: ls).
Proof. reflexivity. Qed.

(** Every text is its lines, joined by line feeds. *)
Lemma join_lines_of (text : jsstring) : join_lines (lines_of text) = text.
Proof.
  induction text as [| c s IH]; [reflexivity |]. cbn [lines_of].
  destruct (lines_of_cons s) as [l [ls Hs]]. rewrite Hs in IH |- *.
  destruct (N.eqb c LF) eqn:Hc.
  - apply N.eqb_eq in Hc. subst c.
    rewrite join_lines_cons, IH. reflexivity.
  - cbn [cons_first]. destruct ls as [| l2 ls].
    + cbn [join_lines] in IH |- *. rewrite IH. reflexivity.
    + rewrite join_lines_cons in IH |- *. cbn [app]. rewrite IH. reflexivity.
Qed.

Lemma lines_of_single (text : jsstring) : forallb single_line (lines_of text) = true.
Proof.
  induction text as [| c s IH]; [reflexivity |]. cbn [lines_of].
  destruct (N.eqb c LF) eqn:Hc; [exact IH |].
  destruct (lines_of_cons s) as [l [ls Hs]]. rewrite Hs in IH |- *.
  cbn [cons_first forallb] in IH |- *.
  apply andb_true_iff in IH. destruct IH as [Hl Hls]. rewrite Hls, andb_true_r.
  unfold single_line in *. cbn [existsb].
  rewrite N.eqb_sym, Hc. exact Hl.
Qed.

(** C3: the records of a text are the records of its lines, in order: one
    record, with the three parsed values, for every line of three numeric
    columns; none for a line that contains [station] or [inphase], each
    letter in either case; none for a line whose third column does not
    parse to a finite number. *)
Theorem parseVLF_line_by_line (text : jsstring) (outs : list (list VLFRecord)) :
  Forall2 vlf_line_spec (lines_of text) outs ->
  parseVLFData text = List.concat outs.
Proof.
  intros Hspec. rewrite <- (join_lines_of text) at 1.
  apply parseVLF_joined_lines; [apply lines_of_single | exact Hspec].
Qed.

Lemma parseVLF_line_by_line_witness :
  parseVLFData
    (lit "Station,InPhase,Quadrature" ++ [CR; LF]
     ++ lit "0" ++ [9%N] ++ lit "45.2" ++ [9%N] ++ lit "-12.5" ++ [CR; LF]
     ++ lit "1 2 3 STATION" ++ [LF]
     ++ lit "10 52.3 x" ++ [LF]
     ++ lit "  20, 48.7, -18.2" ++ [LF]
     ++ lit "4 5 6 InPhase" ++ [LF]
     ++ lit "7 8")
  = [mkVLF 0 45.2 (-12.5); mkVLF 20 48.7 (-18.2)].
Proof.
  rewrite (@parseVLF_line_by_line _
             [[];
              [mkVLF (parseFloat (lit "0")) (parseFloat (lit "45.2"))
                     (parseFloat (lit "-12.5"))];
              [];
              [];
              [mkVLF (parseFloat (lit "20")) (parseFloat (lit "48.7"))
                     (parseFloat (lit "-18.2"))];
              [];
              vlf_row (lit "7 8")]).
  - vm_compute. reflexivity.
  - match goal with |- Forall2 _ ?ls _ =>
      replace ls with
        [[] ++ lit "Station" ++ lit ",InPhase,Quadrature" ++ [CR];
         lit "0" ++ [9%N] ++ lit "45.2" ++ [9%N] ++ lit "-12.5" ++ [CR];
         lit "1 2 3 " ++ lit "STATION" ++ [];
         lit "10" ++ lit " " ++ lit "52.3" ++ lit " " ++ lit "x";
         lit "  " ++ lit "20" ++ lit ", " ++ lit "48.7" ++ lit ", " ++ lit "-18.2";
         lit "4 5 6 " ++ lit "InPhase" ++ [];
         lit "7 8"]
        by (vm_compute; reflexivity)
    end.
    constructor;
      [apply line_header; left;
       exists [], (lit "Station"), (lit ",InPhase,Quadrature" ++ [CR]);
       split; reflexivity |].
    constructor;
      [apply (@line_numeric [] (lit "0") [9%N] (lit "45.2") [9%N] (lit "-12.5") [CR]);
       vm_compute; reflexivity |].
    constructor;
      [apply line_header; left; exists (lit "1 2 3 "), (lit "STATION"), [];
       split; reflexivity |].
    constructor;
      [apply (@line_third_not_finite [] (lit "10") (lit " ") (lit "52.3") (lit " ")
                                     (lit "x") []);
       vm_compute; reflexivity |].
    constructor;
      [apply (@line_numeric (lit "  ") (lit "20") (lit ", ") (lit "48.7") (lit ", ")
                            (lit "-18.2") []);
       vm_compute; reflexivity |].
    constructor;
      [apply line_header; right; exists (lit "4 5 6 "), (lit "InPhase"), [];
       split; reflexivity |].
    constructor; [apply line_other | constructor].
Defined.

End Strings.

(** ** The resistivity parser *)

Section ResistivityParser.

Import FloatFacts.

(** The loop body, read through the fields of the row. *)
Lemma resistivity_line_resolved (arrayType line : jsstring) :
  resistivity_line arrayType line =
  match row_resolved_kFactor arrayType line with
  | None => []
  | Some K =>
    match resolve_apparentResistivity K (row_resistance line)
                                      (row_supplied_resistivity line) with
    | None => []
    | Some (rho, calc) =>
      if Number_isFinite (row_midpoint line) && Number_isFinite rho
      then [row_record arrayType line K rho calc]
      else []
    end
  end.
Proof.
  unfold resistivity_line, row_resolved_kFactor.
  fold (row_parts line). fold (row_positions line). fold (row_spacing line).
  destruct (regex_test resistivity_header line); [reflexivity |].
  destruct (Nat.ltb (List.length (row_parts line)) 6); [reflexivity |].
  destruct (existsb isNaN (row_positions line)); [reflexivity |].
  destruct (le (row_spacing line) 0); reflexivity.
Qed.

Lemma resolve_kFactor_finite_nonzero (arrayType : jsstring) (positions : list float)
      (supplied K : float) :
  resolve_kFactor arrayType positions supplied = Some K ->
  Number_isFinite K = true /\ strict_eq K 0 = false.
Proof.
  unfold resolve_kFactor.
  destruct (negb (Number_isFinite supplied) || strict_eq supplied 0) eqn:Hsupplied.
  - destruct (calculateGeometricFactor arrayType positions) as [k |]; [| discriminate].
    destruct (negb (Number_isFinite k) || strict_eq k 0) eqn:Hk; [discriminate |].
    intros [= <-]. apply orb_false_iff in Hk. destruct Hk as [Hfin Hnz].
    apply negb_false_iff in Hfin. split; assumption.
  - intros [= <-]. apply orb_false_iff in Hsupplied. destruct Hsupplied as [Hfin Hnz].
    apply negb_false_iff in Hfin. split; assumption.
Qed.

Lemma existsb_isNaN_nth (l : list float) (i : nat) :
  existsb isNaN l = false -> (i < List.length l)%nat -> is_nan (nth i l nan) = false.
Proof.
  intros Hnone Hi.
  destruct (is_nan (nth i l nan)) eqn:Hnan; [| reflexivity].
  rewrite <- Hnone. symmetry. apply existsb_exists.
  exists (nth i l nan). split; [apply nth_In, Hi | exact Hnan].
Qed.

Lemma row_positions_length (line : jsstring) :
  Nat.ltb (List.length (row_parts line)) 6 = false ->
  List.length (row_positions line) = 4%nat.
Proof.
  intros Hlen. apply Nat.ltb_ge in Hlen.
  unfold row_positions. rewrite length_map, length_firstn. lia.
Qed.

(** A row that reaches step 2 and has a finite midpoint has a spacing [> 0]. *)
Lemma row_spacing_positive (arrayType line : jsstring) (K : float) :
  row_resolved_kFactor arrayType line = Some K ->
  Number_isFinite (row_midpoint line) = true ->
  gt (row_spacing line) 0 = true.
Proof.
  unfold row_resolved_kFactor.
  destruct (regex_test resistivity_header line); [discriminate |].
  destruct (Nat.ltb (List.length (row_parts line)) 6) eqn:Hlen; [discriminate |].
  destruct (existsb isNaN (row_positions line)) eqn:Hnan; [discriminate |].
  destruct (le (row_spacing line) 0) eqn:Hle; [discriminate |].
  intros _ Hmid.
  pose proof (row_positions_length line Hlen) as H4.
  unfold gt, row_spacing, Math_abs. apply abs_positive; [| exact Hle].
  apply sub_finite_not_nan.
  - apply existsb_isNaN_nth; [exact Hnan | lia].
  - unfold Number_isFinite, row_midpoint in Hmid.
    apply half_finite, add_finite_l in Hmid. exact Hmid.
Qed.

(** C2 (as amended): the records depend on the page through the selected
    array type only: two pages with the same selected array type give the
    same records on the same text, whatever else differs between them. *)
Theorem parse_depends_on_selected_array_type (page1 page2 : Page) (text : jsstring) :
  arrayType_value page1 = arrayType_value page2 ->
  parseResistivityData page1 text = parseResistivityData page2 text.
Proof.
  intros Hsame. unfold parseResistivityData. rewrite Hsame. reflexivity.
Qed.

Lemma parse_depends_on_selected_array_type_witness :
  parseResistivityData
    (mkPage (lit "wenner") (lit "10 20 30 40 0 9.5") true (lit "ocean") (lit "primary")
            false (lit "resistivity") true)
    (lit "10 20 30 40 0 9.5")
  = parseResistivityData
    (mkPage (lit "wenner") [] false (lit "earth") (lit "warm") true (lit "vlf") false)
    (lit "10 20 30 40 0 9.5").
Proof.
  apply parse_depends_on_selected_array_type. reflexivity.
Defined.

(** C2 (as stated) fails: the parser reads the selected array type from the
    page, and two pages that differ in it give different records on the
    same text. *)
Lemma parse_reads_ambient_array_type :
  ~ (forall (page1 page2 : Page) (text : jsstring),
        parseResistivityData page1 text = parseResistivityData page2 text).
Proof.
  intros Hclaim.
  specialize (Hclaim
    (mkPage (lit "wenner") [] false [] [] false (lit "resistivity") false)
    (mkPage (lit "dipole") [] false [] [] false (lit "resistivity") false)
    (lit "10 20 30 40 0 9.5")).
  apply (f_equal (map arrayType)) in Hclaim. revert Hclaim.
  match goal with |- ?l = ?r -> False =>
    replace l with [lit "wenner"] by (vm_compute; reflexivity);
    replace r with [lit "dipole"] by (vm_compute; reflexivity)
  end.
  discriminate.
Qed.

(** C4 (as amended): for a row that reaches step 2 with geometric factor [K]
    and resistance [R], the row pushes at most one record; with a finite
    field 6 that record carries the supplied value and [isCalculated = false],
    and it is pushed when the midpoint is finite; with field 6 absent or not
    finite and [K] and [R] finite it carries [K * R] and
    [isCalculated = true], and it is pushed when the midpoint and [K * R] are
    finite; in every other case the row is skipped. *)
Theorem apparent_resistivity_resolution (arrayType line : jsstring) (K : float) :
  row_resolved_kFactor arrayType line = Some K ->
  let R := row_resistance line in
  let supplied := row_supplied_resistivity line in
  (Number_isFinite supplied = true ->
   resistivity_line arrayType line =
   if Number_isFinite (row_midpoint line)
   then [row_record arrayType line K supplied false] else [])
  /\ (Number_isFinite supplied = false ->
      Number_isFinite K && Number_isFinite R = true ->
      resistivity_line arrayType line =
      if Number_isFinite (row_midpoint line) && Number_isFinite (K * R)
      then [row_record arrayType line K (K * R) true] else [])
  /\ (Number_isFinite supplied = false ->
      Number_isFinite K && Number_isFinite R = false ->
      resistivity_line arrayType line = []).
Proof.
  intros HK R supplied.
  rewrite resistivity_line_resolved, HK. unfold resolve_apparentResistivity.
  fold R. fold supplied.
  repeat split.
  - intros Hsup. rewrite Hsup. cbn [negb]. rewrite Hsup, andb_true_r. reflexivity.
  - intros Hsup HKR. rewrite Hsup, HKR. reflexivity.
  - intros Hsup HKR. rewrite Hsup, HKR. reflexivity.
Qed.

Lemma apparent_resistivity_resolution_witness :
  resistivity_line (lit "wenner") (lit "10 20 30 40 62.83 9.5 596.89")
  = [row_record (lit "wenner") (lit "10 20 30 40 62.83 9.5 596.89") 62.83 596.89 false]
  /\ resistivity_line (lit "wenner") (lit "10 20 30 40 62.83 9.5")
     = [row_record (lit "wenner") (lit "10 20 30 40 62.83 9.5") 62.83 (62.83 * 9.5) true]
  /\ resistivity_line (lit "wenner") (lit "10 20 30 40 62.83 x") = [].
Proof.
  assert (H1 : row_resolved_kFactor (lit "wenner") (lit "10 20 30 40 62.83 9.5 596.89")
               = Some 62.83) by (vm_compute; reflexivity).
  assert (H2 : row_resolved_kFactor (lit "wenner") (lit "10 20 30 40 62.83 9.5")
               = Some 62.83) by (vm_compute; reflexivity).
  assert (H3 : row_resolved_kFactor (lit "wenner") (lit "10 20 30 40 62.83 x")
               = Some 62.83) by (vm_compute; reflexivity).
  destruct (apparent_resistivity_resolution _ _ H1) as [Hs _].
  destruct (apparent_resistivity_resolution _ _ H2) as [_ [Hc _]].
  destruct (apparent_resistivity_resolution _ _ H3) as [_ [_ Hn]].
  split; [| split].
  - rewrite Hs by (vm_compute; reflexivity). vm_compute. reflexivity.
  - rewrite Hc by (vm_compute; reflexivity). vm_compute. reflexivity.
  - apply Hn; vm_compute; reflexivity.
Defined.

(** C4 (as stated) fails: a row with finite [K] and [R] and no field 6 can
    push no record, because [K * R] overflows. *)
Lemma finite_factor_and_resistance_row_skipped :
  ~ (forall (arrayType line : jsstring) (K : float),
        row_resolved_kFactor arrayType line = Some K ->
        Number_isFinite (row_supplied_resistivity line) = false ->
        Number_isFinite K && Number_isFinite (row_resistance line) = true ->
        exists r, In r (resistivity_line arrayType line)
                  /\ apparentResistivity r = K * row_resistance line
                  /\ isCalculated r = true).
Proof.
  intros Hclaim.
  destruct (Hclaim (lit "wenner") (lit "10 20 30 40 1e200 1e200") 1e200)
    as [r [Hin _]]; try (vm_compute; reflexivity).
  replace (resistivity_line (lit "wenner") (lit "10 20 30 40 1e200 1e200"))
    with (@nil ResistivityRecord) in Hin by (vm_compute; reflexivity).
  exact Hin.
Qed.

(** C6: every record of the parser has [spacing = |p2 - p1| > 0],
    [midpoint = (p1 + p4) / 2], [depth = spacing * 0.519], a finite apparent
    resistivity and a finite, nonzero K factor. *)
Theorem parsed_record_invariants (page : Page) (text : jsstring) (r : ResistivityRecord) :
  In r (parseResistivityData page text) ->
  let p (i : nat) := position_at (positions r) i in
  spacing r = Math_abs (p 1%nat - p 0%nat)
  /\ gt (spacing r) 0 = true
  /\ midpoint r = (p 0%nat + p 3%nat) / 2
  /\ depth r = spacing r * depth_factor
  /\ Number_isFinite (apparentResistivity r) = true
  /\ Number_isFinite (kFactor r) = true
  /\ strict_ne (kFactor r) 0 = true.
Proof.
  intros Hin p. unfold parseResistivityData in Hin.
  apply in_flat_map in Hin. destruct Hin as [line [_ Hin]].
  rewrite resistivity_line_resolved in Hin.
  destruct (row_resolved_kFactor (arrayType_value page) line) as [K |] eqn:HK;
    [| contradiction].
  destruct (resolve_apparentResistivity K (row_resistance line)
              (row_supplied_resistivity line)) as [[rho calc] |]; [| contradiction].
  destruct (Number_isFinite (row_midpoint line) && Number_isFinite rho) eqn:Hfin;
    [| contradiction].
  apply andb_true_iff in Hfin. destruct Hfin as [Hmid Hrho].
  destruct Hin as [<- | []]. subst p. cbn [spacing positions midpoint depth
    apparentResistivity kFactor row_record].
  pose proof (row_spacing_positive _ _ HK Hmid) as Hpos.
  assert (Hres : exists supplied,
             resolve_kFactor (arrayType_value page) (row_positions line) supplied = Some K).
  { unfold row_resolved_kFactor in HK.
    repeat match type of HK with (if ?b then _ else _) = _ => destruct b; [discriminate |] end.
    eexists. exact HK. }
  destruct Hres as [supplied Hres].
  apply resolve_kFactor_finite_nonzero in Hres. destruct Hres as [HKfin HKnz].
  unfold strict_ne. unfold strict_eq in HKnz. rewrite HKnz.
  repeat split; assumption || reflexivity.
Qed.

Lemma parsed_record_invariants_witness :
  let r := mkRes (lit "wenner") [10; 20; 30; 40] 10 25 0x1.4c28f5c28f5c3p+2
                 0x1.f6a7a2955385ep+5 9.5 (0x1.f6a7a2955385ep+5 * 9.5) true in
  spacing r = Math_abs (position_at (positions r) 1 - position_at (positions r) 0)
  /\ gt (spacing r) 0 = true
  /\ midpoint r = (position_at (positions r) 0 + position_at (positions r) 3) / 2
  /\ depth r = spacing r * depth_factor
  /\ Number_isFinite (apparentResistivity r) = true
  /\ Number_isFinite (kFactor r) = true
  /\ strict_ne (kFactor r) 0 = true.
Proof.
  intros r.
  apply (@parsed_record_invariants
           (mkPage (lit "wenner") [] false [] [] false (lit "resistivity") false)
           (lit "10 20 30 40 0 9.5") r).
  vm_compute. left. reflexivity.
Defined.

End ResistivityParser.

(** ** Grouping by spacing *)

Section Sorting.

Import FloatFacts FloatOrder.

Variable A : Type.
Variable comparefn : A -> A -> float.

(** The rank of an element: the comparator puts [y] after [x] exactly when
    the rank of [x] is below the rank of [y]. *)
Variable rk : A -> Z.
Variable ok : A -> Prop.
Hypothesis comparefn_rank :
  forall x y, ok x -> ok y -> gt (comparefn y x) 0 = (rk x <? rk y)%Z.

Lemma insert_by_perm (x : A) (l : list A) : Permutation (insert_by comparefn x l) (x :: l).
Proof.
  induction l as [| y l IH]; cbn [insert_by]; [reflexivity |].
  destruct (gt (comparefn y x) 0); [reflexivity |].
  rewrite IH. apply perm_swap.
Qed.

Lemma fold_insert_perm (l acc : list A) :
  Permutation (fold_left (fun sorted x => insert_by comparefn x sorted) l acc) (acc ++ l).
Proof.
  revert acc. induction l as [| x l IH]; intros acc; cbn [fold_left].
  - rewrite app_nil_r. reflexivity.
  - rewrite IH, insert_by_perm. apply Permutation_middle.
Qed.

Lemma sort_by_perm (l : list A) : Permutation (sort_by comparefn l) l.
Proof. unfold sort_by. apply (fold_insert_perm l []). Qed.

Lemma insert_by_sorted (x : A) (l : list A) :
  ok x -> Forall ok l -> StronglySorted (fun x y : A => (rk x <= rk y)%Z) l ->
  StronglySorted (fun x y : A => (rk x <= rk y)%Z) (insert_by comparefn x l).
Proof.
  intros Hx Hl Hs. induction Hs as [| y l Hs IH Hy]; cbn [insert_by].
  - constructor; constructor.
  - inversion Hl as [| ? ? Hoky Hokl]; subst.
    rewrite (comparefn_rank Hx Hoky).
    destruct (rk x <? rk y)%Z eqn:Hlt.
    + apply Z.ltb_lt in Hlt. constructor; [constructor; assumption |].
      constructor; [lia |].
      rewrite Forall_forall in Hy |- *. intros z Hz. specialize (Hy z Hz).
      cbn beta in *. lia.
    + apply Z.ltb_ge in Hlt. constructor; [apply IH, Hokl |].
      rewrite Forall_forall in Hy |- *. intros z Hz.
      apply (Permutation_in _ (insert_by_perm x l)) in Hz.
      destruct Hz as [<- | Hz]; [exact Hlt | apply Hy, Hz].
Qed.

Lemma sort_by_sorted (l : list A) :
  Forall ok l -> StronglySorted (fun x y : A => (rk x <= rk y)%Z) (sort_by comparefn l).
Proof.
  intros Hl. unfold sort_by.
  assert (Hgen : forall acc, Forall ok acc -> StronglySorted (fun x y : A => (rk x <= rk y)%Z) acc ->
                 StronglySorted (fun x y : A => (rk x <= rk y)%Z)
                   (fold_left (fun sorted x => insert_by comparefn x sorted) l acc)).
  { induction l as [| x l IH]; intros acc Hacc Hs; cbn [fold_left]; [exact Hs |].
    inversion Hl as [| ? ? Hx Hl']; subst.
    apply IH; [exact Hl' | | apply insert_by_sorted; assumption].
    rewrite Forall_forall in *. intros z Hz.
    apply (Permutation_in _ (insert_by_perm x acc)) in Hz.
    destruct Hz as [<- | Hz]; [exact Hx | apply Hacc, Hz]. }
  apply Hgen; constructor.
Qed.

End Sorting.

Section Grouping.

Import FloatFacts FloatOrder FixedStrings.

Lemma key_eqb_eq (a b : fixed_string) : key_eqb a b = true <-> a = b.
Proof.
  destruct a as [s n | x], b as [s' n' | y]; cbn [key_eqb];
    try (split; [discriminate | congruence]).
  - rewrite andb_true_iff, Bool.eqb_true_iff, Z.eqb_eq. split.
    + intros [-> ->]. reflexivity.
    + intros [= -> ->]. split; reflexivity.
  - rewrite Leibniz.eqb_spec. split; [intros ->; reflexivity | congruence].
Qed.

Lemma key_eqb_refl (a : fixed_string) : key_eqb a a = true.
Proof. apply key_eqb_eq. reflexivity. Qed.

Lemma key_eqb_neq (a b : fixed_string) : key_eqb a b = false <-> a <> b.
Proof.
  split.
  - intros Hf Heq. apply key_eqb_eq in Heq. congruence.
  - intros Hne. destruct (key_eqb a b) eqn:Hb; [| reflexivity].
    apply key_eqb_eq in Hb. contradiction.
Qed.

Lemma lookup_push_record (key k : fixed_string) (d : ResistivityRecord) (g : groupedData) :
  lookup k (push_record key d g) =
  if key_eqb key k
  then Some (match lookup k g with Some ds => ds ++ [d] | None => [d] end)
  else lookup k g.
Proof.
  induction g as [| [k0 ds] g IH]; cbn [push_record lookup].
  - destruct (key_eqb key k); reflexivity.
  - destruct (key_eqb k0 key) eqn:H0; cbn [lookup].
    + apply key_eqb_eq in H0. subst k0.
      destruct (key_eqb key k); reflexivity.
    + destruct (key_eqb k0 k) eqn:H1.
      * apply key_eqb_eq in H1. subst k0. rewrite key_eqb_neq in H0.
        replace (key_eqb key k) with false
          by (symmetry; apply key_eqb_neq; congruence).
        reflexivity.
      * exact IH.
Qed.

(** What [groupedData] holds under a key after the records of [data] went
    in. *)
Lemma lookup_fold_push (data : list ResistivityRecord) (g : groupedData) (k : fixed_string) :
  lookup k (fold_left (fun g d => push_record (key_of d) d g) data g) =
  match lookup k g, bucket k data with
  | None, [] => None
  | None, ds => Some ds
  | Some ds0, ds => Some (ds0 ++ ds)
  end.
Proof.
  revert g. induction data as [| d data IH]; intros g; cbn [fold_left bucket filter].
  - destruct (lookup k g) as [ds0 |]; [rewrite app_nil_r |]; reflexivity.
  - rewrite IH, lookup_push_record. fold (bucket k data).
    destruct (key_eqb (key_of d) k); [| reflexivity].
    destruct (lookup k g) as [ds0 |].
    + rewrite <- app_assoc. reflexivity.
    + reflexivity.
Qed.

Lemma lookup_group_records (data : list ResistivityRecord) (k : fixed_string) :
  lookup k (group_records data) =
  match bucket k data with [] => None | ds => Some ds end.
Proof.
  unfold group_records. fold key_of.
  change (fun g d => push_record (toFixed2 (spacing d)) d g)
    with (fun g d => push_record (key_of d) d g).
  rewrite lookup_fold_push. reflexivity.
Qed.

Lemma keys_push_record (key : fixed_string) (d : ResistivityRecord) (g : groupedData) :
  map fst (push_record key d g) =
  if existsb (key_eqb key) (map fst g) then map fst g else map fst g ++ [key].
Proof.
  induction g as [| [k0 ds] g IH]; cbn [push_record map fst existsb]; [reflexivity |].
  destruct (key_eqb k0 key) eqn:H0.
  - apply key_eqb_eq in H0. subst k0. rewrite key_eqb_refl. reflexivity.
  - replace (key_eqb key k0) with false
      by (symmetry; apply key_eqb_neq; rewrite key_eqb_neq in H0; congruence).
    cbn [map fst orb]. rewrite IH.
    destruct (existsb (key_eqb key) (map fst g)); reflexivity.
Qed.

Lemma existsb_key_In (key : fixed_string) (l : list fixed_string) :
  existsb (key_eqb key) l = true <-> In key l.
Proof.
  rewrite existsb_exists. split.
  - intros [k [Hin Heq]]. apply key_eqb_eq in Heq. subst k. exact Hin.
  - intros Hin. exists key. split; [exact Hin | apply key_eqb_refl].
Qed.

(** The keys of [groupedData]: no key twice, and exactly the keys of the
    records. *)
Lemma keys_fold_push (data : list ResistivityRecord) (g : groupedData) :
  NoDup (map fst g) ->
  let keys := map fst (fold_left (fun g d => push_record (key_of d) d g) data g) in
  NoDup keys /\ forall k, In k keys <-> In k (map fst g) \/ In k (map key_of data).
Proof.
  revert g. induction data as [| d data IH]; intros g Hnd; cbn [fold_left map].
  - split; [exact Hnd | intros k; cbn [In]; tauto].
  - assert (Hstep : NoDup (map fst (push_record (key_of d) d g))
                    /\ forall k, In k (map fst (push_record (key_of d) d g))
                                 <-> In k (map fst g) \/ k = key_of d).
    { rewrite keys_push_record.
      destruct (existsb (key_eqb (key_of d)) (map fst g)) eqn:Hex.
      - apply existsb_key_In in Hex. split; [exact Hnd |].
        intros k. split; [tauto | intros [H | ->]; assumption].
      - split.
        + apply NoDup_app; [exact Hnd | repeat constructor; intros [] |].
          intros k Hk [<- | []].
          apply existsb_key_In in Hk. congruence.
        + intros k. rewrite in_app_iff. cbn [In]. intuition auto. }
    destruct Hstep as [Hnd' Hkeys'].
    destruct (IH _ Hnd') as [Hnd'' Hkeys''].
    split; [exact Hnd'' |].
    intros k. rewrite Hkeys'', Hkeys'. cbn [In]. intuition (subst; auto).
Qed.

Lemma keys_group_records (data : list ResistivityRecord) :
  NoDup (map fst (group_records data))
  /\ forall k, In k (map fst (group_records data)) <-> In k (map key_of data).
Proof.
  destruct (@keys_fold_push data [] (NoDup_nil _)) as [Hnd Hkeys].
  split; [exact Hnd |].
  intros k. unfold group_records.
  change (fun g d => push_record (toFixed2 (spacing d)) d g)
    with (fun g d => push_record (key_of d) d g).
  rewrite Hkeys. cbn [map In]. tauto.
Qed.

Lemma finite_not_nan (x : float) : Number_isFinite x = true -> is_nan x = false.
Proof.
  unfold Number_isFinite, is_finite. intros H.
  apply negb_true_iff, orb_false_iff in H. tauto.
Qed.

Lemma for_each_map (X Y : Type) (f : X -> completion Y) (g : X -> Y) (l : list X) :
  (forall x, In x l -> f x = Normal (g x)) -> for_each f l = Normal (map g l).
Proof.
  induction l as [| x l IH]; intros Hf; cbn [for_each map]; [reflexivity |].
  rewrite (Hf x (or_introl eq_refl)). cbn [bind].
  rewrite IH by (intros y Hy; apply Hf; right; exact Hy). reflexivity.
Qed.

Lemma NoDup_map_in (X Y : Type) (f : X -> Y) (l : list X) :
  NoDup l -> (forall x y, In x l -> In y l -> f x = f y -> x = y) -> NoDup (map f l).
Proof.
  induction 1 as [| x l Hx Hnd IH]; intros Hinj; cbn [map]; constructor.
  - intros Hin. apply in_map_iff in Hin. destruct Hin as [y [Hfy Hy]].
    apply Hx. replace x with y; [exact Hy |].
    apply Hinj; [right; exact Hy | left; reflexivity | exact Hfy].
  - apply IH. intros a b Ha Hb. apply Hinj; right; assumption.
Qed.

Lemma StronglySorted_strict (l : list float) :
  StronglySorted (fun x y => (rank x <= rank y)%Z) l ->
  NoDup (map rank l) ->
  Forall (fun x => is_nan x = false) l ->
  StronglySorted (fun x y => (x <? y) = true) l.
Proof.
  induction 1 as [| x l Hs IH Hx]; intros Hnd Hok; constructor.
  - inversion Hnd; inversion Hok; subst. apply IH; assumption.
  - inversion Hnd as [| ? ? Hnotin _]; inversion Hok as [| ? ? Hokx Hokl]; subst.
    rewrite Forall_forall in *. intros y Hy.
    rewrite (@ltb_rank x y Hokx (Hokl y Hy)). apply Z.ltb_lt.
    specialize (Hx y Hy). cbn beta in Hx.
    assert (rank x <> rank y) by (intros Heq; apply Hnotin; rewrite Heq; apply in_map, Hy).
    lia.
Qed.

Lemma StronglySorted_map (X Y : Type) (f : X -> Y) (R : Y -> Y -> Prop) (l : list X) :
  StronglySorted R (map f l) -> StronglySorted (fun a b => R (f a) (f b)) l.
Proof.
  induction l as [| x l IH]; intros Hs; [constructor |].
  cbn [map] in Hs. inversion Hs as [| ? ? Hs' Hx]; subst.
  constructor; [apply IH, Hs' |].
  rewrite Forall_forall in *. intros y Hy. apply Hx, in_map, Hy.
Qed.

Lemma StronglySorted_weaken (X : Type) (R R' : X -> X -> Prop) (P : X -> Prop) (l : list X) :
  (forall x y, P x -> P y -> R x y -> R' x y) ->
  Forall P l -> StronglySorted R l -> StronglySorted R' l.
Proof.
  intros HR HP Hs. induction Hs as [| x l Hs IH Hx]; constructor.
  - inversion HP; subst. apply IH. assumption.
  - inversion HP as [| ? ? HPx HPl]; subst.
    rewrite Forall_forall in *. intros y Hy. apply HR; auto.
Qed.

Section ValidData.

Variable data : list ResistivityRecord.
Hypothesis data_valid : forallb valid_record data = true.

Lemma data_record_valid (d : ResistivityRecord) :
  In d data -> gt (spacing d) 0 = true /\ Number_isFinite (midpoint d) = true.
Proof.
  intros Hd. rewrite forallb_forall in data_valid.
  apply andb_true_iff, data_valid, Hd.
Qed.

(** Every key reads back to a number that has the same key. *)
Lemma key_read_back (k : fixed_string) :
  In k (map fst (group_records data)) ->
  toFixed2 (Number_of k) = k /\ is_nan (Number_of k) = false
  /\ exists d, In d data /\ key_of d = k.
Proof.
  intros Hk. apply (proj2 (keys_group_records data)) in Hk.
  apply in_map_iff in Hk. destruct Hk as [d [<- Hd]].
  destruct (data_record_valid d Hd) as [Hpos _].
  destruct (@toFixed2_read_back _ Hpos) as [Hback Hnan].
  unfold key_of. split; [exact Hback |]. split; [exact Hnan |].
  exists d. split; [exact Hd | reflexivity].
Qed.

Lemma sorted_spacings_perm :
  Permutation (sorted_spacings data) (map Number_of (map fst (group_records data))).
Proof. apply sort_by_perm. Qed.

Lemma sorted_spacing_key (s : float) :
  In s (sorted_spacings data) ->
  exists k, In k (map fst (group_records data)) /\ s = Number_of k.
Proof.
  intros Hs. apply (Permutation_in _ sorted_spacings_perm) in Hs.
  apply in_map_iff in Hs. destruct Hs as [k [<- Hk]]. exists k. auto.
Qed.

Lemma sorted_spacings_not_nan :
  Forall (fun x => is_nan x = false) (sorted_spacings data).
Proof.
  rewrite Forall_forall. intros s Hs.
  destruct (sorted_spacing_key s Hs) as [k [Hk ->]].
  apply (key_read_back k Hk).
Qed.

Lemma sorted_spacings_ascending :
  StronglySorted (fun x y => (x <? y) = true) (sorted_spacings data).
Proof.
  apply StronglySorted_strict.
  - unfold sorted_spacings.
    apply sort_by_sorted with (ok := fun x => is_nan x = false).
    + intros x y Hx Hy. rewrite sub_gt_zero, ltb_rank by assumption. reflexivity.
    + rewrite Forall_forall. intros s Hs.
      apply in_map_iff in Hs. destruct Hs as [k [<- Hk]].
      apply (key_read_back k Hk).
  - apply (Permutation_NoDup (l := map rank (map Number_of (map fst (group_records data))))).
    + apply Permutation_map. symmetry. apply sorted_spacings_perm.
    + rewrite map_map. apply NoDup_map_in; [apply keys_group_records |].
      intros k1 k2 H1 H2 Hrank.
      destruct (key_read_back k1 H1) as [B1 [N1 _]].
      destruct (key_read_back k2 H2) as [B2 [N2 _]].
      destruct (@rank_eq _ _ N1 N2 Hrank) as [Heq | [s1 [s2 [Z1 Z2]]]].
      * rewrite <- B1, <- B2, Heq. reflexivity.
      * rewrite <- B1, <- B2. unfold toFixed2. rewrite Z1, Z2. reflexivity.
  - apply sorted_spacings_not_nan.
Qed.

(** The loop over the sorted spacings finds the bucket of every spacing. *)
Lemma plot_group_found (s : float) :
  In s (sorted_spacings data) ->
  plot_group (group_records data) s = Normal (group_of data s)
  /\ bucket (toFixed2 s) data <> [].
Proof.
  intros Hs. destruct (sorted_spacing_key s Hs) as [k [Hk ->]].
  destruct (key_read_back k Hk) as [Hback [_ [d [Hd Hkey]]]].
  assert (Hne : bucket k data <> []).
  { intros Hnil. assert (Hin : In d (bucket k data)).
    { apply filter_In. split; [exact Hd | apply key_eqb_eq, Hkey]. }
    rewrite Hnil in Hin. exact Hin. }
  unfold plot_group, group_of. rewrite Hback, lookup_group_records.
  split; [| exact Hne].
  destruct (bucket k data); [congruence | reflexivity].
Qed.

Lemma groupBySpacing_groups :
  groupBySpacing data = Normal (map (group_of data) (sorted_spacings data)).
Proof.
  unfold groupBySpacing. fold (sorted_spacings data).
  apply for_each_map. intros s Hs. apply plot_group_found, Hs.
Qed.

Lemma bucket_sorted (k : fixed_string) :
  let points := sort_by (fun a b => midpoint a - midpoint b) (bucket k data) in
  Permutation points (bucket k data)
  /\ StronglySorted (fun a b => (midpoint a <=? midpoint b) = true) points.
Proof.
  intros points.
  assert (Hperm : Permutation points (bucket k data)) by apply sort_by_perm.
  assert (Hok : Forall (fun d => is_nan (midpoint d) = false) (bucket k data)).
  { rewrite Forall_forall. intros d Hd. apply filter_In in Hd.
    apply finite_not_nan, (data_record_valid d), Hd. }
  split; [exact Hperm |].
  apply StronglySorted_weaken
    with (R := fun a b => (rank (midpoint a) <= rank (midpoint b))%Z)
         (P := fun d => is_nan (midpoint d) = false).
  - intros a b Ha Hb Hle. rewrite (@leb_rank _ _ Ha Hb). apply Z.leb_le, Hle.
  - rewrite Forall_forall in *. intros d Hd. apply Hok.
    apply (Permutation_in _ Hperm), Hd.
  - apply sort_by_sorted with (ok := fun d => is_nan (midpoint d) = false) (rk := fun d => rank (midpoint d)).
    + intros x y Hx Hy. rewrite sub_gt_zero, ltb_rank by assumption. reflexivity.
    + exact Hok.
Qed.

End ValidData.

(** C7: on records with a spacing [> 0] and a finite midpoint, the grouping
    returns groups whose spacings are strictly ascending; the groups have
    pairwise different keys, every record is in the group of its spacing
    rounded to two decimals, the points of a group are the records with its
    key, sorted ascending by midpoint, and the spacings [10.001] and
    [10.004] have the same key, [10.00]. *)
Theorem groups_by_rounded_spacing (data : list ResistivityRecord) :
  forallb valid_record data = true ->
  exists groups,
    groupBySpacing data = Normal groups
    /\ StronglySorted (fun g g' => (group_spacing g <? group_spacing g') = true) groups
    /\ NoDup (map (fun g => toFixed2 (group_spacing g)) groups)
    /\ (forall d, In d data ->
          exists g, In g groups /\ toFixed2 (group_spacing g) = toFixed2 (spacing d))
    /\ (forall g, In g groups ->
          exists points,
            Permutation points (bucket (toFixed2 (group_spacing g)) data)
            /\ points <> []
            /\ StronglySorted (fun a b => (midpoint a <=? midpoint b) = true) points
            /\ measuredPoints g = map point_of (filter (fun p => negb (isCalculated p)) points)
            /\ calculatedPoints g = map point_of (filter isCalculated points))
    /\ (toFixed2 (parseFloat (lit "10.001")) = FixedDigits false 1000
        /\ toFixed2 (parseFloat (lit "10.004")) = FixedDigits false 1000
        /\ fixed_text false 1000 = lit "10.00").
Proof.
  intros Hvalid. exists (map (group_of data) (sorted_spacings data)).
  split; [apply groupBySpacing_groups, Hvalid |].
  split.
  { apply (@StronglySorted_map _ _ group_spacing (fun x y => (x <? y) = true)).
    rewrite map_map. cbn [group_of series_of group_spacing].
    rewrite map_id. apply sorted_spacings_ascending, Hvalid. }
  split.
  { rewrite map_map. cbn [group_of series_of group_spacing].
    apply (Permutation_NoDup (l := map toFixed2 (map Number_of (map fst (group_records data))))).
    - apply Permutation_map. symmetry. apply sorted_spacings_perm.
    - rewrite map_map.
      rewrite (map_ext_in _ (fun k => k)), map_id; [apply keys_group_records |].
      intros k Hk. apply (key_read_back data Hvalid k Hk). }
  split.
  { intros d Hd.
    assert (Hk : In (key_of d) (map fst (group_records data)))
      by (apply keys_group_records, in_map, Hd).
    destruct (key_read_back data Hvalid _ Hk) as [Hback _].
    exists (group_of data (Number_of (key_of d))). split.
    - apply in_map. apply (Permutation_in _ (Permutation_sym (sorted_spacings_perm data))).
      apply in_map, Hk.
    - exact Hback. }
  split.
  { intros g Hg. apply in_map_iff in Hg. destruct Hg as [s [<- Hs]].
    destruct (plot_group_found data Hvalid s Hs) as [_ Hne].
    destruct (bucket_sorted data Hvalid (toFixed2 s)) as [Hperm Hsorted].
    exists (sort_by (fun a b => midpoint a - midpoint b) (bucket (toFixed2 s) data)).
    cbn [group_of series_of group_spacing measuredPoints calculatedPoints].
    repeat split; try assumption.
    intros Hnil. rewrite Hnil in Hperm. apply Permutation_nil in Hperm. contradiction. }
  repeat split; vm_compute; reflexivity.
Qed.

Lemma groups_by_rounded_spacing_witness :
  let r (a m rho : float) (c : bool) := mkRes (lit "wenner") [] a m 0 1 1 rho c in
  let data := [r 20 35 3 true; r 10.001 25 1 false; r 20 15 4 false;
               r 10.004 5 2 true; r 10.004 15 7 false] in
  let groups := [mkGroup 10 [mkPoint 15 7; mkPoint 25 1] [mkPoint 5 2];
                 mkGroup 20 [mkPoint 15 4] [mkPoint 35 3]] in
  groupBySpacing data = Normal groups
  /\ StronglySorted (fun g g' => (group_spacing g <? group_spacing g') = true) groups.
Proof.
  intros r data groups.
  assert (Hvalid : forallb valid_record data = true) by (vm_compute; reflexivity).
  assert (Hvalue : groupBySpacing data = Normal groups) by (vm_compute; reflexivity).
  destruct (groups_by_rounded_spacing data Hvalid) as [groups' [Heq [Hsorted _]]].
  split; [exact Hvalue |].
  rewrite Hvalue in Heq. injection Heq as <-. exact Hsorted.
Defined.

End Grouping.

(** ** The parsers, line by line *)

Section ParserLines.

Import FloatFacts.

Local Open Scope nat_scope.

(** The parser runs the loop body on every line of the text, in order. *)
Lemma parseVLFData_lines (text : jsstring) :
  parseVLFData text = flat_map vlf_row (lines_of text).
Proof.
  rewrite <- (join_lines_of text) at 1.
  apply parseVLFData_rows, single_lines_no_LF, lines_of_single.
Qed.

Lemma nonblank_lines_of (text : jsstring) :
  nonblank_lines text = filter Boolean_str (map trim (lines_of text)).
Proof.
  rewrite <- (join_lines_of text) at 1.
  apply nonblank_lines_join, single_lines_no_LF, lines_of_single.
Qed.

(** A line feed between two texts separates their lines. *)
Lemma lines_of_app_LF (a b : jsstring) :
  lines_of (a ++ LF :: b) = lines_of a ++ lines_of b.
Proof.
  induction a as [| c a IH]; cbn [app lines_of].
  - rewrite N.eqb_refl. reflexivity.
  - destruct (N.eqb c LF); [rewrite IH; reflexivity |].
    rewrite IH. destruct (lines_of_cons a) as [l [ls Ha]]. rewrite Ha. reflexivity.
Qed.

Lemma trim_cons_space (c : N) (l : jsstring) :
  isWhiteSpace c = true -> trim (c :: l) = trim l.
Proof. intros Hc. unfold trim. cbn [trimStart]. rewrite Hc. reflexivity. Qed.

(** White space in front of a text adds no line that is not blank. *)
Lemma nonblank_lines_padding_app (pad text : jsstring) :
  is_padding pad = true -> nonblank_lines (pad ++ text) = nonblank_lines text.
Proof.
  intros Hpad. rewrite !nonblank_lines_of.
  induction pad as [| c pad IH]; [reflexivity |].
  cbn [is_padding forallb] in Hpad. apply andb_true_iff in Hpad.
  destruct Hpad as [Hc Hpad]. specialize (IH Hpad).
  cbn [app lines_of]. destruct (N.eqb c LF).
  - cbn [map filter]. exact IH.
  - destruct (lines_of_cons (pad ++ text)) as [l [ls Hl]]. rewrite Hl in IH |- *.
    cbn [cons_first map filter] in IH |- *.
    rewrite (@trim_cons_space c l Hc). exact IH.
Qed.

Lemma lines_of_padding (pad : jsstring) :
  is_padding pad = true -> Forall (fun l => is_padding l = true) (lines_of pad).
Proof.
  induction pad as [| c pad IH]; intros Hpad; cbn [lines_of].
  - constructor; [reflexivity | constructor].
  - cbn [is_padding forallb] in Hpad. apply andb_true_iff in Hpad.
    destruct Hpad as [Hc Hpad]. specialize (IH Hpad).
    destruct (N.eqb c LF); [constructor; [reflexivity | exact IH] |].
    destruct (lines_of_cons pad) as [l [ls Hl]]. rewrite Hl in IH |- *.
    inversion IH as [| ? ? Hl0 Hls]; subst. cbn [cons_first].
    constructor; [| exact Hls].
    unfold is_padding in *. cbn [forallb]. rewrite Hc. exact Hl0.
Qed.

Lemma trim_padding (pad : jsstring) : is_padding pad = true -> trim pad = [].
Proof.
  intros Hpad. unfold trim. rewrite (@trimStart_padding pad Hpad). reflexivity.
Qed.

Lemma blank_lines_filtered (ls : list jsstring) :
  Forall (fun l => is_padding l = true) ls -> filter Boolean_str (map trim ls) = [].
Proof.
  induction 1 as [| l ls Hl _ IH]; [reflexivity |].
  cbn [map filter]. rewrite (@trim_padding l Hl). exact IH.
Qed.

(** The lines of a text followed by white space: the white space extends
    the last line and adds blank lines. *)
Lemma lines_of_app_padding (text pad : jsstring) :
  is_padding pad = true ->
  filter Boolean_str (map trim (lines_of (text ++ pad)))
  = filter Boolean_str (map trim (lines_of text)).
Proof.
  intros Hpad.
  assert (Hgen : forall pre,
             filter Boolean_str
               (map trim (match lines_of (text ++ pad) with
                          | l :: ls => (pre ++ l) :: ls | [] => [] end))
             = filter Boolean_str
                 (map trim (match lines_of text with
                            | l :: ls => (pre ++ l) :: ls | [] => [] end))).
  { induction text as [| c text IH]; intros pre.
    - cbn [app lines_of]. pose proof (@lines_of_padding pad Hpad) as Hls.
      destruct (lines_of_cons pad) as [l [ls Hl0]]. rewrite Hl0 in Hls |- *.
      inversion Hls as [| ? ? Hl Hrest]; subst.
      cbn [map filter]. rewrite (@blank_lines_filtered _ Hrest).
      rewrite (@trim_app_padding pre l Hl), app_nil_r. reflexivity.
    - cbn [app lines_of]. destruct (N.eqb c LF).
      + specialize (IH []).
        destruct (lines_of_cons (text ++ pad)) as [l [ls Hl]].
        destruct (lines_of_cons text) as [l' [ls' Hl']].
        rewrite Hl, Hl' in IH |- *. cbn [app] in IH.
        cbn [map filter] in IH |- *. rewrite IH. reflexivity.
      + specialize (IH (pre ++ [c])).
        destruct (lines_of_cons (text ++ pad)) as [l [ls Hl]].
        destruct (lines_of_cons text) as [l' [ls' Hl']].
        rewrite Hl, Hl' in IH |- *. cbn [cons_first].
        rewrite <- !app_assoc in IH. exact IH. }
  specialize (Hgen []). cbn [app] in Hgen.
  destruct (lines_of_cons (text ++ pad)) as [l [ls Hl]].
  destruct (lines_of_cons text) as [l' [ls' Hl']].
  rewrite Hl, Hl' in Hgen |- *. exact Hgen.
Qed.

(** The [trim] of the whole text, which the resistivity parser applies
    first, changes nothing: its lines are trimmed one by one, and blank lines
    are dropped. *)
Lemma nonblank_lines_trim (text : jsstring) :
  nonblank_lines (trim text) = nonblank_lines text.
Proof.
  destruct (trim_decompose text) as [pad1 [pad2 [H1 [H2 Htext]]]].
  rewrite Htext at 2.
  rewrite (@nonblank_lines_padding_app _ _ H1), !nonblank_lines_of.
  symmetry. apply lines_of_app_padding. exact H2.
Qed.

Lemma parseResistivityData_lines (page : Page) (text : jsstring) :
  parseResistivityData page text =
  flat_map (resistivity_line (arrayType_value page))
           (filter Boolean_str (map trim (lines_of text))).
Proof.
  unfold parseResistivityData. cbv zeta.
  rewrite nonblank_lines_trim, nonblank_lines_of. reflexivity.
Qed.

Lemma vlf_line_finite (line : jsstring) (r : VLFRecord) :
  In r (vlf_line line) ->
  Number_isFinite (station r) = true
  /\ Number_isFinite (inPhase r) = true
  /\ Number_isFinite (quadrature r) = true.
Proof.
  unfold vlf_line. destruct (regex_test vlf_header line); [intros [] |].
  destruct (Nat.ltb _ 3); [intros [] |]. cbv zeta.
  destruct (Number_isFinite _ && Number_isFinite _ && Number_isFinite _) eqn:Hfin;
    [| intros []].
  intros [<- | []]. cbn [station inPhase quadrature].
  apply andb_true_iff in Hfin. destruct Hfin as [Hfin H3].
  apply andb_true_iff in Hfin. destruct Hfin as [H1 H2]. auto.
Qed.

(** X1: every record of the VLF parser holds three finite numbers, whatever
    the text. *)
Theorem parseVLF_records_finite (text : jsstring) (r : VLFRecord) :
  In r (parseVLFData text) ->
  Number_isFinite (station r) = true
  /\ Number_isFinite (inPhase r) = true
  /\ Number_isFinite (quadrature r) = true.
Proof.
  unfold parseVLFData. rewrite in_flat_map. intros [line [_ Hr]].
  exact (vlf_line_finite line r Hr).
Qed.

Lemma parseVLF_records_finite_witness :
  let r := mkVLF 10 52.3 (-15.8) in
  Number_isFinite (station r) = true
  /\ Number_isFinite (inPhase r) = true
  /\ Number_isFinite (quadrature r) = true.
Proof.
  intros r.
  apply (@parseVLF_records_finite (lit "0 45.2 -12.5" ++ [LF] ++ lit "10,52.3,-15.8") r).
  vm_compute. right. left. reflexivity.
Defined.

Lemma nonblank_lines_blank (text : jsstring) :
  is_padding text = true -> nonblank_lines text = [].
Proof.
  intros Hpad. rewrite nonblank_lines_of.
  apply blank_lines_filtered, lines_of_padding, Hpad.
Qed.

(** X2: a text of white space only (spaces, tabs, line ends), the empty text
    included, gives no record in either parser. *)
Theorem blank_text_no_record (page : Page) (text : jsstring) :
  forallb isWhiteSpace text = true ->
  parseVLFData text = [] /\ parseResistivityData page text = [].
Proof.
  intros Hpad. split.
  - unfold parseVLFData. rewrite (@nonblank_lines_blank text Hpad). reflexivity.
  - unfold parseResistivityData. cbv zeta.
    rewrite nonblank_lines_trim, (@nonblank_lines_blank text Hpad). reflexivity.
Qed.

Lemma blank_text_no_record_witness :
  let page := mkPage (lit "wenner") [] false [] [] false (lit "vlf") false in
  let text := lit "  " ++ [CR; LF; 9%N; LF] in
  parseVLFData text = [] /\ parseResistivityData page text = [].
Proof.
  intros page text. apply (@blank_text_no_record page text). reflexivity.
Defined.

(** X3: the VLF parser reads a text line by line: the records of two texts
    put one after the other with a line end between them, LF or CRLF, are
    the records of the first followed by the records of the second. *)
Theorem parseVLF_concatenation (a b : jsstring) :
  parseVLFData (a ++ LF :: b) = parseVLFData a ++ parseVLFData b
  /\ parseVLFData (a ++ CR :: LF :: b) = parseVLFData a ++ parseVLFData b.
Proof.
  assert (Hlf : forall a b, parseVLFData (a ++ LF :: b) = parseVLFData a ++ parseVLFData b).
  { intros x y. rewrite !parseVLFData_lines, lines_of_app_LF. apply flat_map_app. }
  split; [apply Hlf |].
  change (a ++ CR :: LF :: b) with (a ++ [CR] ++ LF :: b).
  rewrite app_assoc, Hlf. f_equal.
  unfold parseVLFData. rewrite !nonblank_lines_of.
  rewrite lines_of_app_padding; reflexivity.
Qed.

(** X4: the resistivity parser reads a text line by line as well, its
    initial [trim] of the whole text notwithstanding. *)
Theorem parseResistivity_concatenation (page : Page) (a b : jsstring) :
  parseResistivityData page (a ++ LF :: b)
  = parseResistivityData page a ++ parseResistivityData page b
  /\ parseResistivityData page (a ++ CR :: LF :: b)
     = parseResistivityData page a ++ parseResistivityData page b.
Proof.
  assert (Hlf : forall a b,
             parseResistivityData page (a ++ LF :: b)
             = parseResistivityData page a ++ parseResistivityData page b).
  { intros x y. rewrite !parseResistivityData_lines, lines_of_app_LF.
    rewrite map_app, filter_app. apply flat_map_app. }
  split; [apply Hlf |].
  change (a ++ CR :: LF :: b) with (a ++ [CR] ++ LF :: b).
  rewrite app_assoc, Hlf. f_equal.
  rewrite !parseResistivityData_lines, lines_of_app_padding; reflexivity.
Qed.

(** *** Columns *)

Lemma join_cons (sep p q : jsstring) (rest : list jsstring) :
  join sep (p :: q :: rest) = p ++ sep ++ join sep (q :: rest).
Proof. reflexivity. Qed.

Lemma join_LF (lines : list jsstring) : join [LF] lines = join_lines lines.
Proof.
  induction lines as [| l [| l2 ls] IH]; [reflexivity | reflexivity |].
  rewrite join_cons, join_lines_cons, IH. reflexivity.
Qed.

(** Splitting a row of columns joined by delimiters gives the columns
    back. *)
Lemma split_run_join (d : jsstring) (row : list jsstring) (b : bool) :
  is_delimiter_run d = true ->
  Forall (fun t => is_field t = true) row -> row <> [] ->
  split_run b (join d row) = row.
Proof.
  intros Hd Hrow. revert b.
  induction Hrow as [| t row Ht Hrow IH]; intros b Hne; [congruence |].
  destruct (field_facts t Ht) as [Htne [Hnd _]].
  destruct row as [| t2 row].
  - apply split_run_field, Hnd.
  - rewrite join_cons.
    rewrite (@split_run_field_delimiters t d (join d (t2 :: row)) b Hnd Hd (or_introl Htne)).
    f_equal. apply IH. discriminate.
Qed.

Lemma fields_trimmed (row : list jsstring) :
  Forall (fun t => is_field t = true) row ->
  filter Boolean_str (map trim row) = row /\ filter Boolean_str row = row.
Proof.
  induction 1 as [| t row Ht _ [IH1 IH2]]; [split; reflexivity |].
  destruct (field_facts t Ht) as [Htne [_ Htight]].
  cbn [map filter]. rewrite (trim_tight Htight), IH1, IH2.
  destruct t; [congruence | split; reflexivity].
Qed.

Lemma split_join_fields (d : jsstring) (row : list jsstring) :
  is_delimiter_run d = true ->
  Forall (fun t => is_field t = true) row ->
  filter Boolean_str (map trim (split_delimiters (join d row))) = row
  /\ filter Boolean_str (split_delimiters (join d row)) = row.
Proof.
  intros Hd Hrow. destruct row as [| t row]; [split; reflexivity |].
  unfold split_delimiters.
  rewrite (@split_run_join d (t :: row) false Hd Hrow) by discriminate.
  apply fields_trimmed, Hrow.
Qed.

(** X5: splitting undoes joining: a row of columns (nonempty strings
    without tab, comma or white space) joined by any run of delimiters is
    split back into the same columns, by the VLF parser (which trims the
    pieces) and by the resistivity parser (which does not). *)
Theorem split_join_round_trip (d : jsstring) (row : list jsstring) :
  is_delimiter_run d = true ->
  forallb is_field row = true ->
  filter Boolean_str (map trim (split_delimiters (join d row))) = row
  /\ row_parts (join d row) = row.
Proof.
  intros Hd Hrow. apply split_join_fields; [exact Hd |].
  apply Forall_forall. rewrite forallb_forall in Hrow. exact Hrow.
Qed.

Lemma split_join_round_trip_witness :
  let row := [lit "10"; lit "20"; lit "30"; lit "40"; lit "62.83"; lit "9.5"] in
  filter Boolean_str (map trim (split_delimiters (join (lit ", ") row))) = row
  /\ row_parts (join (lit ", ") row) = row.
Proof.
  intros row. apply (@split_join_round_trip (lit ", ") row); reflexivity.
Defined.

Lemma field_not_blank (t : jsstring) :
  is_field t = true -> forallb isWhiteSpace t = false.
Proof.
  unfold is_field. destruct t as [| c t]; [discriminate |]. cbn [Boolean_str forallb].
  rewrite andb_true_l, !andb_true_iff, !negb_true_iff.
  intros [[_ Hc] _]. rewrite Hc. reflexivity.
Qed.

Lemma trimEnd_padding (p : jsstring) : is_padding p = true -> trimEnd p = [].
Proof.
  intros Hp. unfold trimEnd. rewrite trimStart_padding; [reflexivity |].
  unfold is_padding in Hp. rewrite forallb_rev. exact Hp.
Qed.

Lemma trimEnd_decompose (l : jsstring) :
  exists pad, is_padding pad = true /\ l = trimEnd l ++ pad.
Proof.
  destruct (trimStart_decompose (rev l)) as [pad [Hpad Hl]].
  exists (rev pad). split.
  - unfold is_padding in *. rewrite forallb_rev. exact Hpad.
  - unfold trimEnd. rewrite <- rev_app_distr, <- Hl, rev_involutive. reflexivity.
Qed.

(** The trim of a line that starts with a column and holds another one. *)
Lemma trim_columns (t0 m t2 z : jsstring) :
  is_field t0 = true -> is_field t2 = true ->
  trim (t0 ++ m ++ t2 ++ z) = t0 ++ m ++ t2 ++ trimEnd z.
Proof.
  intros H0 H2. unfold trim.
  destruct (field_facts t0 H0) as [_ [_ [Hs0 _]]].
  destruct (field_facts t2 H2) as [_ [_ [_ He2]]].
  rewrite trimStart_app, (@field_not_blank t0 H0), Hs0.
  rewrite (app_assoc t0 m), trimEnd_app, forallb_app, (@field_not_blank t2 H2).
  cbn [andb]. rewrite trimEnd_app, <- app_assoc.
  destruct (forallb isWhiteSpace z) eqn:Hz; [| reflexivity].
  rewrite He2, (@trimEnd_padding z Hz), app_nil_r. reflexivity.
Qed.

(** What is left of the end of a line after a delimiter and the trim is
    empty or starts with a delimiter again. *)
Lemma trimEnd_after_delimiter (d rest : jsstring) :
  is_delimiter_run d = true ->
  trimEnd (d ++ rest) = []
  \/ exists c y, trimEnd (d ++ rest) = c :: y /\ isDelimiter c = true.
Proof.
  intros Hd. destruct (trimEnd_decompose (d ++ rest)) as [pad [_ Heq]].
  destruct (trimEnd (d ++ rest)) as [| c y]; [left; reflexivity | right].
  exists c, y. split; [reflexivity |].
  unfold is_delimiter_run in Hd. destruct d as [| c' d]; [discriminate |].
  cbn [Boolean_str forallb app andb] in Hd, Heq. injection Heq as <- _.
  apply andb_true_iff in Hd. destruct Hd as [Hc _]. exact Hc.
Qed.

Lemma split_run_third_column (t x : jsstring) :
  is_field t = true ->
  x = [] \/ (exists c y, x = c :: y /\ isDelimiter c = true) ->
  exists more, split_run true (t ++ x) = t :: more.
Proof.
  intros Ht Hx. destruct (field_facts t Ht) as [Hne [Hnd _]].
  destruct Hx as [-> | [c [y [-> Hc]]]].
  - rewrite app_nil_r. exists []. apply split_run_field, Hnd.
  - exists (split_run true y). change (c :: y) with ([c] ++ y).
    apply split_run_field_delimiters; [exact Hnd | | left; exact Hne].
    unfold is_delimiter_run. cbn [Boolean_str forallb]. rewrite Hc. reflexivity.
Qed.

(** The columns of a line of at least three columns start with the
    three. *)
Lemma leading_columns (t0 d1 t1 d2 t2 d3 rest : jsstring) :
  is_field t0 = true -> is_delimiter_run d1 = true ->
  is_field t1 = true -> is_delimiter_run d2 = true ->
  is_field t2 = true -> is_delimiter_run d3 = true ->
  exists more,
    filter Boolean_str
      (map trim (split_delimiters (trim (t0 ++ d1 ++ t1 ++ d2 ++ t2 ++ d3 ++ rest))))
    = t0 :: t1 :: t2 :: more.
Proof.
  intros H0 Hd1 H1 Hd2 H2 Hd3.
  replace (t0 ++ d1 ++ t1 ++ d2 ++ t2 ++ d3 ++ rest)
    with (t0 ++ (d1 ++ t1 ++ d2) ++ t2 ++ d3 ++ rest)
    by (rewrite <- !app_assoc; reflexivity).
  rewrite (@trim_columns t0 (d1 ++ t1 ++ d2) t2 (d3 ++ rest) H0 H2).
  rewrite <- !app_assoc.
  destruct (@split_run_third_column t2 (trimEnd (d3 ++ rest)) H2
              (@trimEnd_after_delimiter d3 rest Hd3)) as [more Hmore].
  destruct (field_facts t0 H0) as [Hne0 [Hnd0 Ht0]].
  destruct (field_facts t1 H1) as [Hne1 [Hnd1 Ht1]].
  destruct (field_facts t2 H2) as [Hne2 [Hnd2 Ht2]].
  unfold split_delimiters.
  rewrite (@split_run_field_delimiters t0 d1 _ false Hnd0 Hd1 (or_intror eq_refl)).
  rewrite (@split_run_field_delimiters t1 d2 _ true Hnd1 Hd2 (or_introl Hne1)).
  rewrite Hmore. cbn [map filter].
  rewrite (trim_tight Ht0), (trim_tight Ht1), (trim_tight Ht2).
  destruct t0; [congruence |]. destruct t1; [congruence |]. destruct t2; [congruence |].
  cbn [Boolean_str]. eauto.
Qed.

(** X6: the VLF parser reads the first three columns of a line and ignores
    whatever follows them: a line of three columns, a delimiter and any
    further text gives the reading of the three columns when they are finite
    numbers and the line does not match the header pattern, and nothing
    otherwise. *)
Theorem vlf_extra_columns_ignored (t0 d1 t1 d2 t2 d3 rest : jsstring) :
  is_field t0 = true -> is_delimiter_run d1 = true ->
  is_field t1 = true -> is_delimiter_run d2 = true ->
  is_field t2 = true -> is_delimiter_run d3 = true ->
  let line := t0 ++ d1 ++ t1 ++ d2 ++ t2 ++ d3 ++ rest in
  vlf_row line =
  if regex_test vlf_header line then []
  else if Number_isFinite (parseFloat t0) && Number_isFinite (parseFloat t1)
          && Number_isFinite (parseFloat t2)
       then [mkVLF (parseFloat t0) (parseFloat t1) (parseFloat t2)]
       else [].
Proof.
  intros H0 Hd1 H1 Hd2 H2 Hd3 line.
  destruct (@leading_columns t0 d1 t1 d2 t2 d3 rest H0 Hd1 H1 Hd2 H2 Hd3) as [more Hparts].
  fold line in Hparts. unfold vlf_row, vlf_line. rewrite Hparts.
  rewrite (@regex_test_trim vlf_header line vlf_header_words).
  assert (Hne : Boolean_str (trim line) = true).
  { unfold line.
    replace (t0 ++ d1 ++ t1 ++ d2 ++ t2 ++ d3 ++ rest)
      with (t0 ++ (d1 ++ t1 ++ d2) ++ t2 ++ d3 ++ rest)
      by (rewrite <- !app_assoc; reflexivity).
    rewrite (@trim_columns t0 (d1 ++ t1 ++ d2) t2 (d3 ++ rest) H0 H2).
    destruct (field_facts t0 H0) as [Hne0 _]. destruct t0; [congruence | reflexivity]. }
  rewrite Hne. reflexivity.
Qed.

Lemma vlf_extra_columns_ignored_witness :
  vlf_row (lit "0" ++ [9%N] ++ lit "45.2" ++ [9%N] ++ lit "-12.5" ++ lit ", " ++ lit "7 gain x")
  = [mkVLF (parseFloat (lit "0")) (parseFloat (lit "45.2")) (parseFloat (lit "-12.5"))].
Proof.
  rewrite (@vlf_extra_columns_ignored (lit "0") [9%N] (lit "45.2") [9%N] (lit "-12.5")
             (lit ", ") (lit "7 gain x"));
    reflexivity.
Defined.

(** *** Uploaded rows *)

Lemma join_not_blank (d t : jsstring) (row : list jsstring) :
  is_field t = true -> forallb isWhiteSpace (join d (t :: row)) = false.
Proof.
  intros Ht. destruct row as [| t2 row].
  - apply field_not_blank, Ht.
  - rewrite join_cons, forallb_app, (@field_not_blank t Ht). reflexivity.
Qed.

Lemma join_tight (d : jsstring) (row : list jsstring) :
  Forall (fun t => is_field t = true) row -> trim (join d row) = join d row.
Proof.
  intros Hrow. unfold trim.
  assert (Hend : trimEnd (join d row) = join d row).
  { induction Hrow as [| t row Ht Hrow IH]; [reflexivity |].
    destruct (field_facts t Ht) as [_ [_ [_ He]]].
    destruct row as [| t2 row]; [exact He |].
    rewrite join_cons, app_assoc, trimEnd_app.
    inversion Hrow as [| ? ? Ht2 _]; subst.
    rewrite (@join_not_blank d t2 row Ht2), IH. reflexivity. }
  destruct Hrow as [| t row Ht Hrow]; [reflexivity |].
  destruct (field_facts t Ht) as [_ [_ [Hs _]]].
  destruct row as [| t2 row]; [cbn [join]; rewrite Hs; exact Hend |].
  rewrite join_cons in Hend |- *.
  rewrite trimStart_app, (@field_not_blank t Ht), Hs. exact Hend.
Qed.

Lemma forallb_join (P : N -> bool) (d : jsstring) (row : list jsstring) :
  forallb P d = true -> Forall (fun t => forallb P t = true) row ->
  forallb P (join d row) = true.
Proof.
  intros Hd. induction 1 as [| t row Ht Hrow IH]; [reflexivity |].
  destruct row as [| t2 row]; [exact Ht |].
  rewrite join_cons, !forallb_app, Ht, Hd. exact IH.
Qed.

Lemma numeric_field_chars (P : N -> bool) (t : jsstring) :
  forallb P [48; 49; 50; 51; 52; 53; 54; 55; 56; 57; 43; 45; 46; 101; 69]%N = true ->
  is_numeric_field t = true -> forallb P t = true.
Proof.
  intros HP Ht. unfold is_numeric_field in Ht.
  apply andb_true_iff in Ht. destruct Ht as [Ht _].
  apply andb_true_iff in Ht. destruct Ht as [_ Ht].
  revert Ht. apply forallb_impl. intros c. apply numeric_char_all, HP.
Qed.

(** What the loop of the VLF parser pushes for a row of numeric columns
    joined by tabs. *)
Lemma vlf_row_joined (row : list jsstring) :
  Forall (fun t => is_numeric_field t = true) row ->
  vlf_row (join [9%N] row) = row_reading row.
Proof.
  intros Hrow.
  assert (Hfields : Forall (fun t => is_field t = true) row)
    by (revert Hrow; apply Forall_impl; intros t; apply numeric_field_is_field).
  unfold vlf_row. rewrite (@join_tight [9%N] row Hfields).
  destruct row as [| t0 row]; [reflexivity |].
  assert (Hne : Boolean_str (join [9%N] (t0 :: row)) = true).
  { inversion Hfields as [| ? ? H0 _]; subst.
    pose proof (@join_not_blank [9%N] t0 row H0) as Hnb.
    destruct (join [9%N] (t0 :: row)); [discriminate | reflexivity]. }
  rewrite Hne. unfold vlf_line.
  rewrite no_header_without_initial.
  2:{ apply forallb_join; [reflexivity |].
      revert Hrow. apply Forall_impl. intros t. apply numeric_field_chars. reflexivity. }
  destruct (@split_join_fields [9%N] (t0 :: row) eq_refl Hfields) as [Hparts _].
  rewrite Hparts.
  destruct row as [| t1 [| t2 row]]; [reflexivity | reflexivity |].
  inversion Hrow as [| ? ? H0 Hrow1]; subst.
  inversion Hrow1 as [| ? ? H1 Hrow2]; subst.
  inversion Hrow2 as [| ? ? H2 _]; subst.
  cbn [List.length Nat.ltb Nat.leb parseFloat_at nth_error row_reading].
  rewrite (numeric_field_finite _ H0), (numeric_field_finite _ H1),
    (numeric_field_finite _ H2).
  reflexivity.
Qed.

(** The records of rows of numeric columns, joined by tabs and line
    feeds. *)
Lemma parseVLFData_joined_rows (data : list (list jsstring)) :
  Forall (Forall (fun t => is_numeric_field t = true)) data ->
  parseVLFData (join_lines (map (join [9%N]) data)) = flat_map row_reading data.
Proof.
  intros Hrows. rewrite parseVLFData_rows.
  - induction Hrows as [| row data Hrow _ IH]; [reflexivity |].
    cbn [map flat_map]. rewrite (vlf_row_joined Hrow), IH. reflexivity.
  - apply Forall_forall. intros l Hl. apply in_map_iff in Hl.
    destruct Hl as [row [<- Hrow]]. rewrite Forall_forall in Hrows.
    specialize (Hrows row Hrow). intros Hin.
    assert (Hall : forallb (fun c => negb (N.eqb c LF)) (join [9%N] row) = true).
    { apply forallb_join; [reflexivity |].
      revert Hrows. apply Forall_impl. intros t. apply numeric_field_chars. reflexivity. }
    rewrite forallb_forall in Hall. specialize (Hall LF Hin). discriminate.
Qed.

(** X7: an uploaded file comes back from the text area as it was parsed:
    for rows of numeric columns, the VLF parser applied to the text that
    [handleFileUpload] builds (columns joined by tabs, rows by line feeds)
    gives, row by row, the reading of the first three columns of every row
    that has at least three. *)
Theorem uploaded_rows_round_trip (data : list (list jsstring)) :
  forallb (forallb is_numeric_field) data = true ->
  parseVLFData (csvText data) = flat_map row_reading data.
Proof.
  intros Hdata. unfold csvText. rewrite join_LF.
  apply parseVLFData_joined_rows.
  apply Forall_forall. intros row Hrow. apply Forall_forall. intros t Ht.
  rewrite forallb_forall in Hdata. specialize (Hdata row Hrow).
  rewrite forallb_forall in Hdata. exact (Hdata t Ht).
Qed.

Lemma uploaded_rows_round_trip_witness :
  parseVLFData (csvText [[lit "0"; lit "45.2"; lit "-12.5"]; [];
                         [lit "10"; lit "52.3"; lit "-15.8"; lit "3"]; [lit "20"; lit "48.7"]])
  = [mkVLF (parseFloat (lit "0")) (parseFloat (lit "45.2")) (parseFloat (lit "-12.5"));
     mkVLF (parseFloat (lit "10")) (parseFloat (lit "52.3")) (parseFloat (lit "-15.8"))].
Proof.
  rewrite uploaded_rows_round_trip; reflexivity.
Defined.

End ParserLines.

(** ** Further properties of the resistivity parser *)

Section ResistivityRecords.

Import FloatFacts.

Lemma add_finite_r (x y : float) : is_finite (x + y) = true -> is_finite y = true.
Proof.
  rewrite !is_finite_Prim2SF, add_spec. unfold SF64add, SFadd.
  destruct (Prim2SF x) as [sx|sx| |sx mx ex], (Prim2SF y) as [sy|sy| |sy my ey];
    try reflexivity; try discriminate.
  destruct sx, sy; discriminate.
Qed.

Lemma resolve_apparentResistivity_calculated (K R supplied rho : float) :
  resolve_apparentResistivity K R supplied = Some (rho, true) ->
  rho = K * R /\ Number_isFinite R = true.
Proof.
  unfold resolve_apparentResistivity.
  destruct (negb (Number_isFinite supplied)); [| discriminate].
  destruct (Number_isFinite K && Number_isFinite R) eqn:HKR; [| discriminate].
  intros [= <-]. apply andb_true_iff in HKR. destruct HKR as [_ HR]. auto.
Qed.

Lemma row_positions_no_nan (arrayType line : jsstring) (K : float) :
  row_resolved_kFactor arrayType line = Some K ->
  List.length (row_positions line) = 4%nat
  /\ existsb isNaN (row_positions line) = false.
Proof.
  unfold row_resolved_kFactor.
  destruct (regex_test resistivity_header line); [discriminate |].
  destruct (Nat.ltb (List.length (row_parts line)) 6) eqn:Hlen; [discriminate |].
  destruct (existsb isNaN (row_positions line)) eqn:Hnan; [discriminate |].
  intros _. split; [apply row_positions_length, Hlen | reflexivity].
Qed.

(** X8: every record of the resistivity parser carries the array type
    selected on the page, four positions none of which is [NaN], with finite
    first and last positions and a finite midpoint; and a record marked as
    calculated has the apparent resistivity [kFactor * resistance], with a
    finite resistance. *)
Theorem parsed_record_provenance (page : Page) (text : jsstring) (r : ResistivityRecord) :
  In r (parseResistivityData page text) ->
  arrayType r = arrayType_value page
  /\ List.length (positions r) = 4%nat
  /\ existsb isNaN (positions r) = false
  /\ Number_isFinite (position_at (positions r) 0) = true
  /\ Number_isFinite (position_at (positions r) 3) = true
  /\ Number_isFinite (midpoint r) = true
  /\ (isCalculated r = true ->
      apparentResistivity r = kFactor r * resistance r
      /\ Number_isFinite (resistance r) = true).
Proof.
  intros Hin. unfold parseResistivityData in Hin.
  apply in_flat_map in Hin. destruct Hin as [line [_ Hin]].
  rewrite resistivity_line_resolved in Hin.
  destruct (row_resolved_kFactor (arrayType_value page) line) as [K |] eqn:HK;
    [| contradiction].
  destruct (resolve_apparentResistivity K (row_resistance line)
              (row_supplied_resistivity line)) as [[rho calc] |] eqn:Hrho; [| contradiction].
  destruct (Number_isFinite (row_midpoint line) && Number_isFinite rho) eqn:Hfin;
    [| contradiction].
  apply andb_true_iff in Hfin. destruct Hfin as [Hmid _].
  destruct Hin as [<- | []].
  cbn [arrayType positions midpoint apparentResistivity kFactor resistance isCalculated
       row_record].
  destruct (row_positions_no_nan _ _ HK) as [Hlen Hnan].
  pose proof Hmid as Hsum. unfold Number_isFinite, row_midpoint in Hsum.
  apply half_finite in Hsum.
  repeat split; try assumption.
  - exact (add_finite_l _ _ Hsum).
  - exact (add_finite_r _ _ Hsum).
  - subst calc. apply (resolve_apparentResistivity_calculated _ _ _ Hrho).
  - subst calc. apply (resolve_apparentResistivity_calculated _ _ _ Hrho).
Qed.

Lemma parsed_record_provenance_witness :
  let page := mkPage (lit "wenner") [] false [] [] false (lit "resistivity") false in
  let r := mkRes (lit "wenner") [10; 20; 30; 40] 10 25 0x1.4c28f5c28f5c3p+2
                 62.83 9.5 (62.83 * 9.5) true in
  arrayType r = arrayType_value page
  /\ List.length (positions r) = 4%nat
  /\ existsb isNaN (positions r) = false
  /\ Number_isFinite (position_at (positions r) 0) = true
  /\ Number_isFinite (position_at (positions r) 3) = true
  /\ Number_isFinite (midpoint r) = true
  /\ (isCalculated r = true ->
      apparentResistivity r = kFactor r * resistance r
      /\ Number_isFinite (resistance r) = true).
Proof.
  intros page r.
  apply (@parsed_record_provenance page (lit "10 20 30 40 62.83 9.5") r).
  vm_compute. left. reflexivity.
Defined.

Lemma resolve_kFactor_supplied (arrayType : jsstring) (positions : list float) (k : float) :
  Number_isFinite k && strict_ne k 0 = true ->
  resolve_kFactor arrayType positions k = Some k.
Proof.
  intros Hk. apply andb_true_iff in Hk. destruct Hk as [Hfin Hnz].
  unfold resolve_kFactor, strict_ne, strict_eq in *.
  apply negb_true_iff in Hnz. rewrite Hfin, Hnz. reflexivity.
Qed.

Lemma resistivity_line_supplied (t1 t2 line : jsstring) :
  supplies_kFactor line = true ->
  resistivity_line t2 line = map (with_arrayType t2) (resistivity_line t1 line).
Proof.
  intros Hs. unfold supplies_kFactor in Hs.
  rewrite !resistivity_line_resolved. unfold row_resolved_kFactor.
  destruct (regex_test resistivity_header line); [reflexivity |].
  destruct (Nat.ltb (List.length (row_parts line)) 6); [reflexivity |].
  destruct (existsb isNaN (row_positions line)); [reflexivity |].
  destruct (le (row_spacing line) 0); [reflexivity |].
  cbn [orb] in Hs.
  rewrite !(resolve_kFactor_supplied _ _ _ Hs).
  destruct (resolve_apparentResistivity _ _ _) as [[rho calc] |]; [| reflexivity].
  destruct (Number_isFinite (row_midpoint line) && Number_isFinite rho); reflexivity.
Qed.

(** X9: the selected array type matters only where the geometric factor is
    computed.  On a text whose rows all supply a finite, nonzero K in
    column 5, unless they are skipped before the K factor is looked at, two
    pages with different array types give the same records,
    up to the array type that the records carry. *)
Theorem supplied_factor_ignores_array_type (page1 page2 : Page) (text : jsstring) :
  forallb supplies_kFactor (nonblank_lines text) = true ->
  parseResistivityData page2 text
  = map (with_arrayType (arrayType_value page2)) (parseResistivityData page1 text).
Proof.
  intros Hall. unfold parseResistivityData. cbv zeta.
  rewrite nonblank_lines_trim.
  induction (nonblank_lines text) as [| line lines IH]; [reflexivity |].
  cbn [forallb] in Hall. apply andb_true_iff in Hall. destruct Hall as [Hline Hall].
  cbn [flat_map]. rewrite map_app, <- (IH Hall).
  rewrite (resistivity_line_supplied (arrayType_value page1) (arrayType_value page2) _ Hline).
  reflexivity.
Qed.

Lemma supplied_factor_ignores_array_type_witness :
  let text := lit "P1 P2 P3 P4 K R" ++ [LF] ++ lit "10 20 30 40 62.83 9.5" ++ [LF]
              ++ lit "0 20 40 60 125.66 4.5 565.47" in
  let page1 := mkPage (lit "wenner") [] false [] [] false (lit "resistivity") false in
  let page2 := mkPage (lit "dipole") [] false [] [] false (lit "resistivity") false in
  parseResistivityData page2 text
  = map (with_arrayType (lit "dipole")) (parseResistivityData page1 text).
Proof.
  intros text page1 page2.
  apply (@supplied_factor_ignores_array_type page1 page2 text). reflexivity.
Defined.

End ResistivityRecords.

(** ** Further properties of the geometric factor *)

Module FactorFacts.

Import FloatFacts FloatOrder.

Local Open Scope Z_scope.

Lemma str_eqb_eq (a b : jsstring) : str_eqb a b = true -> a = b.
Proof.
  revert b. induction a as [| x a IH]; intros [| y b]; cbn [str_eqb];
    try discriminate; [reflexivity |].
  intros H. apply andb_true_iff in H. destruct H as [Hxy Hab].
  apply N.eqb_eq in Hxy. rewrite Hxy, (IH b Hab). reflexivity.
Qed.

(** The first shift of a rounding keeps a mantissa that reaches the least
    positive number. *)
Lemma shr_fexp_pos_scaled (m e : Z) (l : location) :
  0 < m -> 2 ^ (-1074 - e) <= m ->
  0 < shr_m (fst (shr_fexp prec emax m e l)) /\ -1074 <= snd (shr_fexp prec emax m e l).
Proof.
  intros Hm He. unfold shr_fexp, shr. rewrite fexp_eq.
  destruct m as [| q | q]; try lia. cbn [Zdigits2].
  pose proof (digits2_pos_bounds q) as [Hlo _].
  destruct (Z.max (Zpos (digits2_pos q) + e - 53) (-1074) - e) as [| p | p] eqn:Hn;
    cbn [fst snd]; rewrite ?shr_record_of_loc_m; try lia.
  split; [| lia].
  rewrite iter_shr_1_m by (rewrite shr_record_of_loc_m; lia).
  rewrite shr_record_of_loc_m.
  apply Z.div_str_pos. split; [apply Z.pow_pos_nonneg; lia |].
  destruct (Z.max_spec (Zpos (digits2_pos q) + e - 53) (-1074)) as [[_ Hmax] | [_ Hmax]].
  - replace (Zpos p) with (-1074 - e) by lia. exact He.
  - apply Z.le_trans with (2 := Hlo). apply Z.pow_le_mono_r; lia.
Qed.

Lemma binary_round_aux_nonzero_scaled (s : bool) (m e : Z) (l : location) :
  0 < m -> 2 ^ (-1074 - e) <= m ->
  nonzero_of_sign s (binary_round_aux prec emax s m e l).
Proof.
  intros Hm He. unfold binary_round_aux.
  pose proof (@shr_fexp_pos_scaled m e l Hm He) as [H1 He1].
  destruct (shr_fexp prec emax m e l) as [mrs' e']. cbn [fst snd] in H1, He1.
  assert (Hr : 0 < round_nearest_even (shr_m mrs') (loc_of_shr_record mrs')).
  { destruct (loc_of_shr_record mrs') as [| []]; cbn [round_nearest_even]; try lia.
    destruct (Z.even (shr_m mrs')); lia. }
  pose proof (@shr_fexp_pos _ e' loc_Exact Hr He1) as [H2 _].
  destruct (shr_fexp prec emax _ e' loc_Exact) as [mrs'' e'']. cbn [fst] in H2.
  destruct (shr_m mrs'') as [| p | p]; try lia.
  destruct (e'' <=? emax - prec); reflexivity.
Qed.

(** A number [> 0] is a positive finite number or [+Infinity]. *)
Lemma gt_zero_spec (y : float) :
  gt y 0 = true ->
  (exists m e, Prim2SF y = S754_finite false m e) \/ Prim2SF y = S754_infinity false.
Proof.
  unfold gt. rewrite ltb_spec, Prim2SF_zero.
  destruct (Prim2SF y) as [s | s | | s m e]; try discriminate.
  - destruct s; [discriminate | right; reflexivity].
  - destruct s; [discriminate | left; eauto].
Qed.

Lemma nonzero_positive_gt (x : float) :
  nonzero_of_sign false (Prim2SF x) -> gt x 0 = true.
Proof.
  unfold gt. rewrite ltb_spec, Prim2SF_zero.
  destruct (Prim2SF x) as [s | s | | s m e]; cbn [nonzero_of_sign]; try contradiction;
    intros ->; reflexivity.
Qed.

(** The product of a normal number [>= 1] and a number [> 0] is [> 0]: it
    does not underflow to zero. *)
Lemma mul_at_least_one_positive (x y : float) (mx : positive) (ex : Z) :
  Prim2SF x = S754_finite false mx ex -> 2 ^ 52 <= Zpos mx -> -52 <= ex ->
  gt y 0 = true -> gt (x * y) 0 = true.
Proof.
  intros Hx Hmx Hex Hy. apply nonzero_positive_gt.
  rewrite mul_spec, Hx. unfold SF64mul.
  pose proof (Prim2SF_valid y) as Hv.
  destruct (@gt_zero_spec y Hy) as [[my [ey Hy']] | Hy']; rewrite Hy' in Hv |- *;
    [| reflexivity].
  cbn [SFmul xorb]. destruct (@valid_finite _ _ _ Hv) as [Hey _].
  apply binary_round_aux_nonzero_scaled; [lia |].
  rewrite Pos2Z.inj_mul.
  apply Z.le_trans with (2 ^ 52 * 1); [| apply Z.mul_le_mono_nonneg; lia].
  change (2 ^ 52 * 1) with (2 ^ 52). apply Z.pow_le_mono_r; lia.
Qed.

Local Open Scope float_scope.

Lemma two_pi_positive (a : float) : gt a 0 = true -> gt (2 * Math_PI * a) 0 = true.
Proof.
  apply (@mul_at_least_one_positive (2 * Math_PI) a 7074237752028440 (-50));
    [reflexivity | lia | lia].
Qed.

(** *** The difference of two numbers, taken either way *)

Lemma SFabs_binary_round_aux (s : bool) (m e : Z) (l : location) :
  SFabs (binary_round_aux prec emax s m e l) = SFabs (binary_round_aux prec emax false m e l).
Proof.
  unfold binary_round_aux.
  destruct (shr_fexp prec emax m e l) as [mrs' e'].
  destruct (shr_fexp prec emax _ e' loc_Exact) as [mrs'' e''].
  destruct (shr_m mrs''); try reflexivity.
  destruct (Z.leb e'' (emax - prec)%Z); reflexivity.
Qed.

Lemma SFabs_binary_normalize_opp (m e : Z) :
  SFabs (binary_normalize prec emax (- m) e false) = SFabs (binary_normalize prec emax m e false).
Proof.
  destruct m as [| p | p]; cbn [Z.opp binary_normalize]; try reflexivity;
    unfold binary_round; destruct (shl_align p e _) as [mz ez];
    rewrite (SFabs_binary_round_aux true); reflexivity.
Qed.

Lemma SFabs_sub_swap (x y : spec_float) : SFabs (SFsub prec emax x y) = SFabs (SFsub prec emax y x).
Proof.
  destruct x as [sx | sx | | sx mx ex], y as [sy | sy | | sy my ey]; try reflexivity;
    try (destruct sx, sy; reflexivity).
  cbn [SFsub]. rewrite (Z.min_comm ey ex).
  rewrite <- SFabs_binary_normalize_opp. f_equal. f_equal. lia.
Qed.

(** [|x - y| = |y - x|], exactly. *)
Lemma abs_sub_swap (x y : float) : Math_abs (x - y) = Math_abs (y - x).
Proof.
  unfold Math_abs. apply Prim2SF_inj.
  rewrite !abs_spec, !sub_spec. apply SFabs_sub_swap.
Qed.

End FactorFacts.

Section GeometricFactor.

Import FloatFacts FloatOrder FactorFacts.

(** X10: the calculator gives a factor only for the array types [wenner],
    [schlumberger] and [dipole], spelled so, and only for four positions each
    of which is a number other than zero; for every other array type and for
    fewer positions the result is [null]. *)
Theorem geometric_factor_defined (arrayType : jsstring) (positions : list float) (K : float) :
  calculateGeometricFactor arrayType positions = Some K ->
  In arrayType [lit "wenner"; lit "schlumberger"; lit "dipole"]
  /\ exists p1 p2 p3 p4 rest,
       positions = p1 :: p2 :: p3 :: p4 :: rest
       /\ forallb (fun p => negb (isNaN p) && strict_ne p 0) [p1; p2; p3; p4] = true.
Proof.
  unfold calculateGeometricFactor.
  destruct positions as [| p1 [| p2 [| p3 [| p4 rest]]]]; try discriminate.
  destruct (not_number p1 || not_number p2 || not_number p3 || not_number p4) eqn:Hp;
    [discriminate |].
  intros HK. split.
  - destruct (str_eqb arrayType (lit "wenner")) eqn:Hw;
      [apply str_eqb_eq in Hw; left; symmetry; exact Hw |].
    destruct (str_eqb arrayType (lit "schlumberger")) eqn:Hs;
      [apply str_eqb_eq in Hs; right; left; symmetry; exact Hs |].
    destruct (str_eqb arrayType (lit "dipole")) eqn:Hd;
      [apply str_eqb_eq in Hd; right; right; left; symmetry; exact Hd | discriminate].
  - exists p1, p2, p3, p4, rest. split; [reflexivity |].
    apply orb_false_iff in Hp. destruct Hp as [Hp H4].
    apply orb_false_iff in Hp. destruct Hp as [Hp H3].
    apply orb_false_iff in Hp. destruct Hp as [H1 H2].
    unfold not_number in H1, H2, H3, H4.
    apply orb_false_iff in H1, H2, H3, H4.
    destruct H1 as [Hz1 Hn1], H2 as [Hz2 Hn2], H3 as [Hz3 Hn3], H4 as [Hz4 Hn4].
    unfold strict_ne, isNaN. cbn [forallb].
    rewrite Hz1, Hn1, Hz2, Hn2, Hz3, Hn3, Hz4, Hn4. reflexivity.
Qed.

Lemma geometric_factor_defined_witness :
  In (lit "wenner") [lit "wenner"; lit "schlumberger"; lit "dipole"]
  /\ exists p1 p2 p3 p4 rest,
       [10; 20; 30; 40] = p1 :: p2 :: p3 :: p4 :: rest
       /\ forallb (fun p => negb (isNaN p) && strict_ne p 0) [p1; p2; p3; p4] = true.
Proof.
  apply (@geometric_factor_defined (lit "wenner") [10; 20; 30; 40]
           (2 * Math_PI * Math_abs (20 - 10))).
  reflexivity.
Defined.

(** X11: a Wenner factor, when the calculator gives one, is
    [2 * Math.PI * |p2 - p1|] and is [> 0]: the product does not underflow
    to zero (it can overflow to [Infinity]). *)
Theorem wenner_factor_positive (positions : list float) (K : float) :
  calculateGeometricFactor (lit "wenner") positions = Some K ->
  gt K 0 = true
  /\ K = 2 * Math_PI * Math_abs (position_at positions 1 - position_at positions 0).
Proof.
  unfold calculateGeometricFactor.
  destruct positions as [| p1 [| p2 [| p3 [| p4 rest]]]]; try discriminate.
  destruct (not_number p1 || not_number p2 || not_number p3 || not_number p4);
    [discriminate |].
  change (str_eqb (lit "wenner") (lit "wenner")) with true. cbv iota zeta.
  destruct (gt (Math_abs (p2 - p1)) 0) eqn:Ha; [| discriminate].
  intros [= <-]. split; [apply two_pi_positive, Ha | reflexivity].
Qed.

Lemma wenner_factor_positive_witness :
  gt (2 * Math_PI * Math_abs (20 - 10)) 0 = true
  /\ 2 * Math_PI * Math_abs (20 - 10)
     = 2 * Math_PI * Math_abs (position_at [10; 20; 30; 40] 1 - position_at [10; 20; 30; 40] 0).
Proof.
  apply (@wenner_factor_positive [10; 20; 30; 40]). reflexivity.
Defined.

(** X12: a Schlumberger factor does not depend on the direction in which
    the electrodes are listed: the four positions in reverse order give the
    same result, [null] included. *)
Theorem schlumberger_mirror (p1 p2 p3 p4 : float) :
  calculateGeometricFactor (lit "schlumberger") [p4; p3; p2; p1]
  = calculateGeometricFactor (lit "schlumberger") [p1; p2; p3; p4].
Proof.
  unfold calculateGeometricFactor.
  replace (not_number p4 || not_number p3 || not_number p2 || not_number p1)
    with (not_number p1 || not_number p2 || not_number p3 || not_number p4)
    by (destruct (not_number p1), (not_number p2), (not_number p3), (not_number p4);
        reflexivity).
  rewrite (abs_sub_swap p1 p4), (abs_sub_swap p2 p3). reflexivity.
Qed.

Lemma sub_self_zero_or_nan (p : float) :
  match Prim2SF (p - p) with S754_zero _ | S754_nan => True | _ => False end.
Proof.
  rewrite sub_spec. unfold SF64sub.
  destruct (Prim2SF p) as [s | s | | s m e]; cbn [SFsub]; try exact I.
  - destruct s; exact I.
  - destruct s; exact I.
  - rewrite Z.sub_diag. exact I.
Qed.

(** [|p - p| / a] is never [> 0]. *)
Lemma no_separation (p a : float) : gt (Math_abs (p - p) / a) 0 = false.
Proof.
  unfold gt, Math_abs. rewrite ltb_spec, div_spec, abs_spec, Prim2SF_zero.
  pose proof (sub_self_zero_or_nan p) as Hp.
  destruct (Prim2SF (p - p)) as [s | s | | s m e]; try contradiction.
  - unfold SF64div. cbn [SFabs SFdiv].
    destruct (Prim2SF a) as [sa | sa | | sa ma ea]; reflexivity.
  - reflexivity.
Qed.

(** X13: the fallback of the dipole-dipole branch.  When the second and the
    third position coincide the separation factor [n] is not [> 0], and the
    calculator gives for [dipole] what it gives for [wenner]:
    [2 * Math.PI * |p2 - p1|], or [null]. *)
Theorem dipole_fallback_is_wenner (p1 p2 p4 : float) :
  calculateGeometricFactor (lit "dipole") [p1; p2; p2; p4]
  = calculateGeometricFactor (lit "wenner") [p1; p2; p2; p4].
Proof.
  unfold calculateGeometricFactor.
  destruct (not_number p1 || not_number p2 || not_number p2 || not_number p4);
    [reflexivity |].
  change (str_eqb (lit "dipole") (lit "wenner")) with false.
  change (str_eqb (lit "dipole") (lit "schlumberger")) with false.
  change (str_eqb (lit "dipole") (lit "dipole")) with true.
  change (str_eqb (lit "wenner") (lit "wenner")) with true.
  cbv iota zeta.
  destruct (gt (Math_abs (p2 - p1)) 0); [| reflexivity].
  rewrite no_separation. reflexivity.
Qed.

End GeometricFactor.

(** ** Further properties of the Karous-Hjelt filter *)

Section KarousHjeltProfiles.

Import FloatFacts.

Lemma kh_pairs_app (l1 l2 : list VLFRecord) (a : VLFRecord) :
  kh_pairs (l1 ++ a :: l2) = kh_pairs (l1 ++ [a]) ++ kh_pairs (a :: l2).
Proof.
  induction l1 as [| x l1 IH]; [reflexivity |].
  destruct l1 as [| y l1].
  - cbn [app]. rewrite !kh_pairs_cons. cbn [kh_pairs]. rewrite app_nil_r. reflexivity.
  - cbn [app] in IH |- *. rewrite !kh_pairs_cons, IH, app_assoc. reflexivity.
Qed.

(** X14: a profile can be filtered in pieces.  The filter of a profile is
    the filter of its part up to a station, followed by the filter of its
    part from that station on. *)
Theorem karous_hjelt_split (l1 l2 : list VLFRecord) (a : VLFRecord) :
  exists k1 k2,
    calculateKarousHjelt (l1 ++ [a]) = Normal k1
    /\ calculateKarousHjelt (a :: l2) = Normal k2
    /\ calculateKarousHjelt (l1 ++ a :: l2) = Normal (k1 ++ k2).
Proof.
  exists (kh_pairs (l1 ++ [a])), (kh_pairs (a :: l2)).
  rewrite !calculateKarousHjelt_pairs, (kh_pairs_app l1 l2 a). repeat split.
Qed.

Lemma sub_self_finite (c : float) :
  is_finite c = true -> exists s, Prim2SF (c - c) = S754_zero s.
Proof.
  rewrite is_finite_Prim2SF, sub_spec. unfold SF64sub.
  destruct (Prim2SF c) as [s | s | | s m e]; try discriminate; intros _; cbn [SFsub].
  - destruct s; eauto.
  - rewrite Z.sub_diag. cbn [binary_normalize]. eauto.
Qed.

(** The quotient of zero by a number that is neither zero nor [NaN] is
    zero. *)
Lemma zero_div (z d : float) (s : bool) :
  Prim2SF z = S754_zero s -> is_nan d = false -> (d =? 0) = false ->
  (z / d =? 0) = true.
Proof.
  intros Hz. rewrite is_nan_Prim2SF, !eqb_spec, div_spec, Hz, Prim2SF_zero.
  unfold SF64div.
  destruct (Prim2SF d) as [sd | sd | | sd md ed]; cbn [SFdiv]; try discriminate;
    reflexivity.
Qed.

Lemma kh_pairs_flat (c : float) (l : list VLFRecord) :
  Number_isFinite c = true ->
  Forall (fun r => inPhase r = c /\ Number_isFinite (station r) = true) l ->
  Forall (fun p => strict_eq (kh_y p) 0 = true) (kh_pairs l).
Proof.
  intros Hc. induction 1 as [| a l [Ha Hsa] Hl IH]; [constructor |].
  destruct l as [| b l]; [constructor |].
  rewrite kh_pairs_cons. apply Forall_app. split; [| exact IH].
  destruct (coincident a b) eqn:Hd; constructor; [| constructor].
  inversion Hl as [| ? ? [Hb Hsb] _]; subst.
  unfold kh_point, strict_eq. cbn [kh_y]. rewrite Hb.
  destruct (@sub_self_finite (inPhase a) Hc) as [s Hz].
  apply (@zero_div _ _ s Hz); [| exact Hd].
  apply sub_finite_not_nan; [apply finite_not_nan, Hsb | exact Hsa].
Qed.

(** X15: the filter of a flat profile is zero.  When all readings have the
    same finite in-phase value and finite stations, every point that the
    filter gives has the value [0] (as [+0] or [-0]). *)
Theorem karous_hjelt_flat_profile (c : float) (vlfData : list VLFRecord) :
  Number_isFinite c = true ->
  Forall (fun r => inPhase r = c /\ Number_isFinite (station r) = true) vlfData ->
  exists khData,
    calculateKarousHjelt vlfData = Normal khData
    /\ Forall (fun p => strict_eq (kh_y p) 0 = true) khData.
Proof.
  intros Hc Hflat. exists (kh_pairs vlfData).
  split; [apply calculateKarousHjelt_pairs | exact (kh_pairs_flat Hc Hflat)].
Qed.

Lemma karous_hjelt_flat_profile_witness :
  exists khData,
    calculateKarousHjelt [mkVLF 0 45.2 1; mkVLF 10 45.2 2; mkVLF 5 45.2 3] = Normal khData
    /\ Forall (fun p => strict_eq (kh_y p) 0 = true) khData.
Proof.
  apply (@karous_hjelt_flat_profile 45.2); [reflexivity |].
  repeat constructor.
Defined.

End KarousHjeltProfiles.

(** ** What the chart and the statistics show *)

Section PlottedPoints.

Import FloatFacts FloatOrder FixedStrings.

Lemma Permutation_filter (A : Type) (f : A -> bool) (l l' : list A) :
  Permutation l l' -> Permutation (filter f l) (filter f l').
Proof.
  induction 1 as [| x l l' _ IH | x y l | l l' l'' _ IH1 _ IH2]; cbn [filter].
  - constructor.
  - destruct (f x); [constructor |]; exact IH.
  - destruct (f x), (f y); try apply Permutation_refl. apply perm_swap.
  - exact (Permutation_trans IH1 IH2).
Qed.

Lemma flat_map_nil (A B : Type) (l : list A) : flat_map (fun _ : A => @nil B) l = [].
Proof. induction l as [| x l IH]; [reflexivity | exact IH]. Qed.

Lemma flat_map_ext_in (A B : Type) (f g : A -> list B) (l : list A) :
  (forall x, In x l -> f x = g x) -> flat_map f l = flat_map g l.
Proof.
  induction l as [| x l IH]; intros H; [reflexivity |].
  cbn [flat_map]. rewrite (H x (or_introl eq_refl)), IH; [reflexivity |].
  intros y Hy. apply H. right. exact Hy.
Qed.

(** The buckets of pairwise different keys that cover the keys of all
    records hold every record once. *)
Lemma buckets_partition (keys : list fixed_string) (data : list ResistivityRecord) :
  NoDup keys -> (forall d, In d data -> In (key_of d) keys) ->
  Permutation (flat_map (fun k => bucket k data) keys) data.
Proof.
  intros Hnd. induction data as [| d data IH]; intros Hcover.
  - unfold bucket. cbn [filter]. rewrite flat_map_nil. constructor.
  - assert (Hin : In (key_of d) keys) by (apply Hcover; left; reflexivity).
    apply in_split in Hin. destruct Hin as [ks1 [ks2 Hkeys]].
    assert (Hrest : Permutation (flat_map (fun k => bucket k data) keys) data)
      by (apply IH; intros d' Hd'; apply Hcover; right; exact Hd').
    rewrite Hkeys in Hnd, Hrest |- *.
    apply NoDup_remove_2 in Hnd.
    rewrite flat_map_app in Hrest |- *. cbn [flat_map] in Hrest |- *.
    assert (Hother : forall ks, ~ In (key_of d) ks ->
               flat_map (fun k => bucket k (d :: data)) ks
               = flat_map (fun k => bucket k data) ks).
    { intros ks Hks. apply flat_map_ext_in. intros k Hk.
      unfold bucket. cbn [filter].
      destruct (key_eqb (key_of d) k) eqn:Heq; [| reflexivity].
      apply key_eqb_eq in Heq. subst k. contradiction. }
    rewrite (Hother ks1), (Hother ks2)
      by (intros H; apply Hnd, in_or_app; auto).
    unfold bucket at 2. cbn [filter]. rewrite key_eqb_refl. fold (bucket (key_of d) data).
    cbn [app]. apply Permutation_sym, Permutation_cons_app, Permutation_sym. exact Hrest.
Qed.

Lemma flat_map_map_filter (A B C : Type) (f : B -> bool) (g : B -> C)
      (h : A -> list B) (l : list A) :
  flat_map (fun x => map g (filter f (h x))) l = map g (filter f (flat_map h l)).
Proof.
  induction l as [| x l IH]; [reflexivity |].
  cbn [flat_map]. rewrite filter_app, map_app, IH. reflexivity.
Qed.

Section ValidRecords.

Variable data : list ResistivityRecord.
Hypothesis data_valid : forallb valid_record data = true.

(** The keys of the sorted spacings are the keys of the records, each
    once. *)
Lemma sorted_spacing_keys :
  Permutation (map toFixed2 (sorted_spacings data)) (map fst (group_records data)).
Proof.
  apply Permutation_trans
    with (map toFixed2 (map Number_of (map fst (group_records data)))).
  - apply Permutation_map, sorted_spacings_perm.
  - rewrite map_map. erewrite map_ext_in; [rewrite map_id; apply Permutation_refl |].
    intros k Hk. apply (key_read_back data data_valid k Hk).
Qed.

Lemma selected_points (f : ResistivityRecord -> bool) :
  Permutation
    (flat_map (fun s => map point_of
                          (filter f (sort_by (fun a b => midpoint a - midpoint b)
                                             (bucket (toFixed2 s) data))))
              (sorted_spacings data))
    (map point_of (filter f data)).
Proof.
  apply Permutation_trans
    with (flat_map (fun k => map point_of (filter f (bucket k data)))
                   (map toFixed2 (sorted_spacings data))).
  - induction (sorted_spacings data) as [| s ss IH]; [constructor |].
    cbn [map flat_map]. apply Permutation_app; [| exact IH].
    apply Permutation_map, Permutation_filter, sort_by_perm.
  - rewrite (Permutation_flat_map _ sorted_spacing_keys), flat_map_map_filter.
    apply Permutation_map, Permutation_filter, buckets_partition.
    + apply keys_group_records.
    + intros d Hd. apply keys_group_records, in_map, Hd.
Qed.

Lemma measured_points_kept :
  Permutation (flat_map measuredPoints (map (group_of data) (sorted_spacings data)))
              (map point_of (filter (fun d => negb (isCalculated d)) data)).
Proof.
  rewrite flat_map_concat_map, map_map, <- flat_map_concat_map.
  apply (selected_points (fun d => negb (isCalculated d))).
Qed.

Lemma calculated_points_kept :
  Permutation (flat_map calculatedPoints (map (group_of data) (sorted_spacings data)))
              (map point_of (filter isCalculated data)).
Proof.
  rewrite flat_map_concat_map, map_map, <- flat_map_concat_map.
  apply (selected_points isCalculated).
Qed.

End ValidRecords.

(** X16: the chart shows every record once.  On records with a spacing
    [> 0] and a finite midpoint, the measured points of all groups together
    are the points of the records that are not calculated, and the calculated
    points of all groups together are the points of the calculated records:
    no point is lost, duplicated or moved to the other kind. *)
Theorem grouping_keeps_every_point (data : list ResistivityRecord) :
  forallb valid_record data = true ->
  exists groups,
    groupBySpacing data = Normal groups
    /\ Permutation (flat_map measuredPoints groups)
                   (map point_of (filter (fun d => negb (isCalculated d)) data))
    /\ Permutation (flat_map calculatedPoints groups)
                   (map point_of (filter isCalculated data)).
Proof.
  intros Hvalid. exists (map (group_of data) (sorted_spacings data)).
  split; [apply groupBySpacing_groups, Hvalid |].
  split; [apply measured_points_kept, Hvalid | apply calculated_points_kept, Hvalid].
Qed.

Lemma grouping_keeps_every_point_witness :
  let r (a m rho : float) (c : bool) := mkRes (lit "wenner") [] a m 0 1 1 rho c in
  let data := [r 20 35 3 true; r 10.001 25 1 false; r 20 15 4 false; r 10.004 5 2 true] in
  exists groups,
    groupBySpacing data = Normal groups
    /\ Permutation (flat_map measuredPoints groups)
                   (map point_of (filter (fun d => negb (isCalculated d)) data))
    /\ Permutation (flat_map calculatedPoints groups)
                   (map point_of (filter isCalculated data)).
Proof.
  intros r data. apply (@grouping_keeps_every_point data). reflexivity.
Defined.

Lemma Set_of_keys (data : list ResistivityRecord) :
  Set_of (map key_of data) = map fst (group_records data).
Proof.
  unfold Set_of, group_records.
  assert (Hgen : forall g : groupedData,
             fold_left (fun s k => if existsb (key_eqb k) s then s else s ++ [k])
                       (map key_of data) (map fst g)
             = map fst (fold_left (fun g d => push_record (toFixed2 (spacing d)) d g) data g)).
  { induction data as [| d data IH]; intros g; [reflexivity |].
    cbn [map fold_left]. fold (key_of d). rewrite <- IH, keys_push_record. reflexivity. }
  exact (Hgen []).
Qed.

(** X17: the statistics agree with the chart.  On records with a spacing
    [> 0] and a finite midpoint, the number of lines that the statistics
    report is the number of groups of the chart, the number of calculated
    points they report is the number of points of the calculated datasets,
    and the measured and calculated points together are as many as the
    records. *)
Theorem statistics_match_chart (data : list ResistivityRecord) :
  forallb valid_record data = true ->
  exists groups,
    groupBySpacing data = Normal groups
    /\ List.length groups = stats_spacingCount data
    /\ List.length (flat_map calculatedPoints groups) = stats_calculatedPoints data
    /\ (List.length (flat_map measuredPoints groups)
        + List.length (flat_map calculatedPoints groups) = stats_points data)%nat.
Proof.
  intros Hvalid. exists (map (group_of data) (sorted_spacings data)).
  split; [apply groupBySpacing_groups, Hvalid |].
  pose proof (Permutation_length (measured_points_kept data Hvalid)) as Hm.
  pose proof (Permutation_length (calculated_points_kept data Hvalid)) as Hc.
  rewrite length_map in Hm, Hc.
  split; [| split].
  - unfold stats_spacingCount. change (fun d => toFixed2 (spacing d)) with key_of.
    rewrite Set_of_keys, length_map.
    rewrite (Permutation_length (sorted_spacings_perm data)), !length_map. reflexivity.
  - exact Hc.
  - rewrite Hm, Hc. unfold stats_points.
    clear. induction data as [| d data IH]; [reflexivity |].
    cbn [filter List.length]. destruct (isCalculated d); cbn [negb List.length]; lia.
Qed.

Lemma statistics_match_chart_witness :
  let r (a m rho : float) (c : bool) := mkRes (lit "wenner") [] a m 0 1 1 rho c in
  let data := [r 20 35 3 true; r 10.001 25 1 false; r 20 15 4 false; r 10.004 5 2 true] in
  exists groups,
    groupBySpacing data = Normal groups
    /\ List.length groups = stats_spacingCount data
    /\ List.length (flat_map calculatedPoints groups) = stats_calculatedPoints data
    /\ (List.length (flat_map measuredPoints groups)
        + List.length (flat_map calculatedPoints groups) = stats_points data)%nat.
Proof.
  intros r data. apply (@statistics_match_chart data). reflexivity.
Defined.

(** X18: the VLF chart shows the readings in ascending station order,
    whatever the order of the lines of the text: the sorted readings are the
    parsed readings, rearranged, and both series run over the same ascending
    stations. *)
Theorem vlf_series_ascending (input : jsstring) :
  Permutation (sorted_readings input) (parseVLFData input)
  /\ StronglySorted (fun a b => (station a <=? station b) = true) (sorted_readings input)
  /\ map point_x (inPhase_series input) = map station (sorted_readings input)
  /\ map point_x (quadrature_series input) = map station (sorted_readings input).
Proof.
  assert (Hperm : Permutation (sorted_readings input) (parseVLFData input))
    by apply sort_by_perm.
  assert (Hok : Forall (fun d => is_nan (station d) = false) (parseVLFData input)).
  { rewrite Forall_forall. intros d Hd. apply finite_not_nan.
    unfold parseVLFData in Hd. apply in_flat_map in Hd. destruct Hd as [line [_ Hd]].
    apply (vlf_line_finite line d Hd). }
  split; [exact Hperm |]. split; [| split].
  - apply StronglySorted_weaken
      with (R := fun a b => (rank (station a) <= rank (station b))%Z)
           (P := fun d => is_nan (station d) = false).
    + intros a b Ha Hb Hle. rewrite (@leb_rank _ _ Ha Hb). apply Z.leb_le, Hle.
    + rewrite Forall_forall in *. intros d Hd. apply Hok.
      apply (Permutation_in _ Hperm), Hd.
    + apply sort_by_sorted with (ok := fun d => is_nan (station d) = false)
                                (rk := fun d => rank (station d)).
      * intros x y Hx Hy. rewrite sub_gt_zero, ltb_rank by assumption. reflexivity.
      * exact Hok.
  - unfold inPhase_series. rewrite map_map. reflexivity.
  - unfold quadrature_series. rewrite map_map. reflexivity.
Qed.

End PlottedPoints.

(** ** The colours of the chart *)

Section Colours.

Import FloatFacts FactorFacts.

Lemma In_below (n : nat) (z : Z) : (0 <= z < Z.of_nat n)%Z -> In z (below n).
Proof.
  intros Hz. unfold below. replace z with (Z.of_nat (Z.to_nat z)) by lia.
  apply in_map, in_seq. lia.
Qed.

(** The darkened value of every channel value, for every whole
    percentage. *)
Lemma floor_table (c p : Z) :
  (0 <= c < 256)%Z -> (0 <= p <= 100)%Z ->
  Math_floor (Number_of_integer false c * (100 - Number_of_integer false p) / 100)
  = Number_of_integer false (darker c p).
Proof.
  intros Hc Hp.
  assert (Hall : forallb (fun c => forallb (fun p =>
                    PrimFloat.Leibniz.eqb
                      (Math_floor (Number_of_integer false c
                                   * (100 - Number_of_integer false p) / 100))
                      (Number_of_integer false (darker c p)))
                    (below 101)) (below 256) = true)
    by (vm_compute; reflexivity).
  rewrite forallb_forall in Hall.
  specialize (Hall c (In_below 256 Hc)). rewrite forallb_forall in Hall.
  apply Leibniz.eqb_spec, Hall, In_below. lia.
Qed.

(** The two digits of every channel value. *)
Lemma digits_table (v : Z) :
  (0 <= v < 256)%Z ->
  padStart2 (Number_toString16 (Math_min 255 (Math_max 0 (Number_of_integer false v))))
  = hex_pair v.
Proof.
  intros Hv.
  assert (Hall : forallb (fun v =>
                    str_eqb (padStart2 (Number_toString16
                               (Math_min 255 (Math_max 0 (Number_of_integer false v)))))
                            (hex_pair v))
                    (below 256) = true)
    by (vm_compute; reflexivity).
  rewrite forallb_forall in Hall. apply str_eqb_eq, Hall, In_below, Hv.
Qed.

Lemma darker_bounds (c p : Z) :
  (0 <= c)%Z -> (0 <= p <= 100)%Z -> (0 <= darker c p <= c)%Z.
Proof.
  intros Hc Hp. unfold darker. split.
  - apply Z.div_pos; nia.
  - apply Z.div_le_upper_bound; nia.
Qed.

Lemma channel_table (c p : Z) :
  (0 <= c < 256)%Z -> (0 <= p <= 100)%Z ->
  darken_channel (Number_of_integer false c) (Number_of_integer false p)
  = hex_pair (darker c p).
Proof.
  intros Hc Hp. unfold darken_channel. rewrite (floor_table Hc Hp).
  apply digits_table. pose proof (@darker_bounds c p (proj1 Hc) Hp). lia.
Qed.

Lemma hex_value_cases (c : N) (v : Z) : hex_value c = Some v -> In c hex_code_units.
Proof.
  unfold hex_value, isDigit. intros H.
  destruct (N.leb 48 c && N.leb c 57) eqn:Hd.
  - apply andb_true_iff in Hd. destruct Hd as [Hlo Hhi]. apply N.leb_le in Hlo, Hhi.
    assert (Hc : (c = 48 \/ c = 49 \/ c = 50 \/ c = 51 \/ c = 52 \/ c = 53 \/ c = 54
                  \/ c = 55 \/ c = 56 \/ c = 57)%N) by lia.
    repeat (destruct Hc as [Hc | Hc]; [subst c; simpl; tauto |]).
    subst c; simpl; tauto.
  - destruct (N.leb 97 c && N.leb c 102) eqn:Hl.
    + apply andb_true_iff in Hl. destruct Hl as [Hlo Hhi]. apply N.leb_le in Hlo, Hhi.
      assert (Hc : (c = 97 \/ c = 98 \/ c = 99 \/ c = 100 \/ c = 101 \/ c = 102)%N) by lia.
      repeat (destruct Hc as [Hc | Hc]; [subst c; simpl; tauto |]).
      subst c; simpl; tauto.
    + destruct (N.leb 65 c && N.leb c 70) eqn:Hu; [| discriminate].
      apply andb_true_iff in Hu. destruct Hu as [Hlo Hhi]. apply N.leb_le in Hlo, Hhi.
      assert (Hc : (c = 65 \/ c = 66 \/ c = 67 \/ c = 68 \/ c = 69 \/ c = 70)%N) by lia.
      repeat (destruct Hc as [Hc | Hc]; [subst c; simpl; tauto |]).
      subst c; simpl; tauto.
Qed.

(** Two hexadecimal digits parse to their value, which is below 256. *)
Lemma parse_table (a b : N) (v : Z) :
  channel_value a b = Some v ->
  parseInt16 [a; b] = Number_of_integer false v /\ (0 <= v < 256)%Z.
Proof.
  intros Hv.
  assert (Ha : In a hex_code_units /\ In b hex_code_units).
  { unfold channel_value in Hv.
    destruct (hex_value a) as [x |] eqn:Hx; [| discriminate].
    destruct (hex_value b) as [y |] eqn:Hy; [| discriminate].
    split; eapply hex_value_cases; eassumption. }
  assert (Hall : forallb (fun a => forallb (fun b =>
                    match channel_value a b with
                    | Some v => PrimFloat.Leibniz.eqb (parseInt16 [a; b])
                                                      (Number_of_integer false v)
                                && (0 <=? v)%Z && (v <? 256)%Z
                    | None => false
                    end) hex_code_units) hex_code_units = true)
    by (vm_compute; reflexivity).
  rewrite forallb_forall in Hall. specialize (Hall a (proj1 Ha)).
  rewrite forallb_forall in Hall. specialize (Hall b (proj2 Ha)).
  rewrite Hv in Hall.
  apply andb_true_iff in Hall. destruct Hall as [Hall Hhi].
  apply andb_true_iff in Hall. destruct Hall as [Heq Hlo].
  apply Leibniz.eqb_spec in Heq. split; [exact Heq | lia].
Qed.

Lemma darkenColor_channels (hex : jsstring) (percent : float) :
  darkenColor hex percent
  = lit "#" ++ darken_channel (parseInt16 (slice hex 1 3)) percent
      ++ darken_channel (parseInt16 (slice hex 3 5)) percent
      ++ darken_channel (parseInt16 (slice hex 5 7)) percent.
Proof. reflexivity. Qed.

(** X19: the colour that [darkenColor] gives for a well-formed colour.  For
    a colour of a first code unit and six hexadecimal digits, in either
    case, and a whole percentage [p] from 0 to 100, the result is [#] and
    six hexadecimal digits in lower case, two for each channel, of the value
    [c * (100 - p) / 100] rounded down, which is between [0] and the value
    [c] of the channel. *)
Theorem darkenColor_well_formed (c0 h1 h2 h3 h4 h5 h6 : N) (rest : jsstring)
        (R G B p : Z) :
  channel_value h1 h2 = Some R ->
  channel_value h3 h4 = Some G ->
  channel_value h5 h6 = Some B ->
  (0 <= p <= 100)%Z ->
  darkenColor (c0 :: h1 :: h2 :: h3 :: h4 :: h5 :: h6 :: rest) (Number_of_integer false p)
  = lit "#" ++ hex_pair (darker R p) ++ hex_pair (darker G p) ++ hex_pair (darker B p)
  /\ (0 <= darker R p <= R)%Z /\ (0 <= darker G p <= G)%Z /\ (0 <= darker B p <= B)%Z.
Proof.
  intros HR HG HB Hp.
  destruct (parse_table h1 h2 HR) as [ER BR].
  destruct (parse_table h3 h4 HG) as [EG BG].
  destruct (parse_table h5 h6 HB) as [EB BB].
  split.
  - rewrite darkenColor_channels.
    change (slice (c0 :: h1 :: h2 :: h3 :: h4 :: h5 :: h6 :: rest) 1 3) with [h1; h2].
    change (slice (c0 :: h1 :: h2 :: h3 :: h4 :: h5 :: h6 :: rest) 3 5) with [h3; h4].
    change (slice (c0 :: h1 :: h2 :: h3 :: h4 :: h5 :: h6 :: rest) 5 7) with [h5; h6].
    rewrite ER, EG, EB, !channel_table by assumption. reflexivity.
  - repeat split; apply darker_bounds; lia.
Qed.

Lemma darkenColor_well_formed_witness :
  darkenColor (lit "#00b4d8") 15 = lit "#0099b7"
  /\ (0 <= darker 0 15 <= 0)%Z /\ (0 <= darker 180 15 <= 180)%Z
  /\ (0 <= darker 216 15 <= 216)%Z.
Proof.
  apply (@darkenColor_well_formed 35 48 48 98 52 100 56 [] 0 180 216 15);
    [reflexivity | reflexivity | reflexivity | lia].
Defined.

Lemma nan_channel (percent : float) : darken_channel nan percent = lit "NaN".
Proof.
  unfold darken_channel.
  assert (Hmul : nan * (100 - percent) / 100 = nan).
  { apply Prim2SF_inj. rewrite div_spec, mul_spec.
    change (Prim2SF nan) with S754_nan. reflexivity. }
  rewrite Hmul. reflexivity.
Qed.

(** X20: [darkenColor] does not reject a colour that is too short: a
    channel for which the string has no code unit left is [NaN], and the
    text [NaN] takes the place of its two digits.  A colour of at most five
    code units, such as the short form [#abc], gives a result that ends in
    [NaN]; a colour of at most one code unit gives [#NaNNaNNaN]; whatever
    the percentage. *)
Theorem darkenColor_short_colour (hex : jsstring) (percent : float) :
  (List.length hex <= 5)%nat ->
  (exists digits, darkenColor hex percent = lit "#" ++ digits ++ lit "NaN")
  /\ ((List.length hex <= 1)%nat -> darkenColor hex percent = lit "#NaNNaNNaN").
Proof.
  intros Hlen. rewrite darkenColor_channels. split.
  - exists (darken_channel (parseInt16 (slice hex 1 3)) percent
            ++ darken_channel (parseInt16 (slice hex 3 5)) percent).
    replace (slice hex 5 7) with (@nil N).
    + change (parseInt16 []) with nan. rewrite nan_channel, <- app_assoc. reflexivity.
    + unfold slice. rewrite skipn_all2 by lia. reflexivity.
  - intros H1. unfold slice. rewrite !skipn_all2 by lia.
    change (parseInt16 (firstn _ [])) with nan. rewrite !nan_channel. reflexivity.
Qed.

Lemma darkenColor_short_colour_witness :
  (exists digits, darkenColor (lit "#abc") 10 = lit "#" ++ digits ++ lit "NaN")
  /\ ((List.length (lit "#abc") <= 1)%nat -> darkenColor (lit "#abc") 10 = lit "#NaNNaNNaN").
Proof.
  apply (@darkenColor_short_colour (lit "#abc") 10). simpl. lia.
Defined.

End Colours.

(** ** The page controller *)

Section Controller.

Import FloatFacts FloatOrder.

Lemma set_dataInput_same (p : Page) : set_dataInput (dataInput_value p) p = p.
Proof. destruct p. reflexivity. Qed.

Lemma trim_empty_blank (s : jsstring) : trim s = [] -> forallb isWhiteSpace s = true.
Proof.
  intros Hs. destruct (trim_decompose s) as [pad1 [pad2 [H1 [H2 Heq]]]].
  rewrite Hs in Heq. rewrite Heq. cbn [app].
  unfold is_padding in *. rewrite forallb_app, H1, H2. reflexivity.
Qed.

Lemma blank_trim_empty (s : jsstring) : forallb isWhiteSpace s = true -> trim s = [].
Proof.
  intros Hs. unfold trim. rewrite (@trimStart_padding s Hs). reflexivity.
Qed.

Lemma plotData_start (ui : UI) :
  plotData ui =
  let input := dataInput_value (ui_page ui) in
  let ui := plot_start ui in
  if negb (Boolean_str (trim input)) then displayError PasteFirst ui
  else
    match (if str_eqb (currentDataType (ui_page ui)) (lit "vlf")
           then plotVLFData ui input else plotResistivityData ui input) with
    | Returned ui =>
      mkUI (ui_page ui) (fileInput_value ui) (chart ui) (chartArea ui)
           (statsSection_display ui) false
    | Raised ui => displayError PlottingFailed ui
    end.
Proof.
  unfold plotData, plot_start. cbv zeta.
  destruct (has_error_message (chartArea ui)); [| reflexivity].
  cbn [clearAll ui_page fileInput_value chart chartArea statsSection_display
       downloadBtn_disabled].
  rewrite set_dataInput_same. reflexivity.
Qed.

Lemma plot_start_page (ui : UI) : ui_page (plot_start ui) = ui_page ui.
Proof. unfold plot_start. destruct (has_error_message (chartArea ui)); reflexivity. Qed.

Lemma plot_start_area (ui : UI) : has_error_message (chartArea (plot_start ui)) = false.
Proof.
  unfold plot_start. destruct (has_error_message (chartArea ui)) eqn:H; [reflexivity | exact H].
Qed.

(** X22: [plotData] on a text area that is empty or holds white space only
    shows the message that asks for data, hides the statistics and disables
    the download button; the text area keeps its content, and neither parser
    is run. *)
Theorem plotData_blank_input (ui : UI) :
  forallb isWhiteSpace (dataInput_value (ui_page ui)) = true ->
  plotData ui = displayError PasteFirst (plot_start ui)
  /\ chartArea (plotData ui) = ErrorMessage PasteFirst
  /\ statsSection_display (plotData ui) = lit "none"
  /\ downloadBtn_disabled (plotData ui) = true
  /\ ui_page (plotData ui) = ui_page ui.
Proof.
  intros Hblank. rewrite plotData_start. cbv zeta.
  rewrite (blank_trim_empty _ Hblank). cbn [Boolean_str negb displayError
    chartArea statsSection_display downloadBtn_disabled ui_page].
  rewrite plot_start_page. repeat split.
Qed.

Lemma plotData_blank_input_witness :
  let ui := mkUI (mkPage (lit "wenner") (lit "  " ++ [LF]) true (lit "ocean") (lit "primary")
                         false (lit "vlf") true)
                 [] None (ErrorMessage NoValidVLF) (lit "none") false in
  plotData ui = displayError PasteFirst (plot_start ui)
  /\ chartArea (plotData ui) = ErrorMessage PasteFirst
  /\ statsSection_display (plotData ui) = lit "none"
  /\ downloadBtn_disabled (plotData ui) = true
  /\ ui_page (plotData ui) = ui_page ui.
Proof.
  intros ui. apply (@plotData_blank_input ui). reflexivity.
Defined.

(** X23: [plotData] on a text that is not blank but has no valid row.  The
    plotting function shows its message and returns, and [plotData] goes on
    to enable the download button: the message is on display, the statistics
    are hidden and the button is enabled.  A chart that was on display
    before is neither destroyed nor shown any more, and [downloadChart]
    raises a [TypeError] then, for want of the canvas. *)
Theorem plotData_no_valid_row (ui : UI) :
  let input := dataInput_value (ui_page ui) in
  let vlf := str_eqb (currentDataType (ui_page ui)) (lit "vlf") in
  Boolean_str (trim input) = true ->
  (if vlf then List.length (parseVLFData input)
   else List.length (parseResistivityData (ui_page ui) input)) = 0%nat ->
  chartArea (plotData ui) = ErrorMessage (if vlf then NoValidVLF else NoValidResistivity)
  /\ statsSection_display (plotData ui) = lit "none"
  /\ downloadBtn_disabled (plotData ui) = false
  /\ chart (plotData ui) = chart (plot_start ui)
  /\ (chart (plot_start ui) <> None -> downloadChart (plotData ui) = ThrowTypeError).
Proof.
  intros input vlf Hinput Hnone. rewrite plotData_start. cbv zeta.
  fold input. rewrite Hinput. cbn [negb]. rewrite plot_start_page. fold vlf.
  assert (Hplot : (if vlf then plotVLFData (plot_start ui) input
                   else plotResistivityData (plot_start ui) input)
                  = Returned (displayError (if vlf then NoValidVLF else NoValidResistivity)
                                           (plot_start ui))).
  { destruct vlf.
    - unfold plotVLFData. cbv zeta. rewrite Hnone. reflexivity.
    - unfold plotResistivityData. cbv zeta. rewrite plot_start_page, Hnone. reflexivity. }
  rewrite Hplot.
  cbn [displayError chartArea statsSection_display downloadBtn_disabled chart ui_page
       fileInput_value].
  repeat split. intros Hchart. unfold downloadChart. cbn [chart chartArea].
  destruct (chart (plot_start ui)); [reflexivity | congruence].
Qed.

Lemma plotData_no_valid_row_witness :
  let ui := mkUI (mkPage (lit "wenner") (lit "station, inphase") true (lit "ocean")
                         (lit "primary") false (lit "vlf") true)
                 [] (Some (ScatterChart [])) (PlaceholderAndCanvas (lit "none") (lit "block"))
                 (lit "grid") false in
  chartArea (plotData ui) = ErrorMessage NoValidVLF
  /\ statsSection_display (plotData ui) = lit "none"
  /\ downloadBtn_disabled (plotData ui) = false
  /\ chart (plotData ui) = chart (plot_start ui)
  /\ (chart (plot_start ui) <> None -> downloadChart (plotData ui) = ThrowTypeError).
Proof.
  intros ui. apply (@plotData_no_valid_row ui); reflexivity.
Defined.

Lemma show_canvas_start (ui : UI) :
  show_canvas (plot_start ui)
  = Returned (mkUI (ui_page ui) (fileInput_value (plot_start ui)) None
                   (PlaceholderAndCanvas (lit "none") (lit "block"))
                   (statsSection_display (plot_start ui))
                   (downloadBtn_disabled (plot_start ui))).
Proof.
  unfold show_canvas. cbv zeta. cbn [chartArea ui_page fileInput_value
    statsSection_display downloadBtn_disabled].
  pose proof (plot_start_area ui) as Harea. rewrite plot_start_page.
  destruct (chartArea (plot_start ui)); [discriminate | reflexivity].
Qed.

Lemma karousHjelt_dataset_returns (p : Page) (data : list VLFRecord) :
  exists kh, karousHjelt_dataset p data = Normal kh.
Proof.
  unfold karousHjelt_dataset.
  destruct (karousHjeltToggle_checked p && chartAnnotationPluginLoaded p); [| eauto].
  rewrite calculateKarousHjelt_pairs. cbn [bind]. eauto.
Qed.

Lemma records_not_blank (A : Type) (input : jsstring) (records : list A) :
  (forallb isWhiteSpace input = true -> records = []) ->
  Nat.eqb (List.length records) 0 = false ->
  negb (Boolean_str (trim input)) = false.
Proof.
  intros Hblank Hsome. destruct (trim input) eqn:Htrim; [| reflexivity].
  rewrite (Hblank (trim_empty_blank _ Htrim)) in Hsome. discriminate.
Qed.

(** The state in which [plotData] ends on a text with a valid reading. *)
Lemma plotData_vlf_chart (ui : UI) (theme : Theme) :
  let input := dataInput_value (ui_page ui) in
  str_eqb (currentDataType (ui_page ui)) (lit "vlf") = true ->
  VLF_THEMES (vlfColorTheme_value (ui_page ui)) = Some theme ->
  parseVLFData input <> [] ->
  exists kh,
    plotData ui
    = mkUI (ui_page ui) (fileInput_value (plot_start ui))
           (Some (LineChart (inPhase_series input) (quadrature_series input) kh
                            (theme_p1 theme, darkenColor (theme_p1 theme) 15)
                            (theme_p2 theme, darkenColor (theme_p2 theme) 15)))
           (PlaceholderAndCanvas (lit "none") (lit "block")) (lit "grid") false.
Proof.
  intros input Hvlf Htheme Hdata.
  assert (Hlen : Nat.eqb (List.length (parseVLFData input)) 0 = false)
    by (destruct (parseVLFData input); [congruence | reflexivity]).
  rewrite plotData_start. cbv zeta. fold input.
  rewrite (@records_not_blank _ input (parseVLFData input)); [| | exact Hlen].
  2:{ intros Hblank. unfold parseVLFData. rewrite nonblank_lines_blank; [reflexivity |].
      exact Hblank. }
  rewrite plot_start_page, Hvlf.
  unfold plotVLFData. cbv zeta. rewrite Hlen, show_canvas_start.
  cbn [ui_page]. rewrite Htheme.
  destruct (karousHjelt_dataset_returns (ui_page ui)
              (sort_by (fun a b => station a - station b) (parseVLFData input)))
    as [kh Hkh].
  rewrite Hkh. exists kh. reflexivity.
Qed.

(** X24: a text with a valid reading is always plotted.  With the VLF type
    selected and one of the three themes, [plotData] on a text that has at
    least one valid row ends with the line chart of the readings in
    ascending station order, the canvas shown, the statistics shown and the
    download button enabled, and [downloadChart] starts a download; whatever
    the page showed before, an error message or an older chart. *)
Theorem plotData_plots_readings (ui : UI) (theme : Theme) :
  let input := dataInput_value (ui_page ui) in
  str_eqb (currentDataType (ui_page ui)) (lit "vlf") = true ->
  VLF_THEMES (vlfColorTheme_value (ui_page ui)) = Some theme ->
  parseVLFData input <> [] ->
  (exists kh,
     chart (plotData ui)
     = Some (LineChart (inPhase_series input) (quadrature_series input) kh
                       (theme_p1 theme, darkenColor (theme_p1 theme) 15)
                       (theme_p2 theme, darkenColor (theme_p2 theme) 15)))
  /\ chartArea (plotData ui) = PlaceholderAndCanvas (lit "none") (lit "block")
  /\ statsSection_display (plotData ui) = lit "grid"
  /\ downloadBtn_disabled (plotData ui) = false
  /\ downloadChart (plotData ui) = Normal true.
Proof.
  intros input Hvlf Htheme Hdata.
  destruct (plotData_vlf_chart ui Hvlf Htheme Hdata) as [kh Hplot].
  fold input in Hplot. rewrite Hplot.
  split; [exists kh; reflexivity | repeat split].
Qed.

Lemma plotData_plots_readings_witness :
  let ui := mkUI (mkPage (lit "wenner") (lit "10 52.3 -15.8" ++ [LF] ++ lit "0 45.2 -12.5")
                         false (lit "ocean") (lit "primary") false (lit "vlf") true)
                 [] None (ErrorMessage PasteFirst) (lit "none") true in
  (exists kh,
     chart (plotData ui)
     = Some (LineChart (inPhase_series (dataInput_value (ui_page ui)))
                       (quadrature_series (dataInput_value (ui_page ui))) kh
                       (lit "#00b4d8", darkenColor (lit "#00b4d8") 15)
                       (lit "#fca311", darkenColor (lit "#fca311") 15)))
  /\ chartArea (plotData ui) = PlaceholderAndCanvas (lit "none") (lit "block")
  /\ statsSection_display (plotData ui) = lit "grid"
  /\ downloadBtn_disabled (plotData ui) = false
  /\ downloadChart (plotData ui) = Normal true.
Proof.
  intros ui.
  apply (@plotData_plots_readings ui (mkTheme (lit "#00b4d8") (lit "#fca311")));
    [reflexivity | reflexivity | vm_compute; discriminate].
Defined.

Lemma parsed_records_valid (page : Page) (text : jsstring) :
  forallb valid_record (parseResistivityData page text) = true.
Proof.
  apply forallb_forall. intros r Hin. unfold parseResistivityData in Hin.
  apply in_flat_map in Hin. destruct Hin as [line [_ Hin]].
  rewrite resistivity_line_resolved in Hin.
  destruct (row_resolved_kFactor (arrayType_value page) line) as [K |] eqn:HK;
    [| contradiction].
  destruct (resolve_apparentResistivity K (row_resistance line)
              (row_supplied_resistivity line)) as [[rho calc] |]; [| contradiction].
  destruct (Number_isFinite (row_midpoint line) && Number_isFinite rho) eqn:Hfin;
    [| contradiction].
  apply andb_true_iff in Hfin. destruct Hfin as [Hmid _].
  destruct Hin as [<- | []]. unfold valid_record. cbn [spacing midpoint row_record].
  rewrite (row_spacing_positive _ _ HK Hmid), Hmid. reflexivity.
Qed.

Lemma sorted_spacings_empty (data : list ResistivityRecord) :
  sorted_spacings data = [] <-> data = [].
Proof.
  split.
  - intros Hnil. destruct data as [| d data]; [reflexivity |].
    assert (Hin : In (key_of d) (map fst (group_records (d :: data))))
      by (apply keys_group_records; left; reflexivity).
    apply (in_map Number_of) in Hin.
    apply (Permutation_in _ (Permutation_sym (sorted_spacings_perm (d :: data)))) in Hin.
    rewrite Hnil in Hin. contradiction.
  - intros ->. reflexivity.
Qed.

(** X21: the grouping never fails on what the parser gives.  For every page
    and text, every spacing that [plotResistivityData] reads back from a key
    finds its bucket: the grouping of the parsed records returns, without the
    [TypeError] of a missing bucket, and there is a group as soon as there is
    a record. *)
Theorem parsed_records_group (page : Page) (text : jsstring) :
  exists groups,
    groupBySpacing (parseResistivityData page text) = Normal groups
    /\ (groups = [] <-> parseResistivityData page text = []).
Proof.
  exists (map (group_of (parseResistivityData page text))
              (sorted_spacings (parseResistivityData page text))).
  split; [apply groupBySpacing_groups, parsed_records_valid |].
  rewrite <- sorted_spacings_empty.
  destruct (sorted_spacings (parseResistivityData page text)); cbn [map];
    split; congruence.
Qed.

Lemma resistivity_datasets_returns (colorPalette : list jsstring) (groups : list SeriesGroup)
      (colorIndex : nat) :
  colorPalette <> [] ->
  exists datasets,
    resistivity_datasets colorPalette colorIndex groups = Normal datasets
    /\ map dataset_data (filter (fun d => negb (dataset_calculated d)) datasets)
       = map measuredPoints groups.
Proof.
  intros Hne. revert colorIndex.
  induction groups as [| g groups IH]; intros colorIndex; [exists []; split; reflexivity |].
  cbn [resistivity_datasets].
  destruct (nth_error colorPalette (colorIndex mod List.length colorPalette))
    as [baseColor |] eqn:Hcolor.
  - destruct (IH (S colorIndex)) as [rest [Hrest Hdata]]. rewrite Hrest. cbn [bind].
    eexists. split; [reflexivity |].
    cbn [filter dataset_calculated negb map dataset_data]. f_equal.
    destruct (Nat.ltb 0 (List.length (calculatedPoints g))); cbn [app filter
      dataset_calculated negb]; exact Hdata.
  - apply nth_error_None in Hcolor.
    assert (Hlen : List.length colorPalette <> 0%nat)
      by (destruct colorPalette; [congruence | discriminate]).
    pose proof (Nat.mod_upper_bound colorIndex _ Hlen). lia.
Qed.

Lemma palette_not_empty (key : jsstring) (colorPalette : list jsstring) :
  RESISTIVITY_PALETTES key = Some colorPalette -> colorPalette <> [].
Proof.
  unfold RESISTIVITY_PALETTES.
  destruct (str_eqb key (lit "primary")); [intros [= <-]; discriminate |].
  destruct (str_eqb key (lit "cool")); [intros [= <-]; discriminate |].
  destruct (str_eqb key (lit "warm")); [intros [= <-]; discriminate | discriminate].
Qed.

(** X25: a text with a valid resistivity row is always plotted.  With a
    type other than VLF selected and one of the three palettes, [plotData] on
    a text that has at least one valid row ends with the scatter chart of the
    groups of the parsed records, one dataset of measured points for every
    group, in the order of the groups, the canvas shown, the statistics
    shown and the download button enabled; whatever the page showed
    before. *)
Theorem plotData_plots_records (ui : UI) (colorPalette : list jsstring) :
  let input := dataInput_value (ui_page ui) in
  let data := parseResistivityData (ui_page ui) input in
  str_eqb (currentDataType (ui_page ui)) (lit "vlf") = false ->
  RESISTIVITY_PALETTES (resistivityColorTheme_value (ui_page ui)) = Some colorPalette ->
  data <> [] ->
  (exists groups datasets,
     groupBySpacing data = Normal groups
     /\ resistivity_datasets colorPalette 0 groups = Normal datasets
     /\ map dataset_data (filter (fun d => negb (dataset_calculated d)) datasets)
        = map measuredPoints groups
     /\ chart (plotData ui) = Some (ScatterChart datasets))
  /\ chartArea (plotData ui) = PlaceholderAndCanvas (lit "none") (lit "block")
  /\ statsSection_display (plotData ui) = lit "grid"
  /\ downloadBtn_disabled (plotData ui) = false
  /\ downloadChart (plotData ui) = Normal true.
Proof.
  intros input data Hres Hpalette Hdata.
  assert (Hlen : Nat.eqb (List.length data) 0 = false)
    by (destruct data; [congruence | reflexivity]).
  destruct (parsed_records_group (ui_page ui) input) as [groups [Hgroups _]].
  fold data in Hgroups.
  destruct (@resistivity_datasets_returns colorPalette groups 0
              (palette_not_empty _ Hpalette)) as [datasets [Hdatasets Hmeasured]].
  rewrite plotData_start. cbv zeta. fold input.
  rewrite (@records_not_blank _ input data); [| | exact Hlen].
  2:{ intros Hblank. unfold data, parseResistivityData. cbv zeta.
      rewrite nonblank_lines_trim, nonblank_lines_blank; [reflexivity | exact Hblank]. }
  rewrite plot_start_page, Hres.
  unfold plotResistivityData. cbv zeta. rewrite plot_start_page. fold data.
  rewrite Hlen, show_canvas_start. cbn [ui_page]. rewrite Hpalette. fold data.
  rewrite Hgroups. cbn [bind]. rewrite Hdatasets.
  cbn [show_chart chart chartArea statsSection_display downloadBtn_disabled ui_page
       fileInput_value downloadChart].
  split; [exists groups, datasets; repeat split; assumption | repeat split].
Qed.

Lemma plotData_plots_records_witness :
  let ui := mkUI (mkPage (lit "wenner") (lit "10 20 30 40 62.83 9.5") false (lit "ocean")
                         (lit "primary") false (lit "resistivity") true)
                 [] None (ErrorMessage PasteFirst) (lit "none") true in
  let data := parseResistivityData (ui_page ui) (dataInput_value (ui_page ui)) in
  (exists groups datasets,
     groupBySpacing data = Normal groups
     /\ resistivity_datasets
          [lit "#00b67a"; lit "#0ea5e9"; lit "#f97316"; lit "#8b5cf6"; lit "#ec4899";
           lit "#ef4444"] 0 groups = Normal datasets
     /\ map dataset_data (filter (fun d => negb (dataset_calculated d)) datasets)
        = map measuredPoints groups
     /\ chart (plotData ui) = Some (ScatterChart datasets))
  /\ chartArea (plotData ui) = PlaceholderAndCanvas (lit "none") (lit "block")
  /\ statsSection_display (plotData ui) = lit "grid"
  /\ downloadBtn_disabled (plotData ui) = false
  /\ downloadChart (plotData ui) = Normal true.
Proof.
  intros ui data.
  apply (@plotData_plots_records ui);
    [reflexivity | reflexivity | vm_compute; discriminate].
Defined.

(** X26: an uploaded file of readings is plotted as it is.  With the VLF
    type selected and one of the three themes, when the rows of the file are
    rows of numeric columns and one of them has three columns, the callback
    of the upload leaves the rows in the text area, joined by tabs and line
    feeds, and the line chart of the readings of the rows, in ascending
    station order. *)
Theorem uploaded_file_is_plotted (ui : UI) (theme : Theme) (data : list (list jsstring)) :
  let readings := sort_by (fun a b => station a - station b) (flat_map row_reading data) in
  str_eqb (currentDataType (ui_page ui)) (lit "vlf") = true ->
  VLF_THEMES (vlfColorTheme_value (ui_page ui)) = Some theme ->
  forallb (forallb is_numeric_field) data = true ->
  flat_map row_reading data <> [] ->
  dataInput_value (ui_page (file_parsed data ui)) = csvText data
  /\ exists kh,
       chart (file_parsed data ui)
       = Some (LineChart (map (fun d => mkPoint (station d) (inPhase d)) readings)
                         (map (fun d => mkPoint (station d) (quadrature d)) readings) kh
                         (theme_p1 theme, darkenColor (theme_p1 theme) 15)
                         (theme_p2 theme, darkenColor (theme_p2 theme) 15)).
Proof.
  intros readings Hvlf Htheme Hrows Hsome. unfold file_parsed.
  set (ui' := mkUI _ _ _ _ _ _).
  assert (Hinput : dataInput_value (ui_page ui') = csvText data) by reflexivity.
  assert (Hparsed : parseVLFData (csvText data) = flat_map row_reading data).
  { unfold csvText. rewrite join_LF.
    assert (Hall : Forall (Forall (fun t => is_numeric_field t = true)) data).
    { apply Forall_forall. intros row Hrow. apply Forall_forall. intros t Ht.
      rewrite forallb_forall in Hrows. specialize (Hrows row Hrow).
      rewrite forallb_forall in Hrows. exact (Hrows t Ht). }
    apply parseVLFData_joined_rows, Hall. }
  destruct (@plotData_vlf_chart ui' theme) as [kh Hplot].
  - exact Hvlf.
  - exact Htheme.
  - rewrite Hinput, Hparsed. exact Hsome.
  - rewrite Hplot. cbn [ui_page chart]. split; [exact Hinput |].
    exists kh. unfold inPhase_series, quadrature_series, sorted_readings.
    rewrite Hinput, Hparsed. reflexivity.
Qed.

Lemma uploaded_file_is_plotted_witness :
  let ui := mkUI (mkPage (lit "wenner") [] false (lit "earth") (lit "primary") false
                         (lit "vlf") true)
                 [] None (PlaceholderAndCanvas (lit "flex") (lit "none")) (lit "none") true in
  let data := [[lit "10"; lit "52.3"; lit "-15.8"]; [lit "0"; lit "45.2"; lit "-12.5"]] in
  let readings := sort_by (fun a b => station a - station b) (flat_map row_reading data) in
  dataInput_value (ui_page (file_parsed data ui)) = csvText data
  /\ exists kh,
       chart (file_parsed data ui)
       = Some (LineChart (map (fun d => mkPoint (station d) (inPhase d)) readings)
                         (map (fun d => mkPoint (station d) (quadrature d)) readings) kh
                         (lit "#90be6d", darkenColor (lit "#90be6d") 15)
                         (lit "#f9c74f", darkenColor (lit "#f9c74f") 15)).
Proof.
  intros ui data readings.
  apply (@uploaded_file_is_plotted ui (mkTheme (lit "#90be6d") (lit "#f9c74f")) data);
    [reflexivity | reflexivity | reflexivity | vm_compute; discriminate].
Defined.

End Controller.

(** ** Rounding is monotone *)

Module Rounding.

Import FloatFacts FloatOrder FixedStrings.

Local Open Scope Z_scope.

(** *** The bits that a shift drops *)

Lemma shr_1_exact (mrs : shr_record) :
  0 <= shr_m mrs -> Z.even (shr_m mrs) = true ->
  shr_r mrs = false -> shr_s mrs = false ->
  shr_r (shr_1 mrs) = false /\ shr_s (shr_1 mrs) = false.
Proof.
  destruct mrs as [m r s]. cbn [shr_m shr_r shr_s]. intros Hm Heven -> ->.
  destruct m as [| [p | p |] | p]; try discriminate; try (split; reflexivity); lia.
Qed.

(** After [k] shifts of [m0]: the mantissa is [m0 / 2^k], and no bit is
    recorded as lost when [2^k] divides [m0]. *)
Lemma shifted_step (m0 k : Z) (mrs : shr_record) :
  0 <= m0 -> 0 <= k ->
  shr_m mrs = m0 / 2 ^ k ->
  (m0 mod 2 ^ k = 0 -> shr_r mrs = false /\ shr_s mrs = false) ->
  shr_m (shr_1 mrs) = m0 / 2 ^ (k + 1)
  /\ (m0 mod 2 ^ (k + 1) = 0 -> shr_r (shr_1 mrs) = false /\ shr_s (shr_1 mrs) = false).
Proof.
  intros Hm0 Hk Hm Hexact.
  assert (Hp : 0 < 2 ^ k) by (apply Z.pow_pos_nonneg; lia).
  assert (Hpow : 2 ^ (k + 1) = 2 ^ k * 2) by (rewrite Z.pow_add_r by lia; reflexivity).
  assert (Hnn : 0 <= shr_m mrs) by (rewrite Hm; apply Z.div_pos; lia).
  split.
  - rewrite (shr_1_m _ Hnn), Hm, Hpow, Z.div_div by lia. reflexivity.
  - intros Hdiv. rewrite Hpow in Hdiv.
    assert (Hq : m0 = 2 ^ k * 2 * (m0 / (2 ^ k * 2)))
      by (pose proof (Z.div_mod m0 (2 ^ k * 2)); lia).
    assert (Hlow : m0 mod 2 ^ k = 0).
    { rewrite Hq. rewrite <- Z.mul_assoc, Z.mul_comm. apply Z.mod_mul. lia. }
    destruct (Hexact Hlow) as [Hr Hs].
    apply shr_1_exact; try assumption.
    rewrite Hm, Hq.
    replace (2 ^ k * 2 * (m0 / (2 ^ k * 2))) with (2 * (m0 / (2 ^ k * 2)) * 2 ^ k) by ring.
    rewrite Z.div_mul by lia. rewrite Z.even_mul. reflexivity.
Qed.

Lemma shifted_iter (p : positive) (m0 k : Z) (mrs : shr_record) :
  0 <= m0 -> 0 <= k ->
  shr_m mrs = m0 / 2 ^ k ->
  (m0 mod 2 ^ k = 0 -> shr_r mrs = false /\ shr_s mrs = false) ->
  shr_m (iter_pos shr_1 p mrs) = m0 / 2 ^ (k + Zpos p)
  /\ (m0 mod 2 ^ (k + Zpos p) = 0 ->
      shr_r (iter_pos shr_1 p mrs) = false /\ shr_s (iter_pos shr_1 p mrs) = false).
Proof.
  intros Hm0. revert k mrs.
  induction p as [p IH | p IH |]; intros k mrs Hk Hm Hexact; cbn [iter_pos].
  - destruct (@shifted_step m0 k mrs Hm0 Hk Hm Hexact) as [H1 E1].
    destruct (IH (k + 1) (shr_1 mrs) ltac:(lia) H1 E1) as [H2 E2].
    destruct (IH (k + 1 + Zpos p) _ ltac:(lia) H2 E2) as [H3 E3].
    replace (k + Zpos p~1) with (k + 1 + Zpos p + Zpos p) by lia. split; assumption.
  - destruct (IH k mrs Hk Hm Hexact) as [H2 E2].
    destruct (IH (k + Zpos p) _ ltac:(lia) H2 E2) as [H3 E3].
    replace (k + Zpos p~0) with (k + Zpos p + Zpos p) by lia. split; assumption.
  - apply shifted_step; assumption.
Qed.

Lemma round_nearest_even_bounds (m : Z) (l : location) :
  m <= round_nearest_even m l <= m + 1 /\ (l = loc_Exact -> round_nearest_even m l = m).
Proof.
  destruct l as [| []]; cbn [round_nearest_even]; try (split; [lia | reflexivity || discriminate]).
  destruct (Z.even m); split; try lia; discriminate.
Qed.

Lemma exact_location (mrs : shr_record) :
  shr_r mrs = false -> shr_s mrs = false -> loc_of_shr_record mrs = loc_Exact.
Proof. destruct mrs as [m r s]. cbn. intros -> ->. reflexivity. Qed.

(** The overflow test, on the value. *)
Lemma overflow_test (k E : Z) :
  2 ^ 52 <= k < 2 ^ 53 -> -1074 <= E ->
  (E <=? 971) = (k * 2 ^ (E + 1074) <? 2 ^ 2098).
Proof.
  intros Hk HE. destruct (Z.leb_spec E 971) as [Hle | Hgt]; symmetry.
  - apply Z.ltb_lt.
    apply Z.lt_le_trans with (2 ^ 53 * 2 ^ (E + 1074)).
    + apply Z.mul_lt_mono_pos_r; [apply Z.pow_pos_nonneg; lia | lia].
    + rewrite <- Z.pow_add_r by lia. apply Z.pow_le_mono_r; lia.
  - apply Z.ltb_ge.
    apply Z.le_trans with (2 ^ 52 * 2 ^ (E + 1074)).
    + rewrite <- Z.pow_add_r by lia. apply Z.pow_le_mono_r; lia.
    + apply Z.mul_le_mono_nonneg_r; [apply Z.pow_nonneg; lia | lia].
Qed.

(** The value that the rounding of a mantissa of more than 53 bits gives:
    the quotient [k] of the mantissa by the dropped power of two, or the
    next whole number, on the grid of the kept bits. *)
Lemma round_aux_shifted (s : bool) (q : positive) (e : Z) :
  let d := Zpos (digits2_pos q) in
  -1074 <= e -> 53 < d ->
  exists k,
    2 ^ 52 <= k <= 2 ^ 53
    /\ Zpos q / 2 ^ (d - 53) <= k <= Zpos q / 2 ^ (d - 53) + 1
    /\ (Zpos q mod 2 ^ (d - 53) = 0 -> k = Zpos q / 2 ^ (d - 53))
    /\ SFrank (binary_round_aux prec emax s (Zpos q) e loc_Exact)
       = cond_Zopp s (if k * 2 ^ (d + e - 53 + 1074) <? 2 ^ 2098
                      then k * 2 ^ (d + e - 53 + 1074) else beyond).
Proof.
  intros d He Hd.
  pose proof (digits2_pos_bounds q) as [Hlo Hhi]. fold d in Hlo, Hhi.
  assert (Hpn : 0 < 2 ^ (d - 53)) by (apply Z.pow_pos_nonneg; lia).
  set (m' := Zpos q / 2 ^ (d - 53)).
  assert (Hm' : 2 ^ 52 <= m' < 2 ^ 53).
  { unfold m'. split.
    - apply Z.div_le_lower_bound; [exact Hpn |].
      rewrite <- Z.pow_add_r by lia. replace (d - 53 + 52) with (d - 1) by lia. exact Hlo.
    - apply Z.div_lt_upper_bound; [exact Hpn |].
      rewrite <- Z.pow_add_r by lia. replace (d - 53 + 53) with d by lia. exact Hhi. }
  destruct (d - 53) as [| p | p] eqn:Hp; try lia.
  assert (H1 : shr_fexp prec emax (Zpos q) e loc_Exact
               = (iter_pos shr_1 p (shr_record_of_loc (Zpos q) loc_Exact), e + Zpos p)).
  { unfold shr_fexp, shr. rewrite fexp_eq. cbn [Zdigits2]. fold d.
    replace (Z.max (d + e - 53) (-1074) - e) with (Zpos p) by lia. reflexivity. }
  unfold binary_round_aux. rewrite H1. clear H1.
  destruct (@shifted_iter p (Zpos q) 0 (shr_record_of_loc (Zpos q) loc_Exact))
    as [Hshm Hexact]; try lia.
  { cbn [shr_record_of_loc shr_m]. rewrite Z.div_1_r. reflexivity. }
  { intros _. split; reflexivity. }
  cbn [Z.add] in Hshm, Hexact. fold m' in Hshm.
  set (mrs := iter_pos shr_1 p (shr_record_of_loc (Zpos q) loc_Exact)) in *.
  destruct (round_nearest_even_bounds (shr_m mrs) (loc_of_shr_record mrs)) as [Hk Hkx].
  set (k := round_nearest_even (shr_m mrs) (loc_of_shr_record mrs)) in *.
  rewrite Hshm in Hk.
  exists k. split; [lia |]. split; [exact Hk |]. split.
  { intros Hdiv. destruct (Hexact Hdiv) as [Hr Hs].
    rewrite (Hkx (exact_location _ Hr Hs)). exact Hshm. }
  replace (d + e - 53 + 1074) with (e + Zpos p + 1074) by lia.
  set (E := e + Zpos p) in *.
  assert (HE : -1074 <= E) by (unfold E; lia).
  destruct (Z.eq_dec k (2 ^ 53)) as [Hk53 | Hk53].
  - rewrite Hk53.
    assert (H2 : shr_fexp prec emax (2 ^ 53) E loc_Exact
                 = ({| shr_m := 2 ^ 52; shr_r := false; shr_s := false |}, E + 1)).
    { unfold shr_fexp, shr. rewrite fexp_eq. change (Zdigits2 (2 ^ 53)) with 54.
      replace (Z.max (54 + E - 53) (-1074) - E) with 1 by lia. reflexivity. }
    rewrite H2. cbn [shr_m]. change (2 ^ 52) with (Zpos 4503599627370496) at 1.
    cbv iota beta.
    change (E + 1 <=? emax - prec) with (E + 1 <=? 971).
    replace (2 ^ 53 * 2 ^ (E + 1074)) with (2 ^ 52 * 2 ^ (E + 1 + 1074))
      by (rewrite <- !Z.pow_add_r by lia; f_equal; lia).
    rewrite <- (@overflow_test (2 ^ 52) (E + 1)); [| split; [lia | reflexivity] | lia].
    destruct (E + 1 <=? 971); cbn [SFrank]; reflexivity.
  - assert (Hklt : 2 ^ 52 <= k < 2 ^ 53) by lia.
    destruct k as [| kk | kk] eqn:Hkk; try lia.
    assert (Hdk : Zpos (digits2_pos kk) = 53).
    { pose proof (@digits_at_most_53 kk ltac:(lia)).
      pose proof (@digits_at_least_53 kk ltac:(lia)). lia. }
    assert (H2 : shr_fexp prec emax (Zpos kk) E loc_Exact
                 = ({| shr_m := Zpos kk; shr_r := false; shr_s := false |}, E)).
    { unfold shr_fexp, shr. rewrite fexp_eq. cbn [Zdigits2]. rewrite Hdk.
      replace (Z.max (53 + E - 53) (-1074) - E) with 0 by lia. reflexivity. }
    rewrite H2. cbn [shr_m].
    change (E <=? emax - prec) with (E <=? 971).
    rewrite <- (@overflow_test (Zpos kk) E) by lia.
    destruct (E <=? 971); cbn [SFrank]; reflexivity.
Qed.

(** The rounding of a mantissa of at most 53 bits changes nothing. *)
Lemma round_aux_exact (s : bool) (q : positive) (e : Z) :
  -1074 <= e -> Zpos (digits2_pos q) <= 53 ->
  binary_round_aux prec emax s (Zpos q) e loc_Exact
  = if e <=? 971 then S754_finite s q e else S754_infinity s.
Proof.
  intros He Hd.
  assert (H1 : shr_fexp prec emax (Zpos q) e loc_Exact
               = ({| shr_m := Zpos q; shr_r := false; shr_s := false |}, e)).
  { unfold shr_fexp, shr. rewrite fexp_eq. cbn [Zdigits2].
    destruct (Z.max (Zpos (digits2_pos q) + e - 53) (-1074) - e) eqn:Hn;
      try reflexivity. lia. }
  unfold binary_round_aux. rewrite H1. cbn [shr_m loc_of_shr_record round_nearest_even].
  rewrite H1. reflexivity.
Qed.

Lemma digits_shifted (m p : positive) :
  Zpos (digits2_pos (Pos.iter xO m p)) = Zpos (digits2_pos m) + Zpos p.
Proof.
  induction p as [| p IH] using Pos.peano_ind.
  - cbn [Pos.iter digits2_pos]. lia.
  - rewrite Pos.iter_succ. cbn [digits2_pos]. rewrite Pos2Z.inj_succ, IH. lia.
Qed.

Lemma units_lower (m : positive) (e : Z) :
  -1074 <= e -> 2 ^ (Zpos (digits2_pos m) + e + 1073) <= units m e.
Proof.
  intros He. unfold units. pose proof (digits2_pos_bounds m) as [Hlo _].
  replace (Zpos (digits2_pos m) + e + 1073) with (Zpos (digits2_pos m) - 1 + (e + 1074)) by lia.
  rewrite Z.pow_add_r by lia.
  apply Z.mul_le_mono_nonneg_r; [apply Z.pow_nonneg; lia | exact Hlo].
Qed.

Lemma units_upper (mb : positive) (eb : Z) :
  valid_binary (S754_finite false mb eb) = true -> units mb eb < 2 ^ 2098.
Proof.
  intros Hv. destruct (@valid_finite _ _ _ Hv) as [Heb [Hmb _]]. unfold units.
  apply Z.lt_le_trans with (2 ^ 53 * 2 ^ (eb + 1074)).
  - apply Z.mul_lt_mono_pos_r; [apply Z.pow_pos_nonneg; lia | exact Hmb].
  - rewrite <- Z.pow_add_r by lia. apply Z.pow_le_mono_r; lia.
Qed.

(** A value below [2^2098] has a rounding exponent of at most 971. *)
Lemma no_overflow (m : positive) (e : Z) :
  -1074 <= e -> units m e < 2 ^ 2098 ->
  Z.max (Zpos (digits2_pos m) + e - 53) (-1074) <= 971.
Proof.
  intros He Hlt. pose proof (units_lower m He) as Hlo.
  assert (Hd : Zpos (digits2_pos m) + e + 1073 < 2098).
  { apply (Z.pow_lt_mono_r_iff 2); lia. }
  lia.
Qed.

(** *** Whole numbers on a grid *)

Lemma grid_lower (g W m k Q : Z) :
  0 < g -> 0 < W -> m / W <= k ->
  Q * (g * W) <= m * g -> Q * (g * W) <= k * (g * W).
Proof.
  intros Hg HW Hk Hle.
  assert (HQ : W * Q <= m) by nia.
  apply Z.div_le_lower_bound in HQ; [| exact HW].
  apply Z.mul_le_mono_nonneg_r; [nia | lia].
Qed.

Lemma grid_upper (g W m k Q : Z) :
  0 < g -> 0 < W -> 0 <= m ->
  k <= m / W + 1 -> (m mod W = 0 -> k = m / W) ->
  m * g <= Q * (g * W) -> k * (g * W) <= Q * (g * W).
Proof.
  intros Hg HW Hm Hk Hexact Hle.
  assert (HQ : m <= Q * W) by nia.
  apply Z.mul_le_mono_nonneg_r; [nia |].
  destruct (Z.eq_dec (m mod W) 0) as [Hz | Hnz].
  - rewrite (Hexact Hz). apply Z.div_le_upper_bound; [exact HW | lia].
  - assert (Hlt : m < W * Q).
    { destruct (Z.eq_dec m (Q * W)) as [Heq | Hne]; [| lia].
      rewrite Heq, Z.mod_mul in Hnz by lia. congruence. }
    apply Z.div_lt_upper_bound in Hlt; [lia | exact HW].
Qed.

(** A binary64 number whose exponent is below [E] is below [2^52] on the
    grid of [E]; one whose exponent is at least [E] is on that grid. *)
Lemma below_grid (mb : positive) (eb E : Z) :
  valid_binary (S754_finite false mb eb) = true -> eb < E ->
  units mb eb < 2 ^ 52 * 2 ^ (E + 1074).
Proof.
  intros Hv Hlt. destruct (@valid_finite _ _ _ Hv) as [Heb [Hmb _]]. unfold units.
  apply Z.lt_le_trans with (2 ^ 53 * 2 ^ (eb + 1074)).
  - apply Z.mul_lt_mono_pos_r; [apply Z.pow_pos_nonneg; lia | exact Hmb].
  - rewrite <- !Z.pow_add_r by lia. apply Z.pow_le_mono_r; lia.
Qed.

Lemma on_grid (mb : positive) (eb E : Z) :
  -1074 <= E <= eb ->
  units mb eb = Zpos mb * 2 ^ (eb - E) * 2 ^ (E + 1074).
Proof.
  intros HE. unfold units. rewrite <- Z.mul_assoc, <- Z.pow_add_r by lia.
  f_equal. f_equal. lia.
Qed.

Lemma shl_align_shifted (m : positive) (e e' : Z) :
  e' < e ->
  exists mz,
    shl_align m e e' = (mz, e')
    /\ Zpos mz = Zpos m * 2 ^ (e - e')
    /\ Zpos (digits2_pos mz) = Zpos (digits2_pos m) + (e - e').
Proof.
  intros Hlt. pose proof (@shl_align_fst m e e' ltac:(lia)) as Hfst.
  unfold shl_align in *.
  destruct (e' - e) as [| p | p] eqn:Hp; try lia.
  cbn [fst] in Hfst. exists (Pos.iter xO m p).
  split; [reflexivity |]. split; [exact Hfst |].
  rewrite digits_shifted. lia.
Qed.

Lemma shl_align_kept (m : positive) (e e' : Z) : e <= e' -> shl_align m e e' = (m, e).
Proof.
  intros Hle. unfold shl_align. destruct (e' - e) eqn:Hp; try reflexivity. lia.
Qed.

(** *** The rounding of a whole number

    The value [R] that [binary_round] gives a mantissa [m] at an exponent
    [e]: it is not below a binary64 number that the value of [m] at [e] is
    not below, and not above one that this value is not above. *)
Lemma binary_round_monotone (s : bool) (m : positive) (e : Z) :
  -1074 <= e ->
  exists R,
    SFrank (binary_round prec emax s m e) = cond_Zopp s R
    /\ 0 < R
    /\ (forall mb eb, valid_binary (S754_finite false mb eb) = true ->
          units mb eb <= units m e -> units mb eb <= R)
    /\ (forall mb eb, valid_binary (S754_finite false mb eb) = true ->
          units m e <= units mb eb -> R <= units mb eb).
Proof.
  intros He. set (d := Zpos (digits2_pos m)).
  assert (Hbeyond : forall mb eb, valid_binary (S754_finite false mb eb) = true ->
                      units mb eb < beyond).
  { intros mb eb Hv. pose proof (@scaled_bound _ _ _ Hv) as Hb.
    unfold scaled in Hb. cbn [cond_Zopp] in Hb. unfold units. lia. }
  assert (Hvpos : 0 < units m e) by (apply units_pos; lia).
  assert (Hexact : forall mz ez,
             -1074 <= ez -> units mz ez = units m e ->
             Zpos (digits2_pos mz) <= 53 ->
             ez <= Z.max (Zpos (digits2_pos mz) + ez - 53) (-1074) ->
             exists R,
               SFrank (binary_round_aux prec emax s (Zpos mz) ez loc_Exact) = cond_Zopp s R
               /\ 0 < R
               /\ (forall mb eb, valid_binary (S754_finite false mb eb) = true ->
                     units mb eb <= units m e -> units mb eb <= R)
               /\ (forall mb eb, valid_binary (S754_finite false mb eb) = true ->
                     units m e <= units mb eb -> R <= units mb eb)).
  { intros mz ez Hez Hunits Hdz Hcanon. rewrite (@round_aux_exact s mz ez Hez Hdz).
    exists (if ez <=? 971 then units m e else beyond).
    split; [| split; [| split]].
    - destruct (ez <=? 971); cbn [SFrank]; [| reflexivity].
      unfold scaled. fold (units mz ez). rewrite Hunits. reflexivity.
    - destruct (ez <=? 971); [exact Hvpos | reflexivity].
    - intros mb eb Hv Hle. destruct (ez <=? 971); [exact Hle |].
      apply Z.lt_le_incl, Hbeyond, Hv.
    - intros mb eb Hv Hle. destruct (Z.leb_spec ez 971) as [_ | Hgt]; [exact Hle |].
      exfalso. pose proof (@units_upper _ _ Hv) as Hub.
      pose proof (@units_lower mz ez Hez) as Hlo. rewrite Hunits in Hlo.
      assert (Hd : Zpos (digits2_pos mz) + ez + 1073 < 2098)
        by (apply (Z.pow_lt_mono_r_iff 2); lia).
      lia. }
  unfold binary_round. rewrite fexp_eq. fold d.
  destruct (Z_lt_le_dec (Z.max (d + e - 53) (-1074)) e) as [Hshift | Hkeep].
  - (* the exponent is above the one of the rounding: the mantissa is shifted *)
    destruct (@shl_align_shifted m e _ Hshift) as [mz [Halign [Hmz Hdz]]].
    rewrite Halign. fold d in Hdz.
    apply Hexact; try lia.
    unfold units. rewrite Hmz, <- Z.mul_assoc, <- Z.pow_add_r by lia.
    f_equal. f_equal. lia.
  - rewrite (@shl_align_kept m e _ Hkeep).
    destruct (Z_le_gt_dec d 53) as [Hd | Hd].
    + apply Hexact; try lia; try reflexivity.
    + (* more than 53 bits: the rounding drops [d - 53] bits *)
      destruct (@round_aux_shifted s m e He ltac:(fold d; lia))
        as [k [Hk [Hkm [Hkx Hrank]]]].
      fold d in Hkm, Hkx, Hrank. rewrite Hrank.
      set (E := d + e - 53) in *.
      assert (HG : 2 ^ (E + 1074) = 2 ^ (e + 1074) * 2 ^ (d - 53))
        by (rewrite <- Z.pow_add_r by lia; f_equal; unfold E; lia).
      assert (Hg : 0 < 2 ^ (e + 1074)) by (apply Z.pow_pos_nonneg; lia).
      assert (HW : 0 < 2 ^ (d - 53)) by (apply Z.pow_pos_nonneg; lia).
      assert (HGpos : 0 < 2 ^ (E + 1074)) by (apply Z.pow_pos_nonneg; unfold E; lia).
      assert (Hlow : forall mb eb, valid_binary (S754_finite false mb eb) = true ->
                       units mb eb <= units m e -> units mb eb <= k * 2 ^ (E + 1074)).
      { intros mb eb Hv Hle. destruct (@valid_finite _ _ _ Hv) as [Heb _].
        destruct (Z_lt_le_dec eb E) as [Hlt | Hge].
        - pose proof (@below_grid mb eb E Hv Hlt) as Hb.
          apply Z.lt_le_incl, Z.lt_le_trans with (1 := Hb).
          apply Z.mul_le_mono_nonneg_r; lia.
        - rewrite (@on_grid mb eb E) in Hle |- * by (unfold E in *; lia).
          rewrite HG in Hle |- *. unfold units in Hle.
          apply (@grid_lower _ _ (Zpos m)); try assumption; lia. }
      assert (Hup : forall mb eb, valid_binary (S754_finite false mb eb) = true ->
                      units m e <= units mb eb -> k * 2 ^ (E + 1074) <= units mb eb).
      { intros mb eb Hv Hle. destruct (@valid_finite _ _ _ Hv) as [Heb _].
        destruct (Z_lt_le_dec eb E) as [Hlt | Hge].
        - exfalso. pose proof (@below_grid mb eb E Hv Hlt) as Hb.
          assert (Hfloor : 2 ^ 52 * 2 ^ (E + 1074) <= units m e).
          { unfold units. rewrite HG.
            pose proof (digits2_pos_bounds m) as [Hlo _]. fold d in Hlo.
            assert (H52 : 2 ^ 52 * 2 ^ (d - 53) <= Zpos m).
            { rewrite <- Z.pow_add_r by lia. replace (52 + (d - 53)) with (d - 1) by lia.
              exact Hlo. }
            replace (2 ^ 52 * (2 ^ (e + 1074) * 2 ^ (d - 53)))
              with (2 ^ 52 * 2 ^ (d - 53) * 2 ^ (e + 1074)) by ring.
            apply Z.mul_le_mono_nonneg_r; lia. }
          lia.
        - rewrite (@on_grid mb eb E) in Hle |- * by (unfold E in *; lia).
          rewrite HG in Hle |- *. unfold units in Hle.
          apply (@grid_upper _ _ (Zpos m)); try assumption; lia. }
      exists (if k * 2 ^ (E + 1074) <? 2 ^ 2098 then k * 2 ^ (E + 1074) else beyond).
      split; [reflexivity |]. split; [| split].
      * destruct (k * 2 ^ (E + 1074) <? 2 ^ 2098); [| reflexivity].
        apply Z.mul_pos_pos; lia.
      * intros mb eb Hv Hle. destruct (k * 2 ^ (E + 1074) <? 2 ^ 2098).
        -- apply Hlow; assumption.
        -- apply Z.lt_le_incl, Hbeyond, Hv.
      * intros mb eb Hv Hle. pose proof (Hup mb eb Hv Hle) as Hk'.
        pose proof (@units_upper _ _ Hv) as Hub.
        destruct (Z.ltb_spec (k * 2 ^ (E + 1074)) (2 ^ 2098)); [exact Hk' | lia].
Qed.

(** *** A sum and a difference with a number that is not negative *)

Lemma aligned_units (m : positive) (e ez : Z) :
  -1074 <= ez <= e ->
  Zpos (fst (shl_align m e ez)) * 2 ^ (ez + 1074) = units m e.
Proof.
  intros He. rewrite shl_align_fst by lia. unfold units.
  rewrite <- Z.mul_assoc, <- Z.pow_add_r by lia. f_equal. f_equal. lia.
Qed.

(** The rank of the rounding of a whole number [v] at an exponent [ez],
    against a binary64 number of mantissa [ma] and exponent [ea] whose
    aligned mantissa is [A]. *)
Lemma normalize_above (sa : bool) (ma : positive) (ea ez v A : Z) :
  valid_binary (S754_finite sa ma ea) = true ->
  -1074 <= ez -> A * 2 ^ (ez + 1074) = units ma ea ->
  cond_Zopp sa A <= v ->
  scaled sa ma ea <= SFrank (binary_normalize prec emax v ez false).
Proof.
  intros Hv Hez HA Hle.
  assert (Hg : 0 < 2 ^ (ez + 1074)) by (apply Z.pow_pos_nonneg; lia).
  assert (Hu : 0 < units ma ea) by (apply units_pos, (@valid_finite _ _ _ Hv)).
  assert (HApos : 0 < A) by nia.
  unfold scaled. fold (units ma ea).
  destruct v as [| w | w]; cbn [binary_normalize].
  - cbn [SFrank]. destruct sa; cbn [cond_Zopp] in *; lia.
  - destruct (@binary_round_monotone false w ez Hez) as [R [-> [HR [Hlow _]]]].
    cbn [cond_Zopp]. destruct sa; cbn [cond_Zopp] in *; [lia |].
    apply (Hlow ma ea Hv). unfold units at 2. rewrite <- HA.
    apply Z.mul_le_mono_nonneg_r; lia.
  - destruct (@binary_round_monotone true w ez Hez) as [R [-> [HR [_ Hup]]]].
    cbn [cond_Zopp]. destruct sa; cbn [cond_Zopp] in *; [| lia].
    assert (HRle : R <= units ma ea).
    { apply (Hup ma ea Hv). unfold units at 1. rewrite <- HA.
      apply Z.mul_le_mono_nonneg_r; lia. }
    lia.
Qed.

Lemma normalize_below (sa : bool) (ma : positive) (ea ez v A : Z) :
  valid_binary (S754_finite sa ma ea) = true ->
  -1074 <= ez -> A * 2 ^ (ez + 1074) = units ma ea ->
  v <= cond_Zopp sa A ->
  SFrank (binary_normalize prec emax v ez false) <= scaled sa ma ea.
Proof.
  intros Hv Hez HA Hle.
  assert (Hg : 0 < 2 ^ (ez + 1074)) by (apply Z.pow_pos_nonneg; lia).
  assert (Hu : 0 < units ma ea) by (apply units_pos, (@valid_finite _ _ _ Hv)).
  assert (HApos : 0 < A) by nia.
  unfold scaled. fold (units ma ea).
  destruct v as [| w | w]; cbn [binary_normalize].
  - cbn [SFrank]. destruct sa; cbn [cond_Zopp] in *; lia.
  - destruct (@binary_round_monotone false w ez Hez) as [R [-> [HR [_ Hup]]]].
    cbn [cond_Zopp]. destruct sa; cbn [cond_Zopp] in *; [lia |].
    apply (Hup ma ea Hv). unfold units at 1. rewrite <- HA.
    apply Z.mul_le_mono_nonneg_r; lia.
  - destruct (@binary_round_monotone true w ez Hez) as [R [-> [HR [Hlow _]]]].
    cbn [cond_Zopp]. destruct sa; cbn [cond_Zopp] in *; [| lia].
    assert (HRge : units ma ea <= R).
    { apply (Hlow ma ea Hv). unfold units at 2. rewrite <- HA.
      apply Z.mul_le_mono_nonneg_r; lia. }
    lia.
Qed.

Lemma beyond_pos : 0 < beyond.
Proof. reflexivity. Qed.

(** A number that is not negative: a zero, a positive number or
    [+Infinity]. *)
Lemma nonneg_spec (p : float) :
  is_nan p = false -> (0 <=? p)%float = true ->
  match Prim2SF p with
  | S754_zero _ | S754_finite false _ _ | S754_infinity false => True
  | _ => False
  end.
Proof.
  rewrite is_nan_Prim2SF, leb_spec, Prim2SF_zero.
  destruct (Prim2SF p) as [s | [] | | [] m e]; try discriminate; intros _ _; exact I.
Qed.

Lemma SFadd_nonneg (a p : spec_float) :
  valid_binary a = true -> valid_binary p = true ->
  match a with S754_zero _ | S754_finite _ _ _ => True | _ => False end ->
  match p with
  | S754_zero _ | S754_finite false _ _ | S754_infinity false => True
  | _ => False
  end ->
  SFadd prec emax a p <> S754_nan /\ SFrank a <= SFrank (SFadd prec emax a p).
Proof.
  intros Hva Hvp Ha Hp.
  destruct a as [sa | sa | | sa ma ea]; try contradiction;
    destruct p as [sp | [] | | [] mp ep]; try contradiction; cbn [SFadd].
  - destruct sa, sp; split; cbn [SFrank]; try discriminate; lia.
  - split; [discriminate |]. cbn [SFrank cond_Zopp]. pose proof beyond_pos. lia.
  - split; [discriminate |]. cbn [SFrank cond_Zopp]. unfold scaled. cbn [cond_Zopp].
    pose proof (@units_pos mp ep (proj1 (proj1 (@valid_finite _ _ _ Hvp)))) as Hu.
    unfold units in Hu. lia.
  - split; [discriminate |]. lia.
  - split; [discriminate |]. cbn [SFrank cond_Zopp].
    pose proof (@scaled_bound _ _ _ Hva). lia.
  - destruct (@valid_finite _ _ _ Hva) as [[Hea _] _].
    destruct (@valid_finite _ _ _ Hvp) as [[Hep _] _].
    split; [apply binary_normalize_not_nan |]. cbn [SFrank].
    apply normalize_above with (A := Zpos (fst (shl_align ma ea (Z.min ea ep))));
      [exact Hva | lia | apply aligned_units; lia |].
    cbn [cond_Zopp]. lia.
Qed.

Lemma SFsub_nonneg (a p : spec_float) :
  valid_binary a = true -> valid_binary p = true ->
  match a with S754_zero _ | S754_finite _ _ _ => True | _ => False end ->
  match p with
  | S754_zero _ | S754_finite false _ _ | S754_infinity false => True
  | _ => False
  end ->
  SFsub prec emax a p <> S754_nan /\ SFrank (SFsub prec emax a p) <= SFrank a.
Proof.
  intros Hva Hvp Ha Hp.
  destruct a as [sa | sa | | sa ma ea]; try contradiction;
    destruct p as [sp | [] | | [] mp ep]; try contradiction; cbn [SFsub].
  - destruct sa, sp; split; cbn [SFrank]; try discriminate; lia.
  - split; [discriminate |]. cbn [SFrank negb cond_Zopp]. pose proof beyond_pos. lia.
  - split; [discriminate |]. cbn [SFrank negb]. unfold scaled. cbn [cond_Zopp].
    pose proof (@units_pos mp ep (proj1 (proj1 (@valid_finite _ _ _ Hvp)))) as Hu.
    unfold units in Hu. lia.
  - split; [discriminate |]. lia.
  - split; [discriminate |]. cbn [SFrank negb cond_Zopp].
    pose proof (@scaled_bound _ _ _ Hva). lia.
  - destruct (@valid_finite _ _ _ Hva) as [[Hea _] _].
    destruct (@valid_finite _ _ _ Hvp) as [[Hep _] _].
    split; [apply binary_normalize_not_nan |]. cbn [SFrank].
    apply normalize_below with (A := Zpos (fst (shl_align ma ea (Z.min ea ep))));
      [exact Hva | lia | apply aligned_units; lia |].
    cbn [cond_Zopp]. lia.
Qed.

Local Open Scope float_scope.

Lemma finite_spec (a : float) :
  is_finite a = true ->
  match Prim2SF a with S754_zero _ | S754_finite _ _ _ => True | _ => False end.
Proof.
  rewrite is_finite_Prim2SF. destruct (Prim2SF a); try discriminate; intros _; exact I.
Qed.

Lemma not_nan_of_spec (x : float) : Prim2SF x <> S754_nan -> is_nan x = false.
Proof. rewrite is_nan_Prim2SF. destruct (Prim2SF x); congruence. Qed.

(** Adding a number that is not negative to a finite number does not give
    less, and taking it away does not give more. *)
Lemma add_nonneg_ge (a p : float) :
  is_finite a = true -> is_nan p = false -> (0 <=? p) = true ->
  is_nan (a + p) = false /\ (a <=? a + p) = true.
Proof.
  intros Ha Hp Hpos.
  destruct (@SFadd_nonneg (Prim2SF a) (Prim2SF p) (Prim2SF_valid a) (Prim2SF_valid p)
              (@finite_spec a Ha) (@nonneg_spec p Hp Hpos)) as [Hnan Hrank].
  change (SFadd prec emax (Prim2SF a) (Prim2SF p)) with (SF64add (Prim2SF a) (Prim2SF p))
    in Hnan, Hrank.
  rewrite <- add_spec in Hnan, Hrank.
  pose proof (@not_nan_of_spec _ Hnan) as Hn. split; [exact Hn |].
  rewrite (@leb_rank a (a + p) (@finite_not_nan _ Ha) Hn). apply Z.leb_le, Hrank.
Qed.

Lemma sub_nonneg_le (a p : float) :
  is_finite a = true -> is_nan p = false -> (0 <=? p) = true ->
  is_nan (a - p) = false /\ (a - p <=? a) = true.
Proof.
  intros Ha Hp Hpos.
  destruct (@SFsub_nonneg (Prim2SF a) (Prim2SF p) (Prim2SF_valid a) (Prim2SF_valid p)
              (@finite_spec a Ha) (@nonneg_spec p Hp Hpos)) as [Hnan Hrank].
  change (SFsub prec emax (Prim2SF a) (Prim2SF p)) with (SF64sub (Prim2SF a) (Prim2SF p))
    in Hnan, Hrank.
  rewrite <- sub_spec in Hnan, Hrank.
  pose proof (@not_nan_of_spec _ Hnan) as Hn. split; [exact Hn |].
  rewrite (@leb_rank (a - p) a Hn (@finite_not_nan _ Ha)). apply Z.leb_le, Hrank.
Qed.

End Rounding.

(** ** The limits of the amplitude axis *)

Section AxisLimits.

Import FloatFacts FloatOrder FixedStrings FactorFacts Rounding.

Local Open Scope Z_scope.

Lemma binary_round_aux_sign (s : bool) (m e : Z) (l : location) :
  0 <= m ->
  match binary_round_aux prec emax s m e l with
  | S754_zero s' | S754_infinity s' | S754_finite s' _ _ => s' = s
  | S754_nan => False
  end.
Proof.
  intros Hm. pose proof (@binary_round_aux_not_nan s m e l Hm) as Hnan.
  unfold binary_round_aux in *.
  destruct (shr_fexp prec emax m e l) as [mrs' e'].
  destruct (shr_fexp prec emax _ e' loc_Exact) as [mrs'' e''].
  destruct (shr_m mrs'') as [| p | p]; [reflexivity | | congruence].
  destruct (e'' <=? emax - prec); reflexivity.
Qed.

Lemma SFsub_ordered (a b : spec_float) :
  valid_binary a = true -> valid_binary b = true ->
  match a with S754_zero _ | S754_finite _ _ _ => True | _ => False end ->
  match b with S754_zero _ | S754_finite _ _ _ => True | _ => False end ->
  SFrank b <= SFrank a ->
  match SFsub prec emax a b with
  | S754_zero _ | S754_finite false _ _ | S754_infinity false => True
  | _ => False
  end.
Proof.
  intros Hva Hvb Ha Hb Hr.
  destruct a as [sa | sa | | sa ma ea]; try contradiction;
    destruct b as [sb | sb | | sb mb eb]; try contradiction; cbn [SFsub].
  - destruct sa, sb; exact I.
  - cbn [SFrank] in Hr. unfold scaled in Hr.
    pose proof (@units_pos mb eb (proj1 (proj1 (@valid_finite _ _ _ Hvb)))) as Hu.
    unfold units in Hu. destruct sb; cbn [cond_Zopp negb] in *; [exact I | lia].
  - cbn [SFrank] in Hr. unfold scaled in Hr.
    pose proof (@units_pos ma ea (proj1 (proj1 (@valid_finite _ _ _ Hva)))) as Hu.
    unfold units in Hu. destruct sa; cbn [cond_Zopp] in *; [lia | exact I].
  - destruct (@valid_finite _ _ _ Hva) as [[Hea _] _].
    destruct (@valid_finite _ _ _ Hvb) as [[Heb _] _].
    set (ez := Z.min ea eb).
    pose proof (@aligned_units ma ea ez ltac:(subst ez; lia)) as HA.
    pose proof (@aligned_units mb eb ez ltac:(subst ez; lia)) as HB.
    assert (Hg : 0 < 2 ^ (ez + 1074)) by (apply Z.pow_pos_nonneg; subst ez; lia).
    cbn [SFrank] in Hr. unfold scaled in Hr. fold (units ma ea) (units mb eb) in Hr.
    rewrite <- HA, <- HB in Hr.
    set (A := Zpos (fst (shl_align ma ea ez))) in *.
    set (B := Zpos (fst (shl_align mb eb ez))) in *.
    assert (Hv : 0 <= cond_Zopp sa A - cond_Zopp sb B).
    { destruct sa, sb; cbn [cond_Zopp] in *; nia. }
    destruct (cond_Zopp sa A - cond_Zopp sb B) as [| w | w]; [exact I | | lia].
    cbn [binary_normalize].
    pose proof (@binary_round_nonzero false w ez ltac:(subst ez; lia)) as Hnz.
    destruct (binary_round prec emax false w ez) as [s | s | | s m e];
      cbn [nonzero_of_sign] in Hnz; try contradiction; subst s; exact I.
Qed.

Local Open Scope float_scope.

Lemma nonneg_of_spec (x : float) :
  match Prim2SF x with
  | S754_zero _ | S754_finite false _ _ | S754_infinity false => True
  | _ => False
  end ->
  is_nan x = false /\ (0 <=? x) = true.
Proof.
  rewrite is_nan_Prim2SF, leb_spec, Prim2SF_zero.
  destruct (Prim2SF x) as [s | [] | | [] m e]; try contradiction; intros _;
    split; reflexivity.
Qed.

(** The distance of two finite numbers in order is not negative. *)
Lemma sub_ordered_nonneg (a b : float) :
  is_finite a = true -> is_finite b = true -> (rank b <= rank a)%Z ->
  is_nan (a - b) = false /\ (0 <=? a - b) = true.
Proof.
  intros Ha Hb Hr. apply nonneg_of_spec. rewrite sub_spec.
  exact (@SFsub_ordered (Prim2SF a) (Prim2SF b) (Prim2SF_valid a) (Prim2SF_valid b)
           (@finite_spec a Ha) (@finite_spec b Hb) Hr).
Qed.

Lemma abs_nonneg (a : float) :
  is_nan a = false -> is_nan (abs a) = false /\ (0 <=? abs a) = true.
Proof.
  intros Ha. apply nonneg_of_spec. rewrite abs_spec.
  rewrite is_nan_Prim2SF in Ha.
  destruct (Prim2SF a) as [s | s | | s m e]; try discriminate; exact I.
Qed.

(** The pad of an axis: a distance that is not negative, times a positive
    constant. *)
Lemma pad_nonneg (range c : float) (mc : positive) (ec : Z) :
  Prim2SF c = S754_finite false mc ec ->
  is_nan range = false -> (0 <=? range) = true ->
  is_nan (range * c) = false /\ (0 <=? range * c) = true.
Proof.
  intros Hc Hn Hpos. apply nonneg_of_spec. rewrite mul_spec, Hc.
  pose proof (@nonneg_spec range Hn Hpos) as Hr.
  unfold SF64mul.
  destruct (Prim2SF range) as [s | [] | | [] m e]; try contradiction; cbn [SFmul xorb];
    try exact I.
  pose proof (@binary_round_aux_sign false (Zpos (m * mc)) (e + ec)
                loc_Exact ltac:(lia)) as Hs.
  destruct (binary_round_aux prec emax false _ _ _) as [s | s | | s m' e'];
    try contradiction; subst s; exact I.
Qed.

(** *** The least and the greatest of a list *)

Lemma Math_min_pair (a b : float) :
  is_nan a = false -> is_nan b = false ->
  (Math_min a b = a \/ Math_min a b = b)
  /\ rank (Math_min a b) = Z.min (rank a) (rank b).
Proof.
  intros Ha Hb. unfold Math_min. rewrite Ha, Hb. cbn [orb].
  rewrite (@ltb_rank a b Ha Hb), (@ltb_rank b a Hb Ha).
  destruct (Z.ltb_spec (rank a) (rank b)); [split; [auto | lia] |].
  destruct (Z.ltb_spec (rank b) (rank a)); [split; [auto | lia] |].
  destruct (is_negative_zero a); split; auto; lia.
Qed.

Lemma Math_max_pair (a b : float) :
  is_nan a = false -> is_nan b = false ->
  (Math_max a b = a \/ Math_max a b = b)
  /\ rank (Math_max a b) = Z.max (rank a) (rank b).
Proof.
  intros Ha Hb. unfold Math_max. rewrite Ha, Hb. cbn [orb].
  rewrite (@ltb_rank a b Ha Hb), (@ltb_rank b a Hb Ha).
  destruct (Z.ltb_spec (rank a) (rank b)); [split; [auto | lia] |].
  destruct (Z.ltb_spec (rank b) (rank a)); [split; [auto | lia] |].
  destruct (is_negative_zero a); split; auto; lia.
Qed.

Lemma fold_Math_min (l : list float) (acc : float) :
  is_nan acc = false -> Forall (fun x => is_nan x = false) l ->
  let r := fold_left Math_min l acc in
  is_nan r = false /\ (r = acc \/ In r l)
  /\ (rank r <= rank acc)%Z /\ (forall x, In x l -> (rank r <= rank x)%Z).
Proof.
  revert acc. induction l as [| y l IH]; intros acc Hacc Hl; cbn [fold_left].
  - repeat split; auto. lia. intros x [].
  - inversion Hl as [| ? ? Hy Hl']; subst.
    destruct (@Math_min_pair acc y Hacc Hy) as [Hsel Hrank].
    assert (Hn : is_nan (Math_min acc y) = false) by (destruct Hsel as [-> | ->]; assumption).
    destruct (IH (Math_min acc y) Hn Hl') as [Hr [Hin [Hle Hall]]].
    split; [exact Hr |]. split; [| split].
    + destruct Hin as [-> | Hin]; [| right; right; exact Hin].
      destruct Hsel as [-> | ->]; [left; reflexivity | right; left; reflexivity].
    + lia.
    + intros x [<- | Hx]; [lia | apply (Hall x Hx)].
Qed.

Lemma fold_Math_max (l : list float) (acc : float) :
  is_nan acc = false -> Forall (fun x => is_nan x = false) l ->
  let r := fold_left Math_max l acc in
  is_nan r = false /\ (r = acc \/ In r l)
  /\ (rank acc <= rank r)%Z /\ (forall x, In x l -> (rank x <= rank r)%Z).
Proof.
  revert acc. induction l as [| y l IH]; intros acc Hacc Hl; cbn [fold_left].
  - repeat split; auto. lia. intros x [].
  - inversion Hl as [| ? ? Hy Hl']; subst.
    destruct (@Math_max_pair acc y Hacc Hy) as [Hsel Hrank].
    assert (Hn : is_nan (Math_max acc y) = false) by (destruct Hsel as [-> | ->]; assumption).
    destruct (IH (Math_max acc y) Hn Hl') as [Hr [Hin [Hle Hall]]].
    split; [exact Hr |]. split; [| split].
    + destruct Hin as [-> | Hin]; [| right; right; exact Hin].
      destruct Hsel as [-> | ->]; [left; reflexivity | right; left; reflexivity].
    + lia.
    + intros x [<- | Hx]; [lia | apply (Hall x Hx)].
Qed.

Lemma finite_rank (x : float) :
  is_finite x = true -> (- beyond < rank x < beyond)%Z.
Proof.
  intros Hx. unfold rank. pose proof (Prim2SF_valid x) as Hv.
  rewrite is_finite_Prim2SF in Hx. pose proof beyond_pos.
  destruct (Prim2SF x) as [s | s | | s m e]; try discriminate; cbn [SFrank]; [lia |].
  apply (@scaled_bound _ _ _ Hv).
Qed.

(** The least and the greatest of finite numbers, one at least: each is one
    of the numbers, and no number is outside them. *)
Lemma Math_min_list_finite (l : list float) (y : float) :
  Forall (fun x => is_finite x = true) l -> In y l ->
  In (Math_min_list l) l /\ forall x, In x l -> (rank (Math_min_list l) <= rank x)%Z.
Proof.
  intros Hl Hy.
  assert (Hnan : Forall (fun x => is_nan x = false) l).
  { eapply Forall_impl; [| exact Hl]. intros x Hx. apply (@finite_not_nan x Hx). }
  destruct (@fold_Math_min l infinity eq_refl Hnan) as [_ [Hin [_ Hall]]].
  fold (Math_min_list l) in Hin, Hall. split; [| exact Hall].
  destruct Hin as [Heq | Hin]; [| exact Hin].
  pose proof (Hall y Hy) as Hle. rewrite Heq in Hle.
  rewrite Forall_forall in Hl. pose proof (@finite_rank y (Hl y Hy)) as Hb.
  change (rank infinity) with beyond in Hle. lia.
Qed.

Lemma Math_max_list_finite (l : list float) (y : float) :
  Forall (fun x => is_finite x = true) l -> In y l ->
  In (Math_max_list l) l /\ forall x, In x l -> (rank x <= rank (Math_max_list l))%Z.
Proof.
  intros Hl Hy.
  assert (Hnan : Forall (fun x => is_nan x = false) l).
  { eapply Forall_impl; [| exact Hl]. intros x Hx. apply (@finite_not_nan x Hx). }
  destruct (@fold_Math_max l neg_infinity eq_refl Hnan) as [_ [Hin [_ Hall]]].
  fold (Math_max_list l) in Hin, Hall. split; [| exact Hall].
  destruct Hin as [Heq | Hin]; [| exact Hin].
  pose proof (Hall y Hy) as Hle. rewrite Heq in Hle.
  rewrite Forall_forall in Hl. pose proof (@finite_rank y (Hl y Hy)) as Hb.
  change (rank neg_infinity) with (- beyond)%Z in Hle. lia.
Qed.

(** *** The limits enclose the values *)

Lemma y1_limits_enclose (data : list VLFRecord) :
  Forall (fun d => Number_isFinite (inPhase d) = true
                   /\ Number_isFinite (quadrature d) = true) data ->
  forall y, In y (flat_map (fun d => [inPhase d; quadrature d]) data) ->
    le (fst (y1_limits data)) y = true /\ le y (snd (y1_limits data)) = true.
Proof.
  intros Hdata y Hy. unfold y1_limits.
  set (allY := flat_map (fun d => [inPhase d; quadrature d]) data) in *.
  assert (Hall : Forall (fun x => is_finite x = true) allY).
  { rewrite Forall_forall in Hdata |- *. intros x Hx. subst allY.
    apply in_flat_map in Hx. destruct Hx as [d [Hd Hx]].
    destruct (Hdata d Hd) as [H1 H2].
    destruct Hx as [<- | [<- | []]]; assumption. }
  destruct (@Math_min_list_finite allY y Hall Hy) as [Hmin_in Hmin].
  destruct (@Math_max_list_finite allY y Hall Hy) as [Hmax_in Hmax].
  cbv zeta.
  set (lo := Math_min_list allY) in *. set (hi := Math_max_list allY) in *.
  rewrite Forall_forall in Hall.
  pose proof (Hall lo Hmin_in) as Hlo. pose proof (Hall hi Hmax_in) as Hhi.
  pose proof (Hall y Hy) as Hyf.
  unfold Number_isFinite. rewrite Hlo, Hhi. cbn [negb orb].
  assert (Hord : (rank lo <= rank hi)%Z) by (apply Hmin, Hmax_in).
  destruct (@sub_ordered_nonneg hi lo Hhi Hlo Hord) as [Hrn Hrp].
  set (range := if strict_eq (hi - lo) 0
                then (if not_number (Math_abs hi) then 1 else Math_abs hi)
                else hi - lo).
  assert (Hrange : is_nan range = false /\ (0 <=? range) = true).
  { subst range. destruct (strict_eq (hi - lo) 0); [| split; assumption].
    destruct (not_number (Math_abs hi)); [split; reflexivity |].
    apply abs_nonneg, (@finite_not_nan hi Hhi). }
  destruct Hrange as [Hn Hp].
  destruct (@pad_nonneg range 0.12 _ _ eq_refl Hn Hp) as [Hpn Hpp].
  destruct (@sub_nonneg_le lo (range * 0.12) Hlo Hpn Hpp) as [Hln Hle].
  destruct (@add_nonneg_ge hi (range * 0.12) Hhi Hpn Hpp) as [Hhn Hge].
  cbn [fst snd]. unfold le.
  pose proof (@finite_not_nan _ Hlo) as Hlon. pose proof (@finite_not_nan _ Hhi) as Hhin.
  pose proof (@finite_not_nan _ Hyf) as Hyn.
  rewrite (@leb_rank _ _ Hln Hlon) in Hle. rewrite (@leb_rank _ _ Hhin Hhn) in Hge.
  rewrite (@leb_rank _ _ Hln Hyn), (@leb_rank _ _ Hyn Hhn).
  apply Z.leb_le in Hle, Hge. pose proof (Hmin y Hy). pose proof (Hmax y Hy).
  split; apply Z.leb_le; lia.
Qed.

(** The same for the limits of the axis of the filter. *)
Lemma finite_values_enclosed (l : list float) (y : float) :
  Forall (fun x => is_finite x = true) l -> In y l ->
  let khRange := Math_max_list l - Math_min_list l in
  le (Math_min_list l - khRange * 0.2) y = true
  /\ le y (Math_max_list l + khRange * 0.2) = true.
Proof.
  intros Hall Hy.
  destruct (@Math_min_list_finite l y Hall Hy) as [Hmin_in Hmin].
  destruct (@Math_max_list_finite l y Hall Hy) as [Hmax_in Hmax].
  cbv zeta.
  set (lo := Math_min_list l) in *. set (hi := Math_max_list l) in *.
  rewrite Forall_forall in Hall.
  pose proof (Hall lo Hmin_in) as Hlo. pose proof (Hall hi Hmax_in) as Hhi.
  pose proof (Hall y Hy) as Hyf.
  assert (Hord : (rank lo <= rank hi)%Z) by (apply Hmin, Hmax_in).
  destruct (@sub_ordered_nonneg hi lo Hhi Hlo Hord) as [Hn Hp].
  destruct (@pad_nonneg (hi - lo) 0.2 _ _ eq_refl Hn Hp) as [Hpn Hpp].
  destruct (@sub_nonneg_le lo ((hi - lo) * 0.2) Hlo Hpn Hpp) as [Hln Hle].
  destruct (@add_nonneg_ge hi ((hi - lo) * 0.2) Hhi Hpn Hpp) as [Hhn Hge].
  unfold le.
  pose proof (@finite_not_nan _ Hlo) as Hlon. pose proof (@finite_not_nan _ Hhi) as Hhin.
  pose proof (@finite_not_nan _ Hyf) as Hyn.
  rewrite (@leb_rank _ _ Hln Hlon) in Hle. rewrite (@leb_rank _ _ Hhin Hhn) in Hge.
  rewrite (@leb_rank _ _ Hln Hyn), (@leb_rank _ _ Hyn Hhn).
  apply Z.leb_le in Hle, Hge. pose proof (Hmin y Hy). pose proof (Hmax y Hy).
  split; apply Z.leb_le; lia.
Qed.

(** X27: the amplitude axis of the VLF chart encloses the curves.  Whatever
    the text, every in-phase value and every quadrature value that
    [plotVLFData] plots lies between the limits [yMin] and [yMax] that it
    gives to the axis [y1] (the limits may be infinite, never [NaN]). *)
Theorem amplitude_axis_encloses_readings (input : jsstring) (d : VLFRecord) :
  In d (sorted_readings input) ->
  let (yMin, yMax) := y1_limits (sorted_readings input) in
  le yMin (inPhase d) = true /\ le (inPhase d) yMax = true
  /\ le yMin (quadrature d) = true /\ le (quadrature d) yMax = true.
Proof.
  intros Hd.
  assert (Hfin : Forall (fun d => Number_isFinite (inPhase d) = true
                                  /\ Number_isFinite (quadrature d) = true)
                        (sorted_readings input)).
  { rewrite Forall_forall. intros r Hr. unfold sorted_readings in Hr.
    apply (Permutation_in _ (sort_by_perm _ _)) in Hr.
    unfold parseVLFData in Hr. rewrite in_flat_map in Hr. destruct Hr as [line [_ Hr]].
    destruct (vlf_line_finite line r Hr) as [_ [H1 H2]]. split; assumption. }
  pose proof (@y1_limits_enclose _ Hfin) as Hen.
  destruct (y1_limits (sorted_readings input)) as [yMin yMax]. cbn [fst snd] in Hen.
  assert (Hi : In (inPhase d) (flat_map (fun d => [inPhase d; quadrature d])
                                        (sorted_readings input))).
  { apply in_flat_map. exists d. split; [exact Hd | left; reflexivity]. }
  assert (Hq : In (quadrature d) (flat_map (fun d => [inPhase d; quadrature d])
                                           (sorted_readings input))).
  { apply in_flat_map. exists d. split; [exact Hd | right; left; reflexivity]. }
  destruct (Hen _ Hi) as [H1 H2]. destruct (Hen _ Hq) as [H3 H4]. auto.
Qed.

Lemma amplitude_axis_encloses_readings_witness :
  let input := lit "0 45.2 -12.5" ++ [LF] ++ lit "10,52.3,-15.8" in
  let d := mkVLF 10 52.3 (-15.8) in
  let (yMin, yMax) := y1_limits (sorted_readings input) in
  le yMin (inPhase d) = true /\ le (inPhase d) yMax = true
  /\ le yMin (quadrature d) = true /\ le (quadrature d) yMax = true.
Proof.
  intros input d. apply (@amplitude_axis_encloses_readings input d).
  vm_compute. right. left. reflexivity.
Defined.

(** X28: the axis of the Karous-Hjelt curve encloses its finite values.
    When [plotVLFData] gives the filter an axis [y2], every finite value
    of the filter lies between the limits [khYMin] and [khYMax] of that
    axis; the values that are not finite are the only ones it can leave
    out. *)
Theorem filter_axis_encloses_finite_values
    (khData : list KHPoint) (khYMin khYMax : float) (p : KHPoint) :
  y2_limits khData = Some (khYMin, khYMax) ->
  In p khData -> Number_isFinite (kh_y p) = true ->
  le khYMin (kh_y p) = true /\ le (kh_y p) khYMax = true.
Proof.
  unfold y2_limits. cbv zeta. intros Hlim Hp Hfin.
  set (khPoints := filter Number_isFinite (map kh_y khData)) in *.
  destruct (Nat.ltb 0 (List.length khPoints)); [| discriminate].
  injection Hlim as <- <-.
  apply finite_values_enclosed.
  - rewrite Forall_forall. intros x Hx. subst khPoints.
    apply filter_In in Hx. exact (proj2 Hx).
  - subst khPoints. apply filter_In. split; [| exact Hfin].
    apply in_map, Hp.
Qed.

Lemma filter_axis_encloses_finite_values_witness :
  let khData := [mkKH 5 0.5; mkKH 15 nan; mkKH 25 (-2)] in
  le (-2.5) (kh_y (mkKH 25 (-2))) = true /\ le (kh_y (mkKH 25 (-2))) 1 = true.
Proof.
  intros khData.
  apply (@filter_axis_encloses_finite_values khData (-2.5) 1 (mkKH 25 (-2)));
    [vm_compute; reflexivity | right; right; left; reflexivity | reflexivity].
Defined.

End AxisLimits.

(** ** The profile range of the VLF statistics *)

Section ProfileRange.

Import FloatFacts FloatOrder Rounding.

Lemma eqb_rank (x y : float) :
  is_nan x = false -> is_nan y = false -> (x =? y) = (rank x =? rank y)%Z.
Proof.
  intros Hx Hy. rewrite eqb_spec. unfold SFeqb, rank.
  rewrite SFcompare_rank by (apply Prim2SF_valid || apply not_nan_spec; assumption).
  destruct (Z.compare_spec (SFrank (Prim2SF x)) (SFrank (Prim2SF y))) as [H | H | H];
    symmetry; [apply Z.eqb_eq; exact H | apply Z.eqb_neq; lia | apply Z.eqb_neq; lia].
Qed.

Lemma last_cons_default (A : Type) (l : list A) (z x : A) :
  last (z :: l) x = last l z.
Proof.
  revert z x. induction l as [| a l IH]; intros z x; [reflexivity |].
  change (last (z :: a :: l) x) with (last (a :: l) x). rewrite !IH. reflexivity.
Qed.

Lemma sorted_last (A : Type) (rk : A -> Z) (l : list A) (x : A) :
  StronglySorted (fun a b => (rk a <= rk b)%Z) (x :: l) ->
  forall y, In y (x :: l) -> (rk y <= rk (last l x))%Z.
Proof.
  revert x. induction l as [| z l IH]; intros x Hs y Hy.
  - destruct Hy as [<- | []]. cbn [last]. lia.
  - inversion Hs as [| ? ? Hs' Hall]; subst.
    rewrite last_cons_default.
    destruct Hy as [<- | Hy]; [| apply (IH z Hs' y Hy)].
    inversion Hall as [| ? ? Hxz _]; subst.
    pose proof (IH z Hs' z (or_introl eq_refl)). lia.
Qed.

Lemma in_last (A : Type) (l : list A) (x : A) : In (last l x) (x :: l).
Proof.
  revert x. induction l as [| z l IH]; intros x; [left; reflexivity |].
  rewrite last_cons_default. right. apply IH.
Qed.

(** X29: the profile range of the VLF statistics spans the plotted curve.
    Whatever the text, the two numbers of the card [Profile Range] are equal
    to the station of the first and of the last point of the curves. *)
Theorem profile_range_spans_curve (input : jsstring) (first : VLFRecord)
    (rest : list VLFRecord) :
  sorted_readings input = first :: rest ->
  strict_eq (fst (vlf_profile_range (sorted_readings input))) (station first) = true
  /\ strict_eq (snd (vlf_profile_range (sorted_readings input)))
               (station (last rest first)) = true.
Proof.
  intros Hdata.
  assert (Hperm : Permutation (sorted_readings input) (parseVLFData input))
    by apply sort_by_perm.
  assert (Hfin : forall d, In d (sorted_readings input) -> is_finite (station d) = true).
  { intros d Hd. apply (Permutation_in _ Hperm) in Hd.
    unfold parseVLFData in Hd. apply in_flat_map in Hd. destruct Hd as [line [_ Hd]].
    apply (vlf_line_finite line d Hd). }
  assert (Hsorted : StronglySorted (fun a b => (rank (station a) <= rank (station b))%Z)
                      (sorted_readings input)).
  { apply sort_by_sorted with (ok := fun d => is_nan (station d) = false).
    - intros x y Hx Hy. rewrite sub_gt_zero, ltb_rank by assumption. reflexivity.
    - rewrite Forall_forall. intros d Hd. apply finite_not_nan.
      unfold parseVLFData in Hd. apply in_flat_map in Hd. destruct Hd as [line [_ Hd]].
      apply (vlf_line_finite line d Hd). }
  unfold vlf_profile_range. cbn [fst snd]. rewrite Hdata in *.
  set (l := map station (first :: rest)).
  assert (Hall : Forall (fun x => is_finite x = true) l).
  { subst l. rewrite Forall_forall. intros x Hx. apply in_map_iff in Hx.
    destruct Hx as [d [<- Hd]]. apply (Hfin d Hd). }
  assert (Hfirst : In (station first) l) by (left; reflexivity).
  assert (Hlast : In (station (last rest first)) l) by (apply in_map, in_last).
  destruct (@Math_min_list_finite l _ Hall Hfirst) as [Hmin_in Hmin].
  destruct (@Math_max_list_finite l _ Hall Hfirst) as [Hmax_in Hmax].
  rewrite Forall_forall in Hall.
  unfold strict_eq.
  rewrite (@eqb_rank _ _ (@finite_not_nan _ (Hall _ Hmin_in))
                     (@finite_not_nan _ (Hall _ Hfirst))).
  rewrite (@eqb_rank _ _ (@finite_not_nan _ (Hall _ Hmax_in))
                     (@finite_not_nan _ (Hall _ Hlast))).
  split; apply Z.eqb_eq.
  - apply Z.le_antisymm; [apply Hmin, Hfirst |].
    apply in_map_iff in Hmin_in. destruct Hmin_in as [d [<- Hd]].
    inversion Hsorted as [| ? ? _ Hle]; subst. destruct Hd as [<- | Hd]; [lia |].
    rewrite Forall_forall in Hle. apply (Hle d Hd).
  - apply Z.le_antisymm; [| apply Hmax, Hlast].
    apply in_map_iff in Hmax_in. destruct Hmax_in as [d [<- Hd]].
    apply (@sorted_last _ (fun d => rank (station d)) rest first Hsorted d Hd).
Qed.

Lemma profile_range_spans_curve_witness :
  let input := lit "10,52.3,-15.8" ++ [LF] ++ lit "0 45.2 -12.5" in
  let data := sorted_readings input in
  strict_eq (fst (vlf_profile_range data)) 0 = true
  /\ strict_eq (snd (vlf_profile_range data)) 10 = true.
Proof.
  intros input data.
  apply (@profile_range_spans_curve input (mkVLF 0 45.2 (-12.5)) [mkVLF 10 52.3 (-15.8)]).
  vm_compute. reflexivity.
Defined.

End ProfileRange.
